(** * F1 performance analyzer: live history, telemetry segmentation, lap statistics

    A shallow embedding of the algorithmic parts of
    - [live_monitor.py]      (classes [LiveF1Monitor] and
                              [LiveAnalyticsCallback]),
    - [advanced_analyzer.py] (class [AdvancedF1Analyzer]),
    - [main.py]              (class [F1PerformanceAnalyzer]),
    together with the properties the specification states about them and
    further properties read off the code.

    Conventions of the embedding.
    - A Python [dict] keyed by strings is a [gmap string _]; none of the
      modelled code depends on the iteration order of a dict except through
      [min], [max], [sorted] and [len], which do not depend on it.
    - Python compares strings by code point; timestamps are ISO-8601 ASCII
      strings ([datetime.isoformat()]), so the order is the lexicographic
      byte order [String.le], which for such strings is the order in time.
    - Python floats are modelled by exact rationals [Q]; a NaN / missing cell
      (pandas NaT, NaN, None) is [None] of an [option].
    - A Python exception is the [Raised] outcome of a call; it carries the
      state of the object at the point where the exception left the method. *)

From Stdlib Require Import QArith Qround Lqa.
From stdpp Require Import gmap strings list sorting.

#[local] Set Warnings "-clear-no-such-hyp".
Local Open Scope Z_scope.

(** ** Python helpers *)

Module Py.

Inductive error : Type :=
| KeyError (key : string)
| ValueError (msg : string)
| IndexError.

(** Result of a method call on a mutable object of type [S] that returns [A]. *)
Inductive outcome (S A : Type) : Type :=
| Done (s : S) (a : A)
| Raised (e : error) (s : S).
Arguments Done {S A} s a.
Arguments Raised {S A} e s.

(** [lst[start:]] for an integer [start] (negative counts from the end). *)
Definition slice_from {A} (start : Z) (l : list A) : list A :=
  let len := Z.of_nat (length l) in
  let s := if start <? 0 then Z.max 0 (start + len) else Z.min start len in
  drop (Z.to_nat s) l.

(** [lst[-n:]] : note that [lst[-0:]] is the whole list. *)
Definition last_n {A} (n : Z) (l : list A) : list A := slice_from (- n) l.

(** [min(iterable)] on strings: the first least element; [None] stands for
    the ValueError on an empty iterable. *)
Fixpoint min_from (cur : string) (l : list string) : string :=
  match l with
  | [] => cur
  | x :: l' => min_from (if String.ltb x cur then x else cur) l'
  end.
Definition min (l : list string) : option string :=
  match l with
  | [] => None
  | x :: l' => Some (min_from x l')
  end.

(** [max(iterable)] on strings: the first greatest element. *)
Fixpoint max_from (cur : string) (l : list string) : string :=
  match l with
  | [] => cur
  | x :: l' => max_from (if String.ltb cur x then x else cur) l'
  end.
Definition max (l : list string) : option string :=
  match l with
  | [] => None
  | x :: l' => Some (max_from x l')
  end.

(** [sorted(iterable)] on strings. *)
Definition sorted (l : list string) : list string := merge_sort String.le l.

(** [dict.keys()] *)
Definition keys {V} (d : gmap string V) : list string := (map_to_list d).*1.

End Py.

(** ** pandas and numpy helpers *)

Module Pandas.

(** A number in a series or a dict built by the analyzers.  [Sqrt x] is the
    non-negative square root of the rational [x], kept symbolic. *)
Inductive cell : Type :=
| Int (n : Z)
| Float (x : Q)
| Sqrt (x : Q)
| NaN.

(** Comparisons of floats, false on NaN ([None]). *)
Definition Qltb (x y : Q) : bool := negb (Qle_bool y x).
Definition lt_float (x : option Q) (c : Q) : bool :=
  match x with Some v => Qltb v c | None => false end.
Definition gt_float (x : option Q) (c : Q) : bool :=
  match x with Some v => Qltb c v | None => false end.

(** [Series.diff()]: NaN first, then the difference to the previous row. *)
Fixpoint diff_from (prev : Q) (xs : list Q) : list (option Q) :=
  match xs with
  | [] => []
  | x :: xs' => Some (x - prev)%Q :: diff_from x xs'
  end.
Definition diff (xs : list Q) : list (option Q) :=
  match xs with
  | [] => []
  | x :: xs' => None :: diff_from x xs'
  end.

(** [series[a:b]] for [0 ≤ a], [0 ≤ b]. *)
Definition slice {A} (a b : nat) (l : list A) : list A :=
  take (b - a) (drop a l).

(** [Series.min()] and [Series.max()]; NaN on an empty series. *)
Fixpoint min_from (cur : Q) (xs : list Q) : Q :=
  match xs with
  | [] => cur
  | x :: xs' => min_from (if Qltb x cur then x else cur) xs'
  end.
Definition series_min (xs : list Q) : cell :=
  match xs with [] => NaN | x :: xs' => Float (min_from x xs') end.
Fixpoint max_from (cur : Q) (xs : list Q) : Q :=
  match xs with
  | [] => cur
  | x :: xs' => max_from (if Qltb cur x then x else cur) xs'
  end.
Definition series_max (xs : list Q) : cell :=
  match xs with [] => NaN | x :: xs' => Float (max_from x xs') end.

(** [Series.unique()]: the distinct values in order of first appearance. *)
Fixpoint unique (xs : list string) : list string :=
  match xs with
  | [] => []
  | x :: xs' => x :: List.filter (λ y, negb (String.eqb x y)) (unique xs')
  end.

(** [Series.sort_values()] *)
Fixpoint insert_sorted (x : Q) (xs : list Q) : list Q :=
  match xs with
  | [] => [x]
  | y :: xs' => if Qle_bool x y then x :: xs else y :: insert_sorted x xs'
  end.
Fixpoint sort_values (xs : list Q) : list Q :=
  match xs with
  | [] => []
  | x :: xs' => insert_sorted x (sort_values xs')
  end.

Definition sum (xs : list Q) : Q := foldr Qplus 0%Q xs.
Definition count (xs : list Q) : Q := inject_Z (Z.of_nat (length xs)).

(** [Series.quantile(q)], linear interpolation between the two closest
    ranks; [None] is the NaN of an empty series. *)
Definition quantile (q : Q) (xs : list Q) : option Q :=
  let s := sort_values xs in
  match s with
  | [] => None
  | x0 :: _ =>
    let pos := ((count s - 1) * q)%Q in
    let lo := Qfloor pos in
    let frac := (pos - inject_Z lo)%Q in
    let a := nth (Z.to_nat lo) s x0 in
    let b := nth (Z.to_nat lo + 1) s a in
    Some (a + (b - a) * frac)%Q
  end.

(** [Series.median()] *)
Definition median (xs : list Q) : option Q :=
  let s := sort_values xs in
  let n := length s in
  match s with
  | [] => None
  | x0 :: _ =>
    if Nat.even n
    then Some ((nth (n / 2 - 1) s x0 + nth (n / 2) s x0) / 2)%Q
    else Some (nth (n / 2) s x0)
  end.

(** [Series.mean()] *)
Definition mean (xs : list Q) : cell :=
  match xs with
  | [] => NaN
  | _ => Float (sum xs / count xs)%Q
  end.

(** [Series.std()], with pandas' default [ddof=1]. *)
Definition std (xs : list Q) : cell :=
  match xs with
  | [] | [_] => NaN
  | _ =>
    let m := (sum xs / count xs)%Q in
    Sqrt (sum ((λ x, (x - m) * (x - m))%Q <$> xs) / (count xs - 1))%Q
  end.

(** The order of the rationals is decidable. *)
Global Instance Qle_decision : RelDecision Qle :=
  λ x y, match Qlt_le_dec y x with
         | left H => right (Qlt_not_le _ _ H)
         | right H => left H
         end.

(** [m] is the least element of [xs]. *)
Definition is_minimum (m : Q) (xs : list Q) : Prop :=
  m ∈ xs ∧ ∀ x, x ∈ xs → (m <= x)%Q.

(** [m] is the greatest element of [xs]. *)
Definition is_maximum (m : Q) (xs : list Q) : Prop :=
  m ∈ xs ∧ ∀ x, x ∈ xs → (x <= m)%Q.

End Pandas.

(** ** live_monitor.py *)

Module Live.
Import Py.

(** One element of [data['drivers']], as built by [_generate_simulated_timing]. *)
Record DriverTiming : Type := {
  driver : string;
  position : Z;
  last_lap_time : string;
  best_lap_time : string;
  gap_to_leader : string;
  sector_1 : string;
  sector_2 : string;
  sector_3 : string;
  speed_trap : string;
  tire_compound : string;
  tire_age : Z;
  pit_stops : Z
}.

(** [data['weather']], as built by [_generate_simulated_weather]. *)
Record Weather : Type := {
  air_temperature : Q;
  track_temperature : Q;
  humidity : Q;
  wind_speed : Q;
  wind_direction : Z;
  rainfall : Q;
  pressure : Q
}.

(** The dict returned by [_fetch_live_data]. *)
Record LiveData : Type := {
  timestamp : string;
  session_time : Q;
  drivers : list DriverTiming;
  weather : Weather;
  track_status : string;
  session_status : string
}.

(** [self.session_data] once [start_monitoring] has filled it.  Clock
    readings ([datetime.now()]) are seconds as rationals.  The entry
    ['lap_data'] is created empty and never read or written again; it is
    left out. *)
Record SessionData : Type := {
  session_info : string;
  start_time : Q;
  timing_data : gmap string (list DriverTiming);
  weather_data : gmap string Weather;
  sd_track_status : string
}.

(** The monitor object.  [session_data = None] is the empty dict [{}] that
    [__init__] installs; callbacks are identified by a number. *)
Record Monitor : Type := {
  is_monitoring : bool;
  session_data : option SessionData;
  callbacks : list nat;
  update_interval : Z
}.

(** [__init__] *)
Definition init : Monitor :=
  {| is_monitoring := false; session_data := None; callbacks := [];
     update_interval := 5 |}.

(** [add_callback] *)
Definition add_callback (cb : nat) (st : Monitor) : Monitor :=
  {| is_monitoring := is_monitoring st; session_data := session_data st;
     callbacks := callbacks st ++ [cb];
     update_interval := update_interval st |}.

(** [list.remove(x)]: drops the first occurrence. *)
Fixpoint list_remove_first (x : nat) (l : list nat) : list nat :=
  match l with
  | [] => []
  | y :: l' => if decide (x = y) then l' else y :: list_remove_first x l'
  end.

(** [remove_callback] *)
Definition remove_callback (cb : nat) (st : Monitor) : Monitor :=
  if decide (cb ∈ callbacks st)
  then {| is_monitoring := is_monitoring st; session_data := session_data st;
          callbacks := list_remove_first cb (callbacks st);
          update_interval := update_interval st |}
  else st.

(** [_notify_callbacks]: every registered callback is called with the data,
    in registration order; an exception of one callback is caught inside the
    loop.  The monitor itself is not changed; the result lists the calls. *)
Definition _notify_callbacks (st : Monitor) (data : LiveData)
  : list (nat * string) :=
  (λ cb, (cb, timestamp data)) <$> callbacks st.

(** The first statements of [start_monitoring], up to the polling loop.
    [now] is the reading of [datetime.now()]. *)
Definition start_monitoring_begin (info : string) (now : Q) (st : Monitor)
  : outcome Monitor unit :=
  Done {| is_monitoring := true;
          session_data := Some {| session_info := info;
                                  start_time := now;
                                  timing_data := ∅;
                                  weather_data := ∅;
                                  sd_track_status := "GREEN" |};
          callbacks := callbacks st;
          update_interval := update_interval st |} tt.

Definition with_session (st : Monitor) (sd : SessionData) : Monitor :=
  {| is_monitoring := is_monitoring st; session_data := Some sd;
     callbacks := callbacks st; update_interval := update_interval st |}.

(** [_process_live_data].  The two stores and the track status are written
    first; when the timing store then holds more than 100 entries, its least
    key is deleted from both stores ([del] raises KeyError on a missing
    key, after the timing store has already been changed). *)
Definition _process_live_data (data : LiveData) (st : Monitor)
  : outcome Monitor unit :=
  let ts := timestamp data in
  match session_data st with
  | None => Raised (KeyError "timing_data") st
  | Some sd =>
    let timing := <[ts := drivers data]> (timing_data sd) in
    let weath := <[ts := weather data]> (weather_data sd) in
    let sd1 := {| session_info := session_info sd; start_time := start_time sd;
                  timing_data := timing; weather_data := weath;
                  sd_track_status := track_status data |} in
    if decide (100 < size timing)%nat then
      match Py.min (keys timing) with
      | None => Raised (ValueError "min() arg is an empty sequence")
                       (with_session st sd1)
      | Some oldest_key =>
        let sd2 := {| session_info := session_info sd;
                      start_time := start_time sd;
                      timing_data := delete oldest_key timing;
                      weather_data := weath;
                      sd_track_status := track_status data |} in
        match weath !! oldest_key with
        | None => Raised (KeyError oldest_key) (with_session st sd2)
        | Some _ =>
          Done (with_session st
                  {| session_info := session_info sd;
                     start_time := start_time sd;
                     timing_data := delete oldest_key timing;
                     weather_data := delete oldest_key weath;
                     sd_track_status := track_status data |}) tt
        end
      end
    else Done (with_session st sd1) tt
  end.

(** [stop_monitoring] *)
Definition stop_monitoring (st : Monitor) : Monitor :=
  {| is_monitoring := false; session_data := session_data st;
     callbacks := callbacks st; update_interval := update_interval st |}.

(** [get_current_standings] *)
Definition get_current_standings (st : Monitor)
  : outcome Monitor (list DriverTiming) :=
  match session_data st with
  | None => Raised (KeyError "timing_data") st
  | Some sd =>
    if decide (size (timing_data sd) = 0)%nat then Done st []
    else
      match Py.max (keys (timing_data sd)) with
      | None => Raised (ValueError "max() arg is an empty sequence") st
      | Some latest_timestamp =>
        match timing_data sd !! latest_timestamp with
        | Some l => Done st l
        | None => Raised (KeyError latest_timestamp) st
        end
      end
  end.

(** The dict of lists that [get_driver_history] returns. *)
Record DriverHistory : Type := {
  dh_timestamps : list string;
  dh_lap_times : list string;
  dh_positions : list Z;
  dh_gaps : list string;
  dh_tire_ages : list Z
}.

Definition dh_append (h : DriverHistory) (ts : string) (dd : DriverTiming)
  : DriverHistory :=
  {| dh_timestamps := dh_timestamps h ++ [ts];
     dh_lap_times := dh_lap_times h ++ [last_lap_time dd];
     dh_positions := dh_positions h ++ [position dd];
     dh_gaps := dh_gaps h ++ [gap_to_leader dd];
     dh_tire_ages := dh_tire_ages h ++ [tire_age dd] |}.

(** The outer [for timestamp in timestamps] of [get_driver_history]; the
    inner loop with its [break] takes the first entry of the driver. *)
Fixpoint driver_history_loop (td : gmap string (list DriverTiming))
    (d : string) (tss : list string) (h : DriverHistory)
  : error + DriverHistory :=
  match tss with
  | [] => inr h
  | ts :: tss' =>
    match td !! ts with
    | None => inl (KeyError ts)
    | Some timing =>
      match List.find (λ dd, bool_decide (driver dd = d)) timing with
      | Some dd => driver_history_loop td d tss' (dh_append h ts dd)
      | None => driver_history_loop td d tss' h
      end
    end
  end.

(** The timestamps both history queries walk over:
    [sorted(store.keys())[-data_points:]]. *)
Definition window {V} (store : gmap string V) (data_points : Z) : list string :=
  last_n data_points (sorted (keys store)).

(** [get_driver_history] *)
Definition get_driver_history (d : string) (data_points : Z) (st : Monitor)
  : outcome Monitor DriverHistory :=
  match session_data st with
  | None => Raised (KeyError "timing_data") st
  | Some sd =>
    match driver_history_loop (timing_data sd) d
            (window (timing_data sd) data_points)
            {| dh_timestamps := []; dh_lap_times := []; dh_positions := [];
               dh_gaps := []; dh_tire_ages := [] |} with
    | inl e => Raised e st
    | inr h => Done st h
    end
  end.

(** The dict of lists that [get_weather_history] returns. *)
Record WeatherHistory : Type := {
  wh_timestamps : list string;
  wh_air_temp : list Q;
  wh_track_temp : list Q;
  wh_humidity : list Q;
  wh_wind_speed : list Q;
  wh_rainfall : list Q
}.

Fixpoint weather_history_loop (wd : gmap string Weather)
    (tss : list string) (h : WeatherHistory) : error + WeatherHistory :=
  match tss with
  | [] => inr h
  | ts :: tss' =>
    match wd !! ts with
    | None => inl (KeyError ts)
    | Some w =>
      weather_history_loop wd tss'
        {| wh_timestamps := wh_timestamps h ++ [ts];
           wh_air_temp := wh_air_temp h ++ [air_temperature w];
           wh_track_temp := wh_track_temp h ++ [track_temperature w];
           wh_humidity := wh_humidity h ++ [humidity w];
           wh_wind_speed := wh_wind_speed h ++ [wind_speed w];
           wh_rainfall := wh_rainfall h ++ [rainfall w] |}
    end
  end.

(** [get_weather_history] *)
Definition get_weather_history (data_points : Z) (st : Monitor)
  : outcome Monitor WeatherHistory :=
  match session_data st with
  | None => Raised (KeyError "weather_data") st
  | Some sd =>
    match weather_history_loop (weather_data sd)
            (window (weather_data sd) data_points)
            {| wh_timestamps := []; wh_air_temp := []; wh_track_temp := [];
               wh_humidity := []; wh_wind_speed := []; wh_rainfall := [] |} with
    | inl e => Raised e st
    | inr h => Done st h
    end
  end.

(** The non-empty dict that [get_session_statistics] returns. *)
Record Stats : Type := {
  session_duration : Q;
  total_updates : nat;
  current_leader : option string;
  fastest_lap : option string;
  total_drivers : nat
}.

(** [get_session_statistics]; [None] is the empty dict [{}] returned while
    no timing data is stored. *)
Definition get_session_statistics (now : Q) (st : Monitor)
  : outcome Monitor (option Stats) :=
  match session_data st with
  | None => Raised (KeyError "timing_data") st
  | Some sd =>
    if decide (size (timing_data sd) = 0)%nat then Done st None
    else
      match get_current_standings st with
      | Raised e st' => Raised e st'
      | Done st' latest_data =>
        Done st'
          (Some {| session_duration := (now - start_time sd)%Q;
                   total_updates := size (timing_data sd);
                   current_leader := driver <$> head latest_data;
                   fastest_lap := Py.min (best_lap_time <$> latest_data);
                   total_drivers := length latest_data |})
      end
  end.

(** One iteration of the [while self.is_monitoring] loop: what
    [_fetch_live_data] returned ([None] when it failed), and whether
    [stop_monitoring] was called while the loop slept. *)
Record Tick : Type := {
  fetched : option LiveData;
  stop_requested : bool
}.

(** The polling loop of [start_monitoring] over a finite prefix of ticks.
    An exception inside the loop is caught by the method; the [finally]
    clause clears [is_monitoring].  The second component accumulates the
    callback invocations. *)
Fixpoint polling_loop (ticks : list Tick) (st : Monitor)
    (calls : list (nat * string)) : Monitor * list (nat * string) :=
  match ticks with
  | [] => (st, calls)
  | t :: ticks' =>
    if is_monitoring st then
      let slept (s : Monitor) :=
        if stop_requested t then stop_monitoring s else s in
      match fetched t with
      | None => polling_loop ticks' (slept st) calls
      | Some live_data =>
        match _process_live_data live_data st with
        | Raised _ st' => (stop_monitoring st', calls)
        | Done st' _ =>
          polling_loop ticks' (slept st')
            (calls ++ _notify_callbacks st' live_data)
        end
      end
    else (stop_monitoring st, calls)
  end.

(** [start_monitoring] *)
Definition start_monitoring (info : string) (now : Q) (ticks : list Tick)
    (st : Monitor) : Monitor * list (nat * string) :=
  match start_monitoring_begin info now st with
  | Done st1 _ => polling_loop ticks st1 []
  | Raised _ st1 => (stop_monitoring st1, [])
  end.

(** The state a monitor is in right after [start_monitoring] has set it up. *)
Definition started (info : string) (now : Q) (st : Monitor) : Monitor :=
  match start_monitoring_begin info now st with
  | Done st1 _ => st1
  | Raised _ st1 => st1
  end.

(** A tick whose fetch succeeded, with no stop requested. *)
Definition successful (d : LiveData) : Tick :=
  {| fetched := Some d; stop_requested := false |}.

(** The callback invocations for the snapshots [l], in order. *)
Definition notifications (cbs : list nat) (l : list LiveData)
  : list (nat * string) :=
  d ← l; (λ cb, (cb, timestamp d)) <$> cbs.

(** Successive successful polls: [_process_live_data] on each snapshot. *)
Fixpoint process_all (l : list LiveData) (st : Monitor)
  : outcome Monitor unit :=
  match l with
  | [] => Done st tt
  | d :: l' =>
    match _process_live_data d st with
    | Done st' _ => process_all l' st'
    | Raised e st' => Raised e st'
    end
  end.

(** Timestamps strictly increasing in Python's string order. *)
Fixpoint increasing (l : list string) : bool :=
  match l with
  | [] => true
  | x :: l' =>
    match l' with
    | [] => true
    | y :: _ => String.ltb x y && increasing l'
    end
  end.

(** The item a snapshot contributes to a store that keeps its field [f]. *)
Definition entry_of {V} (f : LiveData → V) (d : LiveData) : string * V :=
  (timestamp d, f d).
Definition snapshot_entry : LiveData → string * list DriverTiming :=
  entry_of drivers.
Definition weather_entry : LiveData → string * Weather :=
  entry_of weather.

(** The last [n] elements of a list. *)
Definition most_recent {A} (n : nat) (l : list A) : list A :=
  drop (length l - n) l.

(** The least key of a non-empty store. *)
Definition least_key {V} (k : string) (store : gmap string V) : Prop :=
  k ∈ dom store ∧ ∀ x, x ∈ dom store → String.le k x.

(** The invariant of a monitor that has been started. *)
Definition consistent (st : Monitor) : Prop :=
  ∃ sd, session_data st = Some sd ∧
        dom (timing_data sd) = dom (weather_data sd) ∧
        (size (timing_data sd) ≤ 100)%nat.

(** Strict order of timestamps. *)
Definition slt (a b : string) : Prop := String.ltb a b = true.

(** The session data that hold exactly the 100 most recent of the
    snapshots [l], for a session started with [info] at time [now]. *)
Definition retained (info : string) (now : Q) (l : list LiveData)
  : SessionData :=
  {| session_info := info; start_time := now;
     timing_data := list_to_map (snapshot_entry <$> most_recent 100 l);
     weather_data := list_to_map (weather_entry <$> most_recent 100 l);
     sd_track_status := from_option track_status "GREEN" (last l) |}.

(** Whether a snapshot of the timing store lists the driver. *)
Definition lists_driver (td : gmap string (list DriverTiming)) (d : string)
    (ts : string) : bool :=
  match td !! ts with
  | Some timing => existsb (λ dd, bool_decide (driver dd = d)) timing
  | None => false
  end.

(** *** Sample feed

    Snapshots five seconds apart, with ISO timestamps
    [2024-03-03T14:mm:ss], used to run the definitions on concrete data. *)

Definition digit (n : nat) : string :=
  String (Ascii.ascii_of_nat (48 + n mod 10)) "".
Definition two_digits (n : nat) : string :=
  digit (n / 10) +:+ digit n.
Definition sample_timestamp (n : nat) : string :=
  "2024-03-03T14:" +:+ two_digits (5 * n / 60) +:+ ":"
    +:+ two_digits (5 * n mod 60).

Definition sample_driver (code : string) (pos : Z) (best : string)
  : DriverTiming :=
  {| driver := code; position := pos; last_lap_time := "1:30.512";
     best_lap_time := best; gap_to_leader := "LEADER";
     sector_1 := "20.000"; sector_2 := "35.000"; sector_3 := "25.000";
     speed_trap := "320"; tire_compound := "MEDIUM"; tire_age := 7;
     pit_stops := 1 |}.

Definition sample_weather : Weather :=
  {| air_temperature := 25; track_temperature := 35; humidity := 60;
     wind_speed := 5; wind_direction := 180; rainfall := 0;
     pressure := 1013 |}.

Definition sample_snapshot (n : nat) : LiveData :=
  {| timestamp := sample_timestamp n;
     session_time := inject_Z (5 * Z.of_nat n);
     drivers := [sample_driver "HAM" 1 "1:30.012";
                 sample_driver "VER" 2 "1:29.957"];
     weather := sample_weather;
     track_status := "GREEN";
     session_status := "ACTIVE" |}.

Definition sample_feed (k : nat) : list LiveData :=
  sample_snapshot <$> seq 0 k.

(** A monitor with one callback that has been started and has polled three
    snapshots. *)
Definition sample_running : Monitor :=
  match process_all (sample_feed 3)
          (started "R" 0 (add_callback 1%nat init)) with
  | Done st _ => st
  | Raised _ st => st
  end.

End Live.

(** ** live_monitor.py: simulated track status and the analytics callback *)

Module LiveCallbacks.
Import Py Pandas Live.






(** What [LiveAnalyticsCallback] prints. *)
Inductive message : Type :=
| Moved (drv : string) (up : bool) (places : Z)
| FastestLap (drv : string) (time : string).

(** A [LiveAnalyticsCallback] object; [printed] is what it has written to
    the standard output so far. *)
Record AnalyticsCallback : Type := {
  update_count : nat;
  position_changes : gmap string (list Z);
  lap_time_trends : gmap string (list string);
  printed : list message
}.

(** [LiveAnalyticsCallback.__init__] *)
Definition new_callback : AnalyticsCallback :=
  {| update_count := 0; position_changes := ∅; lap_time_trends := ∅;
     printed := [] |}.

(** [d[k].append(x)] after [if k not in d: d[k] = []]. *)
Definition append_to {V} (k : string) (x : V) (d : gmap string (list V))
  : gmap string (list V) :=
  let d1 := match d !! k with Some _ => d | None => <[k := []]> d end in
  alter (λ l, l ++ [x]) k d1.

(** The body of [for driver_data in data['drivers']]. *)
Definition track_driver (cb : AnalyticsCallback) (driver_data : DriverTiming)
  : AnalyticsCallback :=
  let drv := driver driver_data in
  let pos := position driver_data in
  let out :=
    match position_changes cb !! drv with
    | Some hist =>
      let prev_position := default pos (last hist) in
      if decide (prev_position ≠ pos)
      then let change := prev_position - pos in
           [Moved drv (bool_decide (0 < change)) (Z.abs change)]
      else []
    | None => []
    end in
  {| update_count := update_count cb;
     position_changes := append_to drv pos (position_changes cb);
     lap_time_trends :=
       append_to drv (last_lap_time driver_data) (lap_time_trends cb);
     printed := printed cb ++ out |}.

(** [min(iterable, key=...)] with string keys: the first element whose key
    is least. *)
Fixpoint min_by_from {A} (key : A → string) (cur : A) (l : list A) : A :=
  match l with
  | [] => cur
  | x :: l' =>
    min_by_from key (if String.ltb (key x) (key cur) then x else cur) l'
  end.
Definition min_by {A} (key : A → string) (l : list A) : option A :=
  match l with
  | [] => None
  | x :: l' => Some (min_by_from key x l')
  end.

(** [LiveAnalyticsCallback.__call__] *)
Definition analytics_call (data : LiveData) (cb : AnalyticsCallback)
  : outcome AnalyticsCallback unit :=
  let cb1 := {| update_count := S (update_count cb);
                position_changes := position_changes cb;
                lap_time_trends := lap_time_trends cb;
                printed := printed cb |} in
  let cb2 := foldl track_driver cb1 (drivers data) in
  match min_by last_lap_time (drivers data) with
  | None => Raised (ValueError "min() arg is an empty sequence") cb2
  | Some fastest_driver =>
    Done {| update_count := update_count cb2;
            position_changes := position_changes cb2;
            lap_time_trends := lap_time_trends cb2;
            printed := printed cb2
                       ++ [FastestLap (driver fastest_driver)
                             (last_lap_time fastest_driver)] |} tt
  end.

(** What [_notify_callbacks] does with one callback: the call, with an
    exception caught and only reported. *)
Definition notified (data : LiveData) (cb : AnalyticsCallback)
  : AnalyticsCallback :=
  match analytics_call data cb with
  | Done cb' _ => cb'
  | Raised _ cb' => cb'
  end.

(** The callback after the monitor has notified it of the snapshots [l]. *)
Definition notified_all (l : list LiveData) (cb : AnalyticsCallback)
  : AnalyticsCallback :=
  foldl (λ c d, notified d c) cb l.

(** The values of the field [f] in the rows for the driver [d], over the
    snapshots [l] in order. *)
Definition driver_rows {V} (f : DriverTiming → V) (d : string)
    (rows : list DriverTiming) : list V :=
  f <$> filter (λ dd, driver dd = d) rows.

(** A dict of lists without empty entries. *)
Definition entry {V} (l : list V) : option (list V) :=
  match l with [] => None | _ => Some l end.

(** How an entry of a dict of per-driver lists grows by the values [new]. *)
Definition grown {V} (old : option (list V)) (new : list V)
  : option (list V) :=
  match old with
  | Some h => Some (h ++ new)
  | None => entry new
  end.

End LiveCallbacks.

(** ** advanced_analyzer.py: telemetry segmentation *)

Module Telemetry.
Import Pandas.

(** One row of the telemetry frame of a lap.  The frame carries the default
    index [0 .. n-1], so a label ([series[i]]) and a position
    ([series.iloc[i]], [series[a:b]]) denote the same row. *)
Record Sample : Type := {
  Distance : Q;
  Speed : Q;
  Throttle : Q;
  Brake : Q;
  nGear : Z
}.

(** A dict literal. *)
Definition dict (items : list (string * cell)) : gmap string cell :=
  list_to_map items.

(** *** [analyze_cornering_performance] *)

(** The variables of the corner loop. *)
Record corner_vars : Type := {
  in_corner : bool;
  corner_start : option nat;
  corners : list (gmap string cell)
}.

(** The body of [for i, diff in enumerate(speed_diff)].  [None] is an
    exception (a label that is not in the frame), which the method turns
    into the result [None]. *)
Definition corner_body (telemetry : list Sample) (v : corner_vars)
    (i : nat) (d : option Q) : option corner_vars :=
  if lt_float d (-10) && negb (in_corner v) then
    Some {| in_corner := true; corner_start := Some i; corners := corners v |}
  else if gt_float d 5 && in_corner v then
    match corner_start v with
    | Some cs =>
      entry ← (Speed <$> telemetry) !! cs;
      exit ← (Speed <$> telemetry) !! i;
      dist ← (Distance <$> telemetry) !! cs;
      Some {| in_corner := false; corner_start := corner_start v;
              corners := corners v ++
                [dict [("start", Int (Z.of_nat cs));
                       ("end", Int (Z.of_nat i));
                       ("min_speed",
                        series_min (slice cs i (Speed <$> telemetry)));
                       ("entry_speed", Float entry);
                       ("exit_speed", Float exit);
                       ("distance", Float dist)]] |}
    | None =>
      Some {| in_corner := false; corner_start := None; corners := corners v |}
    end
  else Some v.

Fixpoint corner_loop (telemetry : list Sample) (v : corner_vars) (i : nat)
    (diffs : list (option Q)) : option corner_vars :=
  match diffs with
  | [] => Some v
  | d :: diffs' =>
    v' ← corner_body telemetry v i d;
    corner_loop telemetry v' (S i) diffs'
  end.

(** The ['corners'] entry of the result of [analyze_cornering_performance]
    for the telemetry of the driver's fastest lap. *)
Definition analyze_cornering_performance (telemetry : list Sample)
  : option (list (gmap string cell)) :=
  let speed_diff := diff (Speed <$> telemetry) in
  corners <$> corner_loop telemetry
    {| in_corner := false; corner_start := None; corners := [] |} 0 speed_diff.

(** *** [analyze_braking_points] *)

Definition brake_threshold : Q := 50.

Record braking_vars : Type := {
  in_braking : bool;
  brake_start : option nat;
  braking_zones : list (gmap string cell)
}.

(** The body of [for i, brake in enumerate(telemetry['Brake'])]. *)
Definition braking_body (telemetry : list Sample) (v : braking_vars)
    (i : nat) (brake : Q) : option braking_vars :=
  if Qltb brake_threshold brake && negb (in_braking v) then
    Some {| in_braking := true; brake_start := Some i;
            braking_zones := braking_zones v |}
  else if Qle_bool brake brake_threshold && in_braking v then
    match brake_start v with
    | Some bs =>
      d0 ← (Distance <$> telemetry) !! bs;
      d1 ← (Distance <$> telemetry) !! i;
      s0 ← (Speed <$> telemetry) !! bs;
      s1 ← (Speed <$> telemetry) !! i;
      Some {| in_braking := false; brake_start := brake_start v;
              braking_zones := braking_zones v ++
                [dict [("start_distance", Float d0);
                       ("end_distance", Float d1);
                       ("start_speed", Float s0);
                       ("end_speed", Float s1);
                       ("max_brake_pressure",
                        series_max (slice bs i (Brake <$> telemetry)));
                       ("braking_distance", Float (d1 - d0)%Q)]] |}
    | None =>
      Some {| in_braking := false; brake_start := None;
              braking_zones := braking_zones v |}
    end
  else Some v.

Fixpoint braking_loop (telemetry : list Sample) (v : braking_vars) (i : nat)
    (brakes : list Q) : option braking_vars :=
  match brakes with
  | [] => Some v
  | b :: brakes' =>
    v' ← braking_body telemetry v i b;
    braking_loop telemetry v' (S i) brakes'
  end.

(** The ['braking_zones'] entry of the result of [analyze_braking_points]. *)
Definition analyze_braking_points (telemetry : list Sample)
  : option (list (gmap string cell)) :=
  braking_zones <$> braking_loop telemetry
    {| in_braking := false; brake_start := None; braking_zones := [] |} 0
    (Brake <$> telemetry).

(** *** The segmenter of the specification

    A two-state machine over the first differences of the speed: it is
    driven by [speed[i] - speed[i-1]] for [i ≥ 1] and emits the interval
    [(start, end)] when it leaves [INSIDE]. *)

Inductive seg_state : Type :=
| OUTSIDE
| INSIDE (start : nat).

Fixpoint machine (st : seg_state) (i : nat) (prev : Q) (rest : list Q)
  : seg_state * list (nat * nat) :=
  match rest with
  | [] => (st, [])
  | cur :: rest' =>
    let delta := (cur - prev)%Q in
    match st with
    | OUTSIDE =>
      if Qltb delta (-10) then machine (INSIDE i) (S i) cur rest'
      else machine OUTSIDE (S i) cur rest'
    | INSIDE start =>
      if Qltb 5 delta then
        let '(final, evs) := machine OUTSIDE (S i) cur rest' in
        (final, (start, i) :: evs)
      else machine (INSIDE start) (S i) cur rest'
    end
  end.

Definition detect_corners (speed : list Q) : seg_state * list (nat * nat) :=
  match speed with
  | [] => (OUTSIDE, [])
  | x :: rest => machine OUTSIDE 1 x rest
  end.

(** The corner dict [ev] describes the interval [(start, end)] of the lap
    as the specification requires: [min_speed] is the least speed over
    [start ≤ j < end], [entry_speed] the speed at [start], [exit_speed] the
    speed at [end]. *)
Definition corner_event_of (telemetry : list Sample) (ev : gmap string cell)
    (seg : nat * nat) : Prop :=
  let '(s, e) := seg in
  ∃ m entry exit dist,
    ev = dict [("start", Int (Z.of_nat s));
               ("end", Int (Z.of_nat e));
               ("min_speed", Float m);
               ("entry_speed", Float entry);
               ("exit_speed", Float exit);
               ("distance", Float dist)] ∧
    is_minimum m (slice s e (Speed <$> telemetry)) ∧
    (Speed <$> telemetry) !! s = Some entry ∧
    (Speed <$> telemetry) !! e = Some exit ∧
    (Distance <$> telemetry) !! s = Some dist.

(** How the variables of the corner loop represent a machine state. *)
Definition represents (v : corner_vars) (st : seg_state) : Prop :=
  match st with
  | OUTSIDE => in_corner v = false
  | INSIDE s => in_corner v = true ∧ corner_start v = Some s
  end.

(** The braking-zone dict [ev] describes the rows [start ≤ j < end]. *)
Definition braking_zone_of (telemetry : list Sample) (ev : gmap string cell)
    (seg : nat * nat) : Prop :=
  let '(s, e) := seg in
  ∃ d0 d1 s0 s1 mx,
    ev = dict [("start_distance", Float d0);
               ("end_distance", Float d1);
               ("start_speed", Float s0);
               ("end_speed", Float s1);
               ("max_brake_pressure", Float mx);
               ("braking_distance", Float (d1 - d0)%Q)] ∧
    (Distance <$> telemetry) !! s = Some d0 ∧
    (Distance <$> telemetry) !! e = Some d1 ∧
    (Speed <$> telemetry) !! s = Some s0 ∧
    (Speed <$> telemetry) !! e = Some s1 ∧
    is_maximum mx (slice s e (Brake <$> telemetry)).

(** The distance column never decreases along the lap. *)
Fixpoint nondecreasing (xs : list Q) : bool :=
  match xs with
  | [] => true
  | x :: xs' =>
    match xs' with
    | [] => true
    | y :: _ => Qle_bool x y && nondecreasing xs'
    end
  end.

(** The dict has an entry under one of the given names. *)
Definition carries (ev : gmap string cell) (names : list string) : Prop :=
  Exists (λ k, is_Some (ev !! k)) names.

(** The common shape the specification gives to corner and braking-zone
    events, whatever the two analyzers call the fields. *)
Definition segment_event_shape (ev : gmap string cell) : Prop :=
  carries ev ["start_index"; "start"] ∧
  carries ev ["end_index"; "end"] ∧
  carries ev ["start_distance"; "distance"] ∧
  carries ev ["end_distance"] ∧
  carries ev ["entry_speed"; "start_speed"] ∧
  carries ev ["exit_speed"; "end_speed"] ∧
  carries ev ["min_speed"; "max_brake"; "max_brake_pressure"].

(** *** A sample lap: braking from 310 km/h into a slow corner. *)

Definition sample_row (dist speed brake : Z) : Sample :=
  {| Distance := inject_Z dist; Speed := inject_Z speed; Throttle := 0;
     Brake := inject_Z brake; nGear := 4 |}.

Definition sample_lap : list Sample :=
  [sample_row 0 300 0; sample_row 80 310 0; sample_row 160 295 80;
   sample_row 230 250 100; sample_row 290 200 100; sample_row 340 150 90;
   sample_row 380 140 60; sample_row 420 150 20; sample_row 470 200 0;
   sample_row 540 260 0; sample_row 620 300 0].

(** The one corner and the one braking zone of the sample lap. *)
Definition sample_corner : gmap string cell :=
  dict [("start", Int 2); ("end", Int 7); ("min_speed", Float 140);
        ("entry_speed", Float 295); ("exit_speed", Float 150);
        ("distance", Float 160)].

Definition sample_zone : gmap string cell :=
  dict [("start_distance", Float 160); ("end_distance", Float 420);
        ("start_speed", Float 295); ("end_speed", Float 150);
        ("max_brake_pressure", Float 100);
        ("braking_distance", Float (420 - 160)%Q)].

End Telemetry.

(** *** Where segments begin and end *)

Module Segments.
Import Pandas Telemetry.

(** The speed falls by more than 10 from row [i - 1] to row [i]. *)
Definition drop_at (speed : list Q) (i : nat) : Prop :=
  ∃ x y, (1 ≤ i)%nat ∧ speed !! (i - 1)%nat = Some x ∧ speed !! i = Some y ∧
         (y - x < -10)%Q.

(** The speed rises by more than 5 from row [i - 1] to row [i]. *)
Definition rise_at (speed : list Q) (i : nat) : Prop :=
  ∃ x y, (1 ≤ i)%nat ∧ speed !! (i - 1)%nat = Some x ∧ speed !! i = Some y ∧
         (5 < y - x)%Q.

(** The first interval ends before the second begins. *)
Definition apart (a b : nat * nat) : Prop := (a.2 < b.1)%nat.

(** The brake is above the threshold on every row of the interval and not
    above it on the row that ends it. *)
Definition pressed (brakes : list Q) (seg : nat * nat) : Prop :=
  (∀ j b, (seg.1 ≤ j < seg.2)%nat → brakes !! j = Some b →
          (brake_threshold < b)%Q) ∧
  ∃ b, brakes !! seg.2 = Some b ∧ (b <= brake_threshold)%Q.

(** A lap with two braking zones and two corners. *)
Definition two_corner_lap : list Sample :=
  [sample_row 0 300 0; sample_row 80 280 90; sample_row 150 200 100;
   sample_row 200 210 10; sample_row 260 260 0; sample_row 330 240 70;
   sample_row 390 180 80; sample_row 440 190 0; sample_row 500 220 0].

End Segments.

(** ** advanced_analyzer.py and main.py: lap statistics *)

Module Stats.
Import Pandas.

(** One row of [session.laps].  [LapTime = None] is pandas' NaT, a missing
    lap time; [Compound = None] is a missing compound. *)
Record Lap : Type := {
  Driver : string;
  LapNumber : Z;
  LapTime : option Q;
  Compound : option string
}.

(** [laps[laps['Driver'] == driver]] *)
Definition of_driver (driver : string) (laps : list Lap) : list Lap :=
  List.filter (λ l, String.eqb (Driver l) driver) laps.

(** [laps.dropna(subset=['LapTime'])] *)
Definition dropna (laps : list Lap) : list Lap :=
  List.filter (λ l, match LapTime l with Some _ => true | None => false end)
    laps.

(** [laps['LapTime'].dt.total_seconds()] of rows without a missing time. *)
Definition total_seconds (laps : list Lap) : list Q := omap LapTime laps.

(** *** [generate_race_pace_analysis] *)

Record PaceRow : Type := {
  average_pace : cell;
  consistency : cell;
  fastest_lap : cell;
  total_laps : nat;
  clean_laps : nat
}.

(** The boolean mask
    [(lap_times >= Q1 - 1.5 * IQR) & (lap_times <= Q3 + 1.5 * IQR)];
    a comparison with NaN is false. *)
Definition fence_mask (q1 q3 : option Q) (t : Q) : bool :=
  match q1, q3 with
  | Some Q1, Some Q3 =>
    let IQR := (Q3 - Q1)%Q in
    Qle_bool (Q1 - (3 # 2) * IQR) t && Qle_bool t (Q3 + (3 # 2) * IQR)
  | _, _ => false
  end.

(** The body of [for driver in laps['Driver'].unique()]; [None] is
    [continue]. *)
Definition pace_of_driver (laps : list Lap) (driver : string)
  : option PaceRow :=
  let driver_laps := dropna (of_driver driver laps) in
  if decide (length driver_laps < 5)%nat then None
  else
    let lap_times := total_seconds driver_laps in
    let Q1 := quantile (1 # 4) lap_times in
    let Q3 := quantile (3 # 4) lap_times in
    let clean_times := List.filter (fence_mask Q1 Q3) lap_times in
    Some {| average_pace := mean clean_times;
            consistency := std clean_times;
            fastest_lap := series_min lap_times;
            total_laps := length driver_laps;
            clean_laps := length clean_times |}.

Fixpoint pace_loop (laps : list Lap) (drivers : list string)
    (pace_analysis : gmap string PaceRow) : gmap string PaceRow :=
  match drivers with
  | [] => pace_analysis
  | driver :: drivers' =>
    match pace_of_driver laps driver with
    | None => pace_loop laps drivers' pace_analysis
    | Some row => pace_loop laps drivers' (<[driver := row]> pace_analysis)
    end
  end.

Definition generate_race_pace_analysis (laps : list Lap)
  : gmap string PaceRow :=
  pace_loop laps (unique (Driver <$> laps)) ∅.

(** *** [analyze_pit_stop_performance] *)

(** A row of the data frame of pit stops.  [compound_before = None] is
    Python's [None]; [Some c] is the cell of the previous lap. *)
Record PitStop : Type := {
  ps_driver : string;
  lap_number : Z;
  pit_time : Q;
  compound_before : option (option string);
  compound_after : option string
}.

(** The inner loop [for _, lap in driver_laps.iterrows()]. *)
Definition pit_stops_in (driver : string) (median_time : Q)
    (driver_laps : list Lap) : list PitStop :=
  omap (λ lap,
    lap_time ← LapTime lap;
    if Qltb (median_time * (3 # 2)) lap_time then
      Some {| ps_driver := driver;
              lap_number := LapNumber lap;
              pit_time := (lap_time - median_time)%Q;
              compound_before :=
                Compound <$>
                  head (List.filter
                          (λ p, LapNumber p =? LapNumber lap - 1)
                          driver_laps);
              compound_after := Compound lap |}
    else None) driver_laps.

(** The body of the loop over the drivers. *)
Definition pit_stops_of_driver (laps : list Lap) (driver : string)
  : list PitStop :=
  let driver_laps := dropna (of_driver driver laps) in
  if decide (length driver_laps < 3)%nat then []
  else
    match median (total_seconds driver_laps) with
    | Some median_time => pit_stops_in driver median_time driver_laps
    | None => []
    end.

Definition analyze_pit_stop_performance (laps : list Lap) : list PitStop :=
  mbind (pit_stops_of_driver laps) (unique (Driver <$> laps)).

(** *** [F1PerformanceAnalyzer._calculate_degradation] (main.py) *)

(** [np.polyfit(x, y, 1)[0]]: the slope of the least-squares line.  A NaN
    among the [y] either comes back as a NaN slope or makes the solver
    raise LinAlgError, depending on the LAPACK build; [nan_raises] selects
    which.  Lap numbers that are all equal (a rank-deficient system) are
    outside the model. *)
Inductive fit : Type :=
| Slope (a : Q)
| SlopeNaN
| LinAlgError.

Definition lstsq_slope (x y : list Q) : Q :=
  let n := count x in
  let sxy := sum (zip_with Qmult x y) in
  let sxx := sum (zip_with Qmult x x) in
  ((n * sxy - sum x * sum y) / (n * sxx - sum x * sum x))%Q.

Definition polyfit_slope (nan_raises : bool) (x : list Q)
    (y : list (option Q)) : fit :=
  match mapM id y with
  | Some ys => Slope (lstsq_slope x ys)
  | None => if nan_raises then LinAlgError else SlopeNaN
  end.

(** [DataFrame.sort_values('LapNumber')] *)
Fixpoint insert_lap (l : Lap) (ls : list Lap) : list Lap :=
  match ls with
  | [] => [l]
  | l' :: ls' =>
    if LapNumber l <=? LapNumber l' then l :: ls else l' :: insert_lap l ls'
  end.
Fixpoint sort_by_lap_number (ls : list Lap) : list Lap :=
  match ls with
  | [] => []
  | l :: ls' => insert_lap l (sort_by_lap_number ls')
  end.

(** The loop over the drivers; [None] is an exception. *)
Fixpoint degradation_loop (nan_raises : bool) (laps : list Lap)
    (drivers : list string) (degradation_rates : list (option Q))
  : option (list (option Q)) :=
  match drivers with
  | [] => Some degradation_rates
  | driver :: drivers' =>
    let driver_laps := sort_by_lap_number (of_driver driver laps) in
    if decide (3 ≤ length driver_laps)%nat then
      let lap_times := LapTime <$> driver_laps in
      let lap_numbers := (λ l, inject_Z (LapNumber l)) <$> driver_laps in
      match polyfit_slope nan_raises lap_numbers lap_times with
      | Slope a =>
        degradation_loop nan_raises laps drivers' (degradation_rates ++ [Some a])
      | SlopeNaN =>
        degradation_loop nan_raises laps drivers' (degradation_rates ++ [None])
      | LinAlgError => None
      end
    else degradation_loop nan_raises laps drivers' degradation_rates
  end.

(** [np.mean] of floats, NaN as soon as one of them is NaN. *)
Definition np_mean (xs : list (option Q)) : cell :=
  match mapM id xs with
  | Some ys => mean ys
  | None => NaN
  end.

Definition _calculate_degradation (nan_raises : bool) (laps : list Lap)
  : cell :=
  if decide (length laps < 3)%nat then Float 0
  else
    match degradation_loop nan_raises laps (unique (Driver <$> laps)) [] with
    | Some [] => Float 0
    | Some degradation_rates => np_mean degradation_rates
    | None => Float 0
    end.

(** [laps[laps['Compound'] == compound]] *)
Definition of_compound (compound : string) (laps : list Lap) : list Lap :=
  List.filter
    (λ l, match Compound l with
          | Some c => String.eqb c compound
          | None => false
          end) laps.

(** The ['average_degradation'] entries of [analyze_tire_performance]. *)
Definition analyze_tire_performance (nan_raises : bool) (laps : list Lap)
  : gmap string cell :=
  list_to_map
    ((λ compound,
        (compound, _calculate_degradation nan_raises (of_compound compound laps)))
       <$> unique (omap Compound laps)).

(** The valid laps of a driver: the rows that enter the statistics. *)
Definition valid_laps (driver : string) (laps : list Lap) : list Lap :=
  dropna (of_driver driver laps).


(** The closed interval [[Q1 - 1.5 IQR, Q3 + 1.5 IQR]] of Tukey's fences. *)
Definition in_fence (q1 q3 t : Q) : Prop :=
  (q1 - (3 # 2) * (q3 - q1) <= t)%Q ∧ (t <= q3 + (3 # 2) * (q3 - q1))%Q.

Global Instance in_fence_dec (q1 q3 t : Q) : Decision (in_fence q1 q3 t) :=
  and_dec _ _.

(** The residuals of the line [a * x + b] on the points [(x, y)], and the
    intercept that goes with the fitted slope. *)
Definition residuals (a b : Q) (x y : list Q) : list Q :=
  zip_with (λ xi yi, a * xi + b - yi)%Q x y.
Definition lstsq_intercept (x y : list Q) : Q :=
  ((sum y - lstsq_slope x y * sum x) / count x)%Q.


(** *** Sample sessions *)

Definition lap (driver : string) (n : Z) (seconds : option Z) (c : string)
  : Lap :=
  {| Driver := driver; LapNumber := n; LapTime := inject_Z <$> seconds;
     Compound := Some c |}.

(** Laps [90, 90, 90, 90, 140] of one driver, the tyres changed on lap 5. *)
Definition pit_session : list Lap :=
  [lap "HAM" 1 (Some 90) "MEDIUM"; lap "HAM" 2 (Some 90) "MEDIUM";
   lap "HAM" 3 (Some 90) "MEDIUM"; lap "HAM" 4 (Some 90) "MEDIUM";
   lap "HAM" 5 (Some 140) "HARD"].

(** Six timed laps with one slow outlier and one lap without a time, and a
    second driver with too few laps. *)
Definition pace_session : list Lap :=
  [lap "VER" 1 (Some 91) "SOFT"; lap "VER" 2 (Some 90) "SOFT";
   lap "NOR" 1 (Some 92) "SOFT";
   lap "VER" 3 None "SOFT"; lap "VER" 4 (Some 92) "SOFT";
   lap "VER" 5 (Some 120) "SOFT"; lap "VER" 6 (Some 91) "SOFT";
   lap "VER" 7 (Some 90) "SOFT"].

(** Laps [80, 81, 82, 83] and [83, 82, 81, 80] on one compound each. *)
Definition rising_session : list Lap :=
  [lap "LEC" 1 (Some 80) "HARD"; lap "LEC" 2 (Some 81) "HARD";
   lap "LEC" 3 (Some 82) "HARD"; lap "LEC" 4 (Some 83) "HARD"].
Definition falling_session : list Lap :=
  [lap "LEC" 1 (Some 83) "HARD"; lap "LEC" 2 (Some 82) "HARD";
   lap "LEC" 3 (Some 81) "HARD"; lap "LEC" 4 (Some 80) "HARD"].

(** One driver, two separate stints on SOFT (laps 1-3 and 7-9) around a
    stint on MEDIUM; each SOFT stint gets slower by one second per lap. *)
Definition two_stint_session : list Lap :=
  [lap "HAM" 1 (Some 80) "SOFT"; lap "HAM" 2 (Some 81) "SOFT";
   lap "HAM" 3 (Some 82) "SOFT";
   lap "HAM" 4 (Some 85) "MEDIUM"; lap "HAM" 5 (Some 85) "MEDIUM";
   lap "HAM" 6 (Some 85) "MEDIUM";
   lap "HAM" 7 (Some 80) "SOFT"; lap "HAM" 8 (Some 81) "SOFT";
   lap "HAM" 9 (Some 82) "SOFT"].

(** One stint of four laps, the second without a lap time. *)
Definition missing_time_session : list Lap :=
  [lap "SAI" 1 (Some 80) "SOFT"; lap "SAI" 2 None "SOFT";
   lap "SAI" 3 (Some 82) "SOFT"; lap "SAI" 4 (Some 83) "SOFT"].

End Stats.

(** ** advanced_analyzer.py and main.py: weather impact, tyre rows, replay *)

Module Session.
Import Pandas Stats.

(** The strict order of the rationals is decidable. *)
Global Instance Qlt_decision : RelDecision Qlt :=
  λ x y, match Qlt_le_dec x y with
         | left H => left H
         | right H => right (Qle_not_lt _ _ H)
         end.

(** *** [AdvancedF1Analyzer.get_weather_impact] *)

(** One row of [session.weather_data]. *)
Record WeatherSample : Type := {
  Time : Q;
  AirTemp : Q;
  TrackTemp : Q;
  Humidity : Q;
  WindSpeed : Q;
  Rainfall : bool
}.

(** A lap together with its ['Time'] column, the session time at which the
    lap was completed ([None] is NaT). *)
Record TimedLap : Type := {
  lap_row : Lap;
  lap_Time : option Q
}.

(** [weather[weather['Time'] <= lap_time]]; a comparison with NaT is
    false. *)
Definition not_after (lap_time : option Q) (weather : list WeatherSample)
  : list WeatherSample :=
  List.filter (λ w, match lap_time with
                    | Some t => Qle_bool (Time w) t
                    | None => false
                    end) weather.

(** The weather point of a lap: the last row not after the lap, else the
    first row of the frame; [None] is the IndexError of [iloc[0]] on an
    empty frame. *)
Definition weather_point (weather : list WeatherSample) (lap_time : option Q)
  : option WeatherSample :=
  if (0 <? length (not_after lap_time weather))%nat
  then last (not_after lap_time weather)
  else head weather.

(** One dict of [weather_analysis]. *)
Record ImpactRow : Type := {
  wi_driver : string;
  wi_lap_number : Z;
  wi_lap_time : option Q;
  wi_air_temp : Q;
  wi_track_temp : Q;
  wi_humidity : Q;
  wi_wind_speed : Q;
  wi_rainfall : bool
}.

Definition impact_row (lap : TimedLap) (w : WeatherSample) : ImpactRow :=
  {| wi_driver := Driver (lap_row lap);
     wi_lap_number := LapNumber (lap_row lap);
     wi_lap_time := LapTime (lap_row lap);
     wi_air_temp := AirTemp w;
     wi_track_temp := TrackTemp w;
     wi_humidity := Humidity w;
     wi_wind_speed := WindSpeed w;
     wi_rainfall := Rainfall w |}.

(** [get_weather_impact] on a loaded session; [None] is the result [None]
    of the [except] branch. *)
Definition get_weather_impact (weather : list WeatherSample)
    (laps : list TimedLap) : option (list ImpactRow) :=
  mapM (λ lap, impact_row lap <$> weather_point weather (lap_Time lap)) laps.

(** *** The rows of [F1PerformanceAnalyzer.analyze_tire_performance] *)

Record TireRow : Type := {
  average_lap_time : cell;
  fastest_lap_time : cell;
  tr_total_laps : nat;
  average_degradation : cell
}.

(** The dict built for one compound; [mean] and [min] skip missing lap
    times, [len] does not. *)
Definition tire_row (nan_raises : bool) (laps : list Lap) (compound : string)
  : TireRow :=
  let compound_laps := of_compound compound laps in
  {| average_lap_time := mean (total_seconds compound_laps);
     fastest_lap_time := series_min (total_seconds compound_laps);
     tr_total_laps := length compound_laps;
     average_degradation := _calculate_degradation nan_raises compound_laps |}.

Definition tire_analysis (nan_raises : bool) (laps : list Lap)
  : gmap string TireRow :=
  list_to_map ((λ compound, (compound, tire_row nan_raises laps compound))
                 <$> unique (omap Compound laps)).



(** *** [F1PerformanceAnalyzer.monitor_live_session] *)

(** One pass of the replay loop: the numbers printed in the header, the
    batch [all_laps.iloc[processed:processed + batch_size]], and the laps
    handed to [_get_current_standings] when the standings are shown. *)
Record LiveUpdate : Type := {
  first_lap : nat;
  last_lap : nat;
  current_laps : list Lap;
  standings_of : option (list Lap)
}.

(** The [while self.live_monitoring and processed_laps < len(all_laps)]
    loop over a finite prefix of passes; each element of [sleeps] tells
    whether [stop_live_monitoring] was called during the sleep of that
    pass. *)
Fixpoint replay_loop (all_laps : list Lap) (sleeps : list bool)
    (live_monitoring : bool) (processed_laps : nat) (out : list LiveUpdate)
  : nat * list LiveUpdate :=
  match sleeps with
  | [] => (processed_laps, out)
  | stop :: sleeps' =>
    if live_monitoring && (processed_laps <? length all_laps)%nat then
      let batch_size := Nat.min 5 (length all_laps - processed_laps) in
      let update :=
        {| first_lap := processed_laps + 1;
           last_lap := processed_laps + batch_size;
           current_laps := slice processed_laps
                             (processed_laps + batch_size) all_laps;
           standings_of :=
             if (10 <? processed_laps)%nat
             then Some (take (processed_laps + batch_size) all_laps)
             else None |} in
      replay_loop all_laps sleeps' (negb stop)
        (processed_laps + batch_size) (out ++ [update])
    else (processed_laps, out)
  end.

(** [monitor_live_session] once the session is loaded. *)
Definition monitor_live_session (all_laps : list Lap) (sleeps : list bool)
  : nat * list LiveUpdate :=
  replay_loop all_laps sleeps true 0 [].

(** *** Sample data *)

Definition weather_at (t temp : Z) : WeatherSample :=
  {| Time := inject_Z t; AirTemp := inject_Z temp;
     TrackTemp := inject_Z temp + 10; Humidity := 50; WindSpeed := 3;
     Rainfall := false |}.

Definition sample_weather_frame : list WeatherSample :=
  [weather_at 60 20; weather_at 120 21; weather_at 180 22].

Definition timed (l : Lap) (t : Z) : TimedLap :=
  {| lap_row := l; lap_Time := Some (inject_Z t) |}.

Definition sample_timed_laps : list TimedLap :=
  [timed (lap "VER" 1 (Some 91) "SOFT") 30;
   timed (lap "VER" 2 (Some 90) "SOFT") 125;
   timed (lap "VER" 3 (Some 92) "SOFT") 300].

End Session.

(** * Properties *)

(** ** Facts about the Python helpers *)

Module PyFacts.
Import Py.

Lemma compare_refl (s : string) : (s ?= s)%string = Eq.
Proof.
  induction s as [|a s IH]; simpl; [done|].
  unfold Ascii.compare. by rewrite N.compare_refl.
Qed.

Lemma ltb_le (a b : string) : String.ltb a b = true → String.le a b.
Proof.
  unfold String.le, String.ltb, String.leb.
  destruct (a ?= b)%string; simpl; intros; done || discriminate.
Qed.

Lemma ltb_false_le (a b : string) : String.ltb a b = false → String.le b a.
Proof.
  unfold String.le, String.ltb, String.leb.
  rewrite (String.compare_antisym a b).
  destruct (b ?= a)%string; simpl; intros; done || discriminate.
Qed.

Lemma ltb_irrefl (a : string) : String.ltb a a = false.
Proof. unfold String.ltb. by rewrite compare_refl. Qed.

Lemma ltb_iff (a b : string) :
  String.ltb a b = true ↔ String.le a b ∧ a ≠ b.
Proof.
  split.
  - intros H. split; [by apply ltb_le|].
    intros ->. by rewrite ltb_irrefl in H.
  - intros [Hle Hne]. unfold String.le, String.ltb, String.leb in *.
    destruct (a ?= b)%string eqn:E; [|done..].
    by apply String.compare_eq_iff in E.
Qed.

Lemma ltb_not_le (a b : string) : String.ltb a b = true → ¬ String.le b a.
Proof.
  intros [Hle Hne]%ltb_iff Hba. apply Hne. by apply (anti_symm String.le).
Qed.

Lemma ltb_le_trans (a b c : string) :
  String.ltb a b = true → String.le b c → String.ltb a c = true.
Proof.
  intros Hab Hbc. apply ltb_iff. split.
  - trans b; [by apply ltb_le|done].
  - intros ->. by apply (ltb_not_le _ _ Hab).
Qed.

Lemma ltb_trans (a b c : string) :
  String.ltb a b = true → String.ltb b c = true → String.ltb a c = true.
Proof. intros Hab Hbc. eapply ltb_le_trans; [done|by apply ltb_le]. Qed.

Lemma str_min_from_spec (l : list string) : ∀ cur,
  min_from cur l ∈ cur :: l ∧
  String.le (min_from cur l) cur ∧
  ∀ x, x ∈ l → String.le (min_from cur l) x.
Proof.
  induction l as [|y l IH]; intros cur; simpl.
  - split; [by left|]. split; [done|]. intros x Hx. by inversion Hx.
  - destruct (IH (if String.ltb y cur then y else cur)) as (Hin & Hle & Hall).
    destruct (String.ltb y cur) eqn:E.
    + split; [by apply elem_of_cons; right|]. split.
      * trans y; [done|by apply ltb_le].
      * intros x [->|Hx]%elem_of_cons; auto.
    + split.
      { apply elem_of_cons in Hin as [Hin|Hin];
          [rewrite Hin; by left|by do 2 right]. }
      split; [done|].
      intros x [->|Hx]%elem_of_cons; auto.
      trans cur; [done|by apply ltb_false_le].
Qed.

Lemma min_spec (l : list string) (k : string) :
  Py.min l = Some k → k ∈ l ∧ ∀ x, x ∈ l → String.le k x.
Proof.
  destruct l as [|y l]; simpl; [done|].
  intros [= <-]. destruct (str_min_from_spec l y) as (Hin & Hle & Hall).
  split; [done|]. intros x [->|Hx]%elem_of_cons; auto.
Qed.

Lemma min_is_Some (l : list string) : l ≠ [] → is_Some (Py.min l).
Proof. destruct l; [done|]. simpl. eauto. Qed.

Lemma str_max_from_spec (l : list string) : ∀ cur,
  max_from cur l ∈ cur :: l ∧
  String.le cur (max_from cur l) ∧
  ∀ x, x ∈ l → String.le x (max_from cur l).
Proof.
  induction l as [|y l IH]; intros cur; simpl.
  - split; [by left|]. split; [done|]. intros x Hx. by inversion Hx.
  - destruct (IH (if String.ltb cur y then y else cur)) as (Hin & Hle & Hall).
    destruct (String.ltb cur y) eqn:E.
    + split; [by apply elem_of_cons; right|]. split.
      * trans y; [by apply ltb_le|done].
      * intros x [->|Hx]%elem_of_cons; auto.
    + split.
      { apply elem_of_cons in Hin as [Hin|Hin];
          [rewrite Hin; by left|by do 2 right]. }
      split; [done|].
      intros x [->|Hx]%elem_of_cons; auto.
      trans cur; [by apply ltb_false_le|done].
Qed.

Lemma max_spec (l : list string) (k : string) :
  Py.max l = Some k → k ∈ l ∧ ∀ x, x ∈ l → String.le x k.
Proof.
  destruct l as [|y l]; simpl; [done|].
  intros [= <-]. destruct (str_max_from_spec l y) as (Hin & Hle & Hall).
  split; [done|]. intros x [->|Hx]%elem_of_cons; auto.
Qed.

Lemma elem_of_keys {V} (d : gmap string V) (k : string) :
  k ∈ keys d ↔ k ∈ dom d.
Proof.
  unfold keys. rewrite elem_of_dom. rewrite list_elem_of_fmap. split.
  - intros [[k' v] [-> Hin]]. apply elem_of_map_to_list in Hin. eauto.
  - intros [v Hv]. exists (k, v). split; [done|].
    by apply elem_of_map_to_list.
Qed.

Lemma length_keys {V} (d : gmap string V) : length (keys d) = size d.
Proof. unfold keys. by rewrite length_fmap, length_map_to_list. Qed.

Lemma NoDup_keys {V} (d : gmap string V) : NoDup (keys d).
Proof. apply NoDup_fst_map_to_list. Qed.


Lemma sorted_perm (l : list string) : sorted l ≡ₚ l.
Proof. apply merge_sort_Permutation. Qed.

Lemma sorted_StronglySorted (l : list string) :
  StronglySorted String.le (sorted l).
Proof. apply StronglySorted_merge_sort; apply _. Qed.


Lemma elem_of_slice_from {A} (start : Z) (l : list A) (x : A) :
  x ∈ slice_from start l → x ∈ l.
Proof.
  unfold slice_from. intros H.
  eapply (subseteq_drop _ l). exact H.
Qed.

End PyFacts.

(** ** Facts about the pandas helpers *)

Module PandasFacts.
Import Pandas.

Lemma Qltb_lt (x y : Q) : Qltb x y = true ↔ (x < y)%Q.
Proof.
  unfold Qltb. rewrite negb_true_iff, <- not_true_iff_false, Qle_bool_iff.
  split; [apply Qnot_le_lt|apply Qlt_not_le].
Qed.

Lemma Qltb_ge (x y : Q) : Qltb x y = false ↔ (y <= x)%Q.
Proof. unfold Qltb. by rewrite negb_false_iff, Qle_bool_iff. Qed.

Lemma min_from_spec (xs : list Q) : ∀ cur,
  min_from cur xs ∈ cur :: xs ∧
  (min_from cur xs <= cur)%Q ∧
  ∀ x, x ∈ xs → (min_from cur xs <= x)%Q.
Proof.
  induction xs as [|y xs IH]; intros cur; simpl.
  - split; [by left|]. split; [apply Qle_refl|]. intros x Hx. by inversion Hx.
  - destruct (IH (if Qltb y cur then y else cur)) as (Hin & Hle & Hall).
    destruct (Qltb y cur) eqn:E.
    + apply Qltb_lt in E. split; [by right|]. split.
      * eapply Qle_trans; [exact Hle|by apply Qlt_le_weak].
      * intros x [->|Hx]%elem_of_cons; auto.
    + apply Qltb_ge in E. split.
      { apply elem_of_cons in Hin as [Hin|Hin];
          [rewrite Hin; by left|by do 2 right]. }
      split; [done|].
      intros x [->|Hx]%elem_of_cons; auto.
      eapply Qle_trans; [exact Hle|done].
Qed.

Lemma series_min_spec (xs : list Q) :
  xs ≠ [] → ∃ m, series_min xs = Float m ∧ is_minimum m xs.
Proof.
  destruct xs as [|x xs]; [done|]. intros _. simpl.
  destruct (min_from_spec xs x) as (Hin & Hle & Hall).
  eexists. split; [done|]. split; [done|].
  intros y [->|Hy]%elem_of_cons; auto.
Qed.

Lemma max_from_spec (xs : list Q) : ∀ cur,
  max_from cur xs ∈ cur :: xs ∧
  (cur <= max_from cur xs)%Q ∧
  ∀ x, x ∈ xs → (x <= max_from cur xs)%Q.
Proof.
  induction xs as [|y xs IH]; intros cur; simpl.
  - split; [by left|]. split; [apply Qle_refl|]. intros x Hx. by inversion Hx.
  - destruct (IH (if Qltb cur y then y else cur)) as (Hin & Hle & Hall).
    destruct (Qltb cur y) eqn:E.
    + apply Qltb_lt in E. split; [by right|]. split.
      * eapply Qle_trans; [by apply Qlt_le_weak|exact Hle].
      * intros x [->|Hx]%elem_of_cons; auto.
    + apply Qltb_ge in E. split.
      { apply elem_of_cons in Hin as [Hin|Hin];
          [rewrite Hin; by left|by do 2 right]. }
      split; [done|].
      intros x [->|Hx]%elem_of_cons; auto.
      eapply Qle_trans; [|exact Hle]. done.
Qed.

Lemma series_max_spec (xs : list Q) :
  xs ≠ [] → ∃ m, series_max xs = Float m ∧ is_maximum m xs.
Proof.
  destruct xs as [|x xs]; [done|]. intros _. simpl.
  destruct (max_from_spec xs x) as (Hin & Hle & Hall).
  eexists. split; [done|]. split; [done|].
  intros y [->|Hy]%elem_of_cons; auto.
Qed.

Lemma slice_nonempty {A} (a b : nat) (l : list A) :
  (a < b)%nat → (a < length l)%nat → slice a b l ≠ [].
Proof.
  intros Hab Hl Hnil. apply (f_equal length) in Hnil.
  unfold slice in Hnil. rewrite length_take, length_drop in Hnil.
  simpl in Hnil. lia.
Qed.

Lemma elem_of_filter_bool {A} (f : A → bool) (l : list A) (x : A) :
  x ∈ List.filter f l ↔ x ∈ l ∧ f x = true.
Proof. rewrite !list_elem_of_In. apply filter_In. Qed.

Lemma elem_of_unique (xs : list string) (x : string) :
  x ∈ unique xs ↔ x ∈ xs.
Proof.
  induction xs as [|y xs IH]; simpl; [done|].
  rewrite !elem_of_cons, elem_of_filter_bool, IH.
  destruct (String.eqb_spec y x) as [->|Hne]; simpl; [tauto|].
  split; [tauto|]. intros [->|?]; [done|]. by right.
Qed.

Lemma NoDup_unique (xs : list string) : NoDup (unique xs).
Proof.
  induction xs as [|y xs IH]; simpl; [constructor|].
  constructor.
  - rewrite elem_of_filter_bool. intros [_ H].
    by rewrite String.eqb_refl in H.
  - clear -IH. induction IH as [|z zs Hz Hzs IH']; simpl; [constructor|].
    destruct (negb (y =? z)%string); [|done].
    constructor; [|done]. rewrite elem_of_filter_bool. tauto.
Qed.

Lemma sorted_lookup_le (xs : list Q) :
  StronglySorted Qle xs →
  ∀ i j x y, (i < j)%nat → xs !! i = Some x → xs !! j = Some y → (x <= y)%Q.
Proof.
  induction 1 as [|a xs Hs IH Hall]; intros i j x y Hij Hi Hj; [done|].
  destruct j as [|j]; [lia|]. destruct i as [|i]; simpl in *.
  - simplify_eq. rewrite Forall_forall in Hall.
    apply Hall. by eapply list_elem_of_lookup_2.
  - apply (IH i j); [lia|done..].
Qed.

End PandasFacts.

(** ** The bounded live history *)

Module LiveProofs.
Import Py PyFacts Live.

Lemma least_key_unique {V} (k k' : string) (store : gmap string V) :
  least_key k store → least_key k' store → k = k'.
Proof. intros [? ?] [? ?]. apply (anti_symm String.le); auto. Qed.

Lemma min_keys_least {V} (store : gmap string V) :
  store ≠ ∅ → ∃ k, Py.min (keys store) = Some k ∧ least_key k store.
Proof.
  intros Hne.
  destruct (min_is_Some (keys store)) as [k Hk].
  { intros Hnil. apply Hne, map_size_empty_iff.
    by rewrite <- length_keys, Hnil. }
  exists k. split; [done|].
  apply min_spec in Hk as [Hin Hle]. split.
  - by apply elem_of_keys.
  - intros x Hx. by apply Hle, elem_of_keys.
Qed.

(** What one call of [_process_live_data] does to a monitor whose two
    stores have the same keys. *)
Lemma process_step (d : LiveData) (st : Monitor) (sd : SessionData) :
  session_data st = Some sd →
  dom (timing_data sd) = dom (weather_data sd) →
  let timing := <[timestamp d := drivers d]> (timing_data sd) in
  let weath := <[timestamp d := weather d]> (weather_data sd) in
  ((size timing ≤ 100)%nat ∧
   _process_live_data d st =
     Done (with_session st
             {| session_info := session_info sd; start_time := start_time sd;
                timing_data := timing; weather_data := weath;
                sd_track_status := track_status d |}) tt)
  ∨ ((100 < size timing)%nat ∧ ∃ k, least_key k timing ∧
     _process_live_data d st =
       Done (with_session st
               {| session_info := session_info sd; start_time := start_time sd;
                  timing_data := delete k timing;
                  weather_data := delete k weath;
                  sd_track_status := track_status d |}) tt).
Proof.
  intros Hsd Hdom timing weath.
  unfold _process_live_data. rewrite Hsd. fold timing weath.
  destruct (decide (100 < size timing)%nat) as [Hgt|Hle]; [right|left; split; [lia|done]].
  split; [done|].
  destruct (min_keys_least timing) as (k & Hmin & Hk).
  { intros Hem. rewrite Hem, map_size_empty in Hgt. lia. }
  exists k. split; [done|]. rewrite Hmin.
  assert (is_Some (weath !! k)) as [w Hw].
  { apply elem_of_dom. destruct Hk as [Hin _].
    unfold timing in Hin. unfold weath.
    rewrite dom_insert_L in Hin. by rewrite dom_insert_L, <- Hdom. }
  by rewrite Hw.
Qed.

Lemma started_consistent (info : string) (now : Q) (st : Monitor) :
  consistent (started info now st).
Proof.
  eexists. split; [reflexivity|]. simpl.
  split; [by rewrite !dom_empty_L|]. rewrite map_size_empty. lia.
Qed.

Lemma size_insert_le {V} (k : string) (v : V) (m : gmap string V) :
  (size (<[k:=v]> m) ≤ S (size m))%nat.
Proof.
  destruct (m !! k) eqn:E.
  - rewrite map_size_insert_Some; [lia|eauto].
  - rewrite map_size_insert_None; [lia|done].
Qed.

Lemma size_delete_least {V} (k : string) (m : gmap string V) :
  least_key k m → size (delete k m) = pred (size m).
Proof.
  intros [Hin%elem_of_dom _]. by rewrite map_size_delete_Some.
Qed.

Lemma process_consistent (d : LiveData) (st : Monitor) :
  consistent st →
  ∃ st', _process_live_data d st = Done st' tt ∧ consistent st'.
Proof.
  intros (sd & Hsd & Hdom & Hsz).
  pose proof (size_insert_le (timestamp d) (drivers d) (timing_data sd)) as Hins.
  destruct (process_step d st sd Hsd Hdom) as [[Hle ->]|[Hgt (k & Hk & ->)]];
    eexists; (split; [reflexivity|]); eexists; (split; [reflexivity|]); simpl.
  - split; [|done]. by rewrite !dom_insert_L, Hdom.
  - split.
    + by rewrite !dom_delete_L, !dom_insert_L, Hdom.
    + rewrite (size_delete_least k); [lia|done].
Qed.

Lemma process_all_consistent (l : list LiveData) : ∀ st,
  consistent st →
  ∃ st', process_all l st = Done st' tt ∧ consistent st'.
Proof.
  induction l as [|d l IH]; intros st Hst; simpl.
  - eauto.
  - destruct (process_consistent d st Hst) as (st1 & -> & Hst1). auto.
Qed.

Lemma process_all_app (l1 l2 : list LiveData) (st st1 : Monitor) :
  process_all l1 st = Done st1 tt →
  process_all (l1 ++ l2) st = process_all l2 st1.
Proof.
  revert st. induction l1 as [|d l1 IH]; intros st; simpl.
  - by intros [= ->].
  - destruct (_process_live_data d st) as [st' []|]; [auto|done].
Qed.

Global Instance slt_trans : Transitive slt.
Proof. intros a b c. apply ltb_trans. Qed.

Lemma increasing_Sorted (l : list string) :
  increasing l = true → Sorted slt l.
Proof.
  induction l as [|x l IH]; [constructor|].
  destruct l as [|y l]; [repeat constructor|].
  change (increasing (x :: y :: l)) with (String.ltb x y && increasing (y :: l)).
  intros [Hxy Hl]%andb_true_iff. constructor; [auto|by constructor].
Qed.

Lemma increasing_StronglySorted (l : list string) :
  increasing l = true → StronglySorted slt l.
Proof.
  intros H. apply (Sorted_StronglySorted slt). by apply increasing_Sorted.
Qed.

Lemma StronglySorted_slt_NoDup (l : list string) :
  StronglySorted slt l → NoDup l.
Proof.
  induction 1 as [|x l Hl IH Hall]; constructor; [|done].
  intros Hin. rewrite Forall_forall in Hall.
  specialize (Hall x Hin). unfold slt in Hall. by rewrite ltb_irrefl in Hall.
Qed.

Lemma most_recent_short {A} (n : nat) (l : list A) :
  (length l ≤ n)%nat → most_recent n l = l.
Proof.
  intros H. unfold most_recent.
  by replace (length l - n)%nat with 0%nat by lia.
Qed.

Lemma length_most_recent {A} (n : nat) (l : list A) :
  length (most_recent n l) = Nat.min (length l) n.
Proof. unfold most_recent. rewrite length_drop. lia. Qed.

Lemma most_recent_snoc_short {A} (n : nat) (l : list A) (x : A) :
  (length l < n)%nat → most_recent n (l ++ [x]) = most_recent n l ++ [x].
Proof.
  intros H. rewrite !most_recent_short; [done|lia|].
  rewrite length_app. simpl. lia.
Qed.

Lemma most_recent_snoc_full {A} (n : nat) (l : list A) (x : A) :
  (0 < n ≤ length l)%nat →
  ∃ y r, most_recent n l = y :: r ∧ most_recent n (l ++ [x]) = r ++ [x].
Proof.
  intros H. unfold most_recent.
  destruct (lookup_lt_is_Some_2 l (length l - n)) as [y Hy]; [lia|].
  exists y, (drop (S (length l - n)) l). split; [by apply drop_S|].
  rewrite length_app. simpl.
  replace (length l + 1 - n)%nat with (S (length l - n)) by lia.
  apply drop_app_le. lia.
Qed.

Lemma most_recent_suffix {A} (n : nat) (l : list A) :
  most_recent n l `suffix_of` l.
Proof. apply suffix_drop. Qed.

Lemma fst_snapshot_entries (l : list LiveData) :
  (snapshot_entry <$> l).*1 = timestamp <$> l.
Proof. rewrite <- list_fmap_compose. done. Qed.

Lemma fst_weather_entries (l : list LiveData) :
  (weather_entry <$> l).*1 = timestamp <$> l.
Proof. rewrite <- list_fmap_compose. done. Qed.

Section stores.
Context {V : Type} (f : LiveData → V).

Lemma fst_entries (l : list LiveData) : (entry_of f <$> l).*1 = timestamp <$> l.
Proof. rewrite <- list_fmap_compose. done. Qed.

Lemma store_append (r : list LiveData) (d : LiveData) :
  NoDup (timestamp <$> r ++ [d]) →
  <[timestamp d := f d]> (list_to_map (entry_of f <$> r))
  =@{gmap string V} list_to_map (entry_of f <$> r ++ [d]).
Proof.
  intros Hnd. rewrite fmap_app. simpl.
  change (entry_of f d) with (timestamp d, f d).
  rewrite list_to_map_snoc; [done|].
  rewrite fst_entries. rewrite fmap_app in Hnd.
  apply NoDup_app in Hnd as (_ & Hdisj & _).
  intros Hin. apply (Hdisj _ Hin). simpl. by left.
Qed.

Lemma store_evict (y : LiveData) (r : list LiveData) (d : LiveData) :
  NoDup (timestamp <$> y :: r ++ [d]) →
  delete (timestamp y)
    (<[timestamp d := f d]> (list_to_map (entry_of f <$> y :: r)))
  =@{gmap string V} list_to_map (entry_of f <$> r ++ [d]).
Proof.
  intros Hnd. rewrite fmap_cons in Hnd.
  apply NoDup_cons in Hnd as [Hy Hnd].
  rewrite <- (store_append r d Hnd).
  rewrite delete_insert_ne.
  - rewrite fmap_cons. change (entry_of f y) with (timestamp y, f y).
    rewrite list_to_map_cons. f_equal.
    apply delete_insert_id, not_elem_of_list_to_map.
    rewrite fst_entries. intros Hin. apply Hy.
    rewrite fmap_app. apply elem_of_app. by left.
  - intros Heq. apply Hy. rewrite fmap_app. apply elem_of_app. right.
    simpl. rewrite Heq. by left.
Qed.

Lemma store_size (r : list LiveData) :
  NoDup (timestamp <$> r) →
  size (list_to_map (entry_of f <$> r) : gmap string V) = length r.
Proof.
  intros Hnd. rewrite map_size_list_to_map; [by rewrite length_fmap|].
  by rewrite fst_entries.
Qed.

Lemma store_dom (r : list LiveData) :
  dom (list_to_map (entry_of f <$> r) : gmap string V)
  = list_to_set (timestamp <$> r).
Proof. by rewrite dom_list_to_map_L, fst_entries. Qed.
End stores.

Lemma with_session_twice (st : Monitor) (a b : SessionData) :
  with_session (with_session st a) b = with_session st b.
Proof. done. Qed.

Lemma sorted_suffix_snoc (l r : list LiveData) (d : LiveData) :
  StronglySorted slt (timestamp <$> l ++ [d]) →
  r `suffix_of` l →
  StronglySorted slt (timestamp <$> r ++ [d]).
Proof.
  intros Hs [p ->]. rewrite <- (assoc_L (++)), fmap_app in Hs.
  by apply StronglySorted_app_1_r in Hs.
Qed.

(** Polling snapshots with strictly increasing timestamps leaves exactly
    the 100 most recent ones in both stores. *)
Lemma process_all_sorted (info : string) (now : Q) (st0 : Monitor)
    (l : list LiveData) :
  StronglySorted slt (timestamp <$> l) →
  process_all l (started info now st0)
  = Done (with_session (started info now st0) (retained info now l)) tt.
Proof.
  induction l as [|d l IH] using rev_ind; intros Hs; [done|].
  assert (StronglySorted slt (timestamp <$> l)) as Hl.
  { rewrite fmap_app in Hs. by apply StronglySorted_app_1_l in Hs. }
  rewrite (process_all_app _ _ _ _ (IH Hl)). simpl.
  set (r := most_recent 100 l).
  assert (NoDup (timestamp <$> r ++ [d])) as Hnd.
  { apply StronglySorted_slt_NoDup, (sorted_suffix_snoc l); [done|].
    apply most_recent_suffix. }
  assert (size (<[timestamp d := drivers d]>
                  (timing_data (retained info now l))) = S (length r)) as Hsz.
  { unfold retained, snapshot_entry, weather_entry; simpl. fold r.
    rewrite (store_append drivers r d Hnd), (store_size drivers _ Hnd).
    rewrite length_app. simpl. lia. }
  pose proof (length_most_recent 100 l) as Hlen. fold r in Hlen.
  destruct (process_step d (with_session (started info now st0)
              (retained info now l)) (retained info now l)) as
      [[Hle ->]|[Hgt (k & Hk & ->)]]; [done| |f_equal..].
  - unfold retained, snapshot_entry, weather_entry; simpl. by rewrite !store_dom.
  - (* no eviction *)
    rewrite Hsz in Hle. rewrite with_session_twice. f_equal.
    unfold retained, snapshot_entry, weather_entry; simpl. fold r. rewrite last_snoc. simpl.
    rewrite most_recent_snoc_short by lia. fold r.
    by rewrite (store_append drivers), (store_append weather).
  - (* the oldest retained snapshot is evicted *)
    rewrite Hsz in Hgt. rewrite with_session_twice. f_equal.
    destruct (most_recent_snoc_full 100 l d) as (y & r' & Hr & Hr'); [lia|].
    fold r in Hr.
    assert (k = timestamp y) as ->.
    { apply (least_key_unique _ _ _ Hk). unfold retained, snapshot_entry, weather_entry; simpl. fold r.
      rewrite (store_append drivers r d Hnd). unfold least_key.
      rewrite (store_dom drivers). rewrite Hr. split.
      - rewrite fmap_app, fmap_cons. set_solver.
      - intros x Hx. apply elem_of_list_to_set in Hx.
        assert (StronglySorted slt (timestamp <$> (y :: r') ++ [d])) as Hs'.
        { rewrite <- Hr. apply (sorted_suffix_snoc l); [done|].
          apply most_recent_suffix. }
        rewrite <- app_comm_cons, fmap_cons in Hs'.
        apply StronglySorted_cons in Hs' as [Hall _].
        rewrite <- app_comm_cons, fmap_cons in Hx.
        apply elem_of_cons in Hx as [->|Hx]; [done|].
        rewrite Forall_forall in Hall. by apply ltb_le, Hall. }
    unfold retained, snapshot_entry, weather_entry; simpl. fold r. rewrite last_snoc. simpl.
    rewrite Hr', Hr. rewrite Hr in Hnd.
    by rewrite (store_evict drivers), (store_evict weather).
Qed.

(** *** The history queries *)

Lemma elem_of_window {V} (store : gmap string V) (n : Z) (ts : string) :
  ts ∈ window store n → ts ∈ dom store.
Proof.
  unfold window, last_n. intros H%elem_of_slice_from.
  rewrite sorted_perm in H. by apply elem_of_keys.
Qed.


Lemma weather_history_loop_spec (wd : gmap string Weather)
    (tss : list string) : ∀ h,
  (∀ ts, ts ∈ tss → ts ∈ dom wd) →
  ∃ h', weather_history_loop wd tss h = inr h' ∧
        wh_timestamps h' = wh_timestamps h ++ tss.
Proof.
  induction tss as [|ts tss IH]; intros h Hin; simpl.
  - exists h. by rewrite app_nil_r.
  - destruct (proj1 (elem_of_dom wd ts)) as [w ->]; [apply Hin; by left|].
    edestruct IH as (h' & -> & Hh'); [intros; apply Hin; by right|].
    exists h'. split; [done|]. rewrite Hh'. simpl. by rewrite <- (assoc_L (++)).
Qed.

Lemma find_existsb {A} (p : A → bool) (l : list A) :
  existsb p l = match List.find p l with Some _ => true | None => false end.
Proof. induction l as [|x l IH]; simpl; [done|]. by destruct (p x). Qed.

Lemma driver_history_loop_spec (td : gmap string (list DriverTiming))
    (d : string) (tss : list string) : ∀ h,
  (∀ ts, ts ∈ tss → ts ∈ dom td) →
  ∃ h', driver_history_loop td d tss h = inr h' ∧
        dh_timestamps h' = dh_timestamps h ++ List.filter (lists_driver td d) tss.
Proof.
  induction tss as [|ts tss IH]; intros h Hin; simpl.
  - exists h. by rewrite app_nil_r.
  - destruct (proj1 (elem_of_dom td ts)) as [timing Ht]; [apply Hin; by left|].
    unfold lists_driver at 1. rewrite Ht, find_existsb.
    destruct (List.find _ timing) as [dd|].
    + edestruct IH as (h' & -> & Hh'); [intros; apply Hin; by right|].
      exists h'. split; [done|]. rewrite Hh'. simpl.
      by rewrite <- (assoc_L (++)).
    + edestruct IH as (h' & -> & Hh'); [intros; apply Hin; by right|].
      exists h'. split; [done|]. by rewrite Hh'.
Qed.

Lemma get_weather_history_spec (n : Z) (st : Monitor) (sd : SessionData) :
  session_data st = Some sd →
  ∃ h, get_weather_history n st = Done st h ∧
       wh_timestamps h = window (weather_data sd) n.
Proof.
  intros Hsd. unfold get_weather_history. rewrite Hsd.
  edestruct (weather_history_loop_spec (weather_data sd)
               (window (weather_data sd) n)) as (h & -> & Hh);
    [intros ts; apply elem_of_window|].
  exists h. split; [done|]. by rewrite Hh.
Qed.

Lemma get_driver_history_spec (d : string) (n : Z) (st : Monitor)
    (sd : SessionData) :
  session_data st = Some sd →
  ∃ h, get_driver_history d n st = Done st h ∧
       dh_timestamps h
       = List.filter (lists_driver (timing_data sd) d) (window (timing_data sd) n).
Proof.
  intros Hsd. unfold get_driver_history. rewrite Hsd.
  edestruct (driver_history_loop_spec (timing_data sd) d
               (window (timing_data sd) n)) as (h & -> & Hh);
    [intros ts; apply elem_of_window|].
  exists h. split; [done|]. by rewrite Hh.
Qed.

(** [get_current_standings] returns the entry under the greatest timestamp. *)
Lemma get_current_standings_spec (st : Monitor) (sd : SessionData) :
  session_data st = Some sd →
  (timing_data sd = ∅ ∧ get_current_standings st = Done st []) ∨
  (∃ latest rows,
     latest ∈ dom (timing_data sd) ∧
     (∀ x, x ∈ dom (timing_data sd) → String.le x latest) ∧
     timing_data sd !! latest = Some rows ∧
     get_current_standings st = Done st rows).
Proof.
  intros Hsd. unfold get_current_standings. rewrite Hsd.
  destruct (decide (size (timing_data sd) = 0)%nat) as [Hz|Hne].
  { left. by apply map_size_empty_iff in Hz. }
  right. destruct (Py.max (keys (timing_data sd))) as [k|] eqn:Hk.
  - apply max_spec in Hk as [Hin Hmax]. apply elem_of_keys in Hin as Hdom.
    apply elem_of_dom in Hdom as Hv. destruct Hv as [rows Hrows].
    exists k, rows. rewrite Hrows. repeat split; try done.
    intros x Hx. by apply Hmax, elem_of_keys.
  - exfalso. apply Hne. rewrite <- length_keys.
    by destruct (keys (timing_data sd)).
Qed.

Lemma get_current_standings_Done (st : Monitor) (sd : SessionData) :
  session_data st = Some sd →
  ∃ latest, get_current_standings st = Done st latest.
Proof.
  intros Hsd.
  destruct (get_current_standings_spec st sd Hsd)
    as [[_ ->]|(k & rows & _ & _ & _ & ->)]; eauto.
Qed.

Lemma get_session_statistics_spec (now : Q) (st : Monitor) (sd : SessionData) :
  session_data st = Some sd →
  timing_data sd ≠ ∅ →
  ∃ s, get_session_statistics now st = Done st (Some s) ∧
       total_updates s = size (timing_data sd).
Proof.
  intros Hsd Hne. unfold get_session_statistics. rewrite Hsd.
  destruct (decide (size (timing_data sd) = 0)%nat) as [Hz|_].
  { by apply map_size_empty_iff in Hz. }
  destruct (get_current_standings_Done st sd Hsd) as [latest ->]. eauto.
Qed.

(** Snapshots with pairwise distinct timestamps fill the history up to its
    capacity. *)
Lemma process_all_distinct (info : string) (now : Q) (st0 : Monitor)
    (l : list LiveData) :
  NoDup (timestamp <$> l) →
  ∃ st sd, process_all l (started info now st0) = Done st tt ∧
           session_data st = Some sd ∧
           dom (timing_data sd) = dom (weather_data sd) ∧
           dom (timing_data sd) ⊆ list_to_set (timestamp <$> l) ∧
           size (timing_data sd) = Nat.min (length l) 100.
Proof.
  induction l as [|d l IH] using rev_ind; intros Hnd.
  { eexists _, _. split; [reflexivity|]. split; [reflexivity|]. simpl.
    rewrite !dom_empty_L, map_size_empty. done. }
  rewrite fmap_app in Hnd. apply NoDup_app in Hnd as (Hl & Hfresh & _).
  destruct (IH Hl) as (st & sd & Hrun & Hsd & Hdom & Hsub & Hsz).
  rewrite (process_all_app _ _ _ _ Hrun). simpl.
  assert (timing_data sd !! timestamp d = None) as Hnone.
  { apply not_elem_of_dom. intros Hin. apply Hsub in Hin.
    apply elem_of_list_to_set in Hin. apply (Hfresh _ Hin). simpl. by left. }
  pose proof (map_size_insert_None (timestamp d) (drivers d) _ Hnone) as Hins.
  rewrite length_app, fmap_app. simpl.
  destruct (process_step d st sd Hsd Hdom) as [[Hle ->]|[Hgt (k & Hk & ->)]];
    eexists _, _; (split; [reflexivity|]); (split; [reflexivity|]); simpl.
  - rewrite !dom_insert_L, Hdom. split; [done|]. split; [|lia].
    rewrite <- Hdom. set_solver.
  - rewrite !dom_delete_L, !dom_insert_L, Hdom. split; [done|]. split.
    + rewrite <- Hdom. set_solver.
    + rewrite (size_delete_least k); [lia|done].
Qed.

Lemma size_weather_data (sd : SessionData) :
  dom (timing_data sd) = dom (weather_data sd) →
  size (weather_data sd) = size (timing_data sd).
Proof. intros Hdom. by rewrite <- !size_dom, Hdom. Qed.

Lemma retained_size (info : string) (now : Q) (l : list LiveData) :
  StronglySorted slt (timestamp <$> l) →
  size (timing_data (retained info now l)) = Nat.min (length l) 100.
Proof.
  intros Hs. unfold retained, snapshot_entry; simpl.
  rewrite (store_size drivers), length_most_recent; [done|].
  apply StronglySorted_slt_NoDup.
  destruct (most_recent_suffix 100 l) as [p Hp]. rewrite Hp, fmap_app in Hs.
  by apply StronglySorted_app_1_r in Hs.
Qed.

Lemma retained_lookup (info : string) (now : Q) (l : list LiveData)
    (x : LiveData) :
  StronglySorted slt (timestamp <$> l) →
  x ∈ most_recent 100 l →
  timing_data (retained info now l) !! timestamp x = Some (drivers x) ∧
  weather_data (retained info now l) !! timestamp x = Some (weather x).
Proof.
  intros Hs Hx.
  assert (NoDup (timestamp <$> most_recent 100 l)) as Hnd.
  { apply StronglySorted_slt_NoDup.
    destruct (most_recent_suffix 100 l) as [p Hp]. rewrite Hp, fmap_app in Hs.
    by apply StronglySorted_app_1_r in Hs. }
  unfold retained; simpl. split.
  - apply elem_of_list_to_map_1; [by rewrite fst_snapshot_entries|].
    apply list_elem_of_fmap. by exists x.
  - apply elem_of_list_to_map_1; [by rewrite fst_weather_entries|].
    apply list_elem_of_fmap. by exists x.
Qed.

Lemma retained_evicted (info : string) (now : Q) (l : list LiveData)
    (x : LiveData) :
  StronglySorted slt (timestamp <$> l) →
  x ∈ take (length l - 100) l →
  (timestamp x ∉ dom (timing_data (retained info now l))) ∧
  (timestamp x ∉ dom (weather_data (retained info now l))).
Proof.
  intros Hs Hx.
  assert (timestamp x ∉ timestamp <$> most_recent 100 l) as Hnot.
  { apply StronglySorted_slt_NoDup in Hs.
    rewrite <- (take_drop (length l - 100) l), fmap_app in Hs.
    apply NoDup_app in Hs as (_ & Hdisj & _). apply Hdisj.
    apply list_elem_of_fmap. by exists x. }
  unfold retained, snapshot_entry, weather_entry; simpl.
  rewrite (store_dom drivers), (store_dom weather).
  by rewrite elem_of_list_to_set.
Qed.

Lemma retained_least (info : string) (now : Q) (l : list LiveData)
    (y : LiveData) (r : list LiveData) :
  StronglySorted slt (timestamp <$> l) →
  most_recent 100 l = y :: r →
  least_key (timestamp y) (timing_data (retained info now l)).
Proof.
  intros Hs Hr. unfold least_key, retained, snapshot_entry; simpl.
  rewrite (store_dom drivers), Hr, fmap_cons. split; [set_solver|].
  intros x Hx. apply elem_of_list_to_set in Hx.
  destruct (most_recent_suffix 100 l) as [p Hp].
  rewrite Hp, Hr, fmap_app, fmap_cons in Hs.
  apply StronglySorted_app_1_r, StronglySorted_cons in Hs as [Hall _].
  apply elem_of_cons in Hx as [->|Hx]; [done|].
  rewrite Forall_forall in Hall. by apply ltb_le, Hall.
Qed.

(** *** The polling loop *)

Lemma process_keeps_flags (d : LiveData) (st st' : Monitor) :
  consistent st →
  _process_live_data d st = Done st' tt →
  is_monitoring st' = is_monitoring st ∧ callbacks st' = callbacks st.
Proof.
  intros (sd & Hsd & Hdom & _) Hp.
  destruct (process_step d st sd Hsd Hdom) as [[_ Hq]|[_ (k & _ & Hq)]];
    rewrite Hq in Hp; by simplify_eq.
Qed.

(** While every fetch succeeds and nobody stops the monitor, the loop of
    [start_monitoring] processes the snapshots one after the other and
    calls every callback once per snapshot, in registration order. *)
Lemma polling_loop_successful (l : list LiveData) : ∀ st calls,
  consistent st →
  is_monitoring st = true →
  ∃ st', process_all l st = Done st' tt ∧
         polling_loop (successful <$> l) st calls
         = (st', calls ++ notifications (callbacks st) l).
Proof.
  induction l as [|d l IH]; intros st calls Hst Hrun; simpl.
  { exists st. by rewrite app_nil_r. }
  rewrite Hrun.
  destruct (process_consistent d st Hst) as (st1 & Hp & Hst1).
  destruct (process_keeps_flags d st st1 Hst Hp) as [Hflag Hcbs].
  rewrite Hp.
  destruct (IH st1 (calls ++ _notify_callbacks st1 d) Hst1) as (st' & Hall & Hloop);
    [by rewrite Hflag|].
  exists st'. split; [done|].
  change (list_fmap LiveData Tick successful l) with (successful <$> l).
  rewrite Hloop. unfold _notify_callbacks. rewrite Hcbs.
  by rewrite <- (assoc_L (++)).
Qed.

Lemma start_monitoring_successful (info : string) (now : Q) (st0 : Monitor)
    (l : list LiveData) :
  ∃ st', process_all l (started info now st0) = Done st' tt ∧
         start_monitoring info now (successful <$> l) st0
         = (st', notifications (callbacks st0) l).
Proof.
  unfold start_monitoring. simpl.
  destruct (polling_loop_successful l (started info now st0) [])
    as (st' & Hall & Hloop); [apply started_consistent|done|].
  exists st'. split; [done|]. exact Hloop.
Qed.

(** *** The claims about the live history *)

(** C1.  The history never holds more than 100 snapshots after an
    insertion.  When snapshots arrive with strictly increasing timestamps
    and at least 100 have been stored, the store is full, the next
    insertion evicts exactly the entry with the least timestamp from both
    stores and keeps everything else, the stores hold exactly the 100 most
    recent snapshots, the timestamps of all older snapshots are absent from
    the stores and from the results of the history queries, and the current
    standings are those of the newest snapshot. *)
Theorem bounded_history_eviction (info : string) (now : Q) (st0 : Monitor)
    (l : list LiveData) (d : LiveData) :
  increasing (timestamp <$> l ++ [d]) = true →
  (100 ≤ length l)%nat →
  (∀ l' : list LiveData, ∃ st sd,
     process_all l' (started info now st0) = Done st tt ∧
     session_data st = Some sd ∧
     (size (timing_data sd) ≤ 100)%nat ∧
     (size (weather_data sd) ≤ 100)%nat) ∧
  ∃ st sd st' sd' oldest rest,
    process_all l (started info now st0) = Done st tt ∧
    session_data st = Some sd ∧
    size (timing_data sd) = 100%nat ∧
    most_recent 100 l = oldest :: rest ∧
    least_key (timestamp oldest) (timing_data sd) ∧
    _process_live_data d st = Done st' tt ∧
    session_data st' = Some sd' ∧
    timing_data sd'
      = <[timestamp d := drivers d]> (delete (timestamp oldest) (timing_data sd)) ∧
    weather_data sd'
      = <[timestamp d := weather d]> (delete (timestamp oldest) (weather_data sd)) ∧
    size (timing_data sd') = 100%nat ∧
    timing_data sd' = list_to_map (snapshot_entry <$> most_recent 100 (l ++ [d])) ∧
    weather_data sd' = list_to_map (weather_entry <$> most_recent 100 (l ++ [d])) ∧
    (∀ x, x ∈ most_recent 100 (l ++ [d]) →
       timing_data sd' !! timestamp x = Some (drivers x) ∧
       weather_data sd' !! timestamp x = Some (weather x)) ∧
    (∀ x, x ∈ take (length (l ++ [d]) - 100) (l ++ [d]) →
       timing_data sd' !! timestamp x = None ∧
       weather_data sd' !! timestamp x = None ∧
       (∀ drv n, ∃ h, get_driver_history drv n st' = Done st' h ∧
                      timestamp x ∉ dh_timestamps h) ∧
       (∀ n, ∃ h, get_weather_history n st' = Done st' h ∧
                  timestamp x ∉ wh_timestamps h)) ∧
    get_current_standings st' = Done st' (drivers d).
Proof.
  intros Hinc Hlen. split.
  { intros l'.
    destruct (process_all_consistent l' (started info now st0))
      as (st & Hrun & sd & Hsd & Hdom & Hsz); [apply started_consistent|].
    exists st, sd. by rewrite size_weather_data. }
  apply increasing_StronglySorted in Hinc as Hs'.
  assert (StronglySorted slt (timestamp <$> l)) as Hs.
  { rewrite fmap_app in Hs'. by apply StronglySorted_app_1_l in Hs'. }
  pose proof (process_all_sorted info now st0 l Hs) as Hrun.
  pose proof (process_all_sorted info now st0 (l ++ [d]) Hs') as Hrun'.
  rewrite (process_all_app _ _ _ _ Hrun) in Hrun'. simpl in Hrun'.
  destruct (most_recent_snoc_full 100 l d) as (y & r & Hr & Hr'); [lia|].
  set (st := with_session (started info now st0) (retained info now l)) in *.
  set (st' := with_session (started info now st0) (retained info now (l ++ [d]))) in *.
  exists st, (retained info now l), st', (retained info now (l ++ [d])), y, r.
  split; [done|]. split; [done|].
  split; [rewrite retained_size by done; lia|].
  split; [done|]. split; [by apply (retained_least _ _ l y r)|].
  split. { by destruct (_process_live_data d st) as [? []|]; simplify_eq. }
  split; [done|].
  assert (NoDup (timestamp <$> y :: r ++ [d])) as Hnd.
  { apply StronglySorted_slt_NoDup. rewrite app_comm_cons, <- Hr.
    apply (sorted_suffix_snoc l); [done|apply most_recent_suffix]. }
  assert (NoDup (timestamp <$> r ++ [d])) as Hnd'.
  { rewrite fmap_cons in Hnd. by apply NoDup_cons in Hnd as [_ ?]. }
  assert (timestamp y ∉ timestamp <$> r) as Hy.
  { rewrite fmap_cons in Hnd. apply NoDup_cons in Hnd as [Hy _].
    intros Hin. apply Hy. rewrite fmap_app. apply elem_of_app. by left. }
  split; [|split].
  - unfold retained, snapshot_entry; simpl. rewrite Hr, Hr'.
    rewrite <- (store_append drivers r d Hnd'). f_equal.
    rewrite fmap_cons. change (entry_of drivers y) with (timestamp y, drivers y).
    rewrite list_to_map_cons. symmetry.
    apply delete_insert_id, not_elem_of_list_to_map.
    by rewrite (fst_entries drivers).
  - unfold retained, weather_entry; simpl. rewrite Hr, Hr'.
    rewrite <- (store_append weather r d Hnd'). f_equal.
    rewrite fmap_cons. change (entry_of weather y) with (timestamp y, weather y).
    rewrite list_to_map_cons. symmetry.
    apply delete_insert_id, not_elem_of_list_to_map.
    by rewrite (fst_entries weather).
  - split.
    { rewrite retained_size by done. rewrite length_app. simpl. lia. }
    split; [done|]. split; [done|]. split; [|split].
    + intros x Hx. by apply retained_lookup.
    + intros x Hx.
      destruct (retained_evicted info now (l ++ [d]) x Hs' Hx) as [Ht Hw].
      split; [by apply not_elem_of_dom|]. split; [by apply not_elem_of_dom|].
      split.
      * intros drv n.
        destruct (get_driver_history_spec drv n st' _ eq_refl) as (h & Hq & Hh).
        exists h. split; [done|]. rewrite Hh. intros Hin.
        apply list_elem_of_In, filter_In in Hin as [Hin _].
        apply list_elem_of_In, elem_of_window in Hin. by apply Ht.
      * intros n.
        destruct (get_weather_history_spec n st' _ eq_refl) as (h & Hq & Hh).
        exists h. split; [done|]. rewrite Hh. intros Hin.
        apply elem_of_window in Hin. by apply Hw.
    + assert (d ∈ most_recent 100 (l ++ [d])) as Hd.
      { rewrite Hr'. apply elem_of_app. right. by left. }
      destruct (retained_lookup info now (l ++ [d]) d Hs' Hd) as [Hlook _].
      destruct (get_current_standings_spec st' _ eq_refl)
        as [[Hem _]|(k & rows & Hk & Hmax & Hrows & ->)].
      { rewrite Hem in Hlook. by rewrite lookup_empty in Hlook. }
      assert (k = timestamp d) as ->; [|by rewrite Hlook in Hrows; simplify_eq].
      apply (anti_symm String.le).
      * unfold retained, snapshot_entry in Hk; simpl in Hk.
        rewrite (store_dom drivers) in Hk. apply elem_of_list_to_set in Hk.
        apply list_elem_of_fmap in Hk as (x & -> & Hx).
        rewrite Hr' in Hx. apply elem_of_app in Hx as [Hx|Hx].
        -- apply ltb_le.
           assert (StronglySorted slt (timestamp <$> r ++ [d])) as Hrd.
           { apply (sorted_suffix_snoc l); [done|].
             destruct (most_recent_suffix 100 l) as [p Hp]. rewrite Hr in Hp.
             exists (p ++ [y]). by rewrite Hp, <- (assoc_L (++)). }
           rewrite fmap_app in Hrd.
           apply (StronglySorted_app_1_elem_of _ _ _ _ _ Hrd);
             [by apply list_elem_of_fmap_2|by left].
        -- apply list_elem_of_singleton in Hx as ->. done.
      * apply Hmax. by apply elem_of_dom.
Qed.

Lemma bounded_history_eviction_witness :
  increasing (timestamp <$> sample_feed 104 ++ [sample_snapshot 104]) = true ∧
  (100 ≤ length (sample_feed 104))%nat ∧
  ∃ st' sd',
    process_all (sample_feed 104 ++ [sample_snapshot 104])
      (started "R" 0 init) = Done st' tt ∧
    session_data st' = Some sd' ∧
    size (timing_data sd') = 100%nat ∧
    timing_data sd' !! sample_timestamp 4 = None ∧
    timing_data sd' !! sample_timestamp 5 = Some (drivers (sample_snapshot 5)).
Proof.
  assert (increasing (timestamp <$> sample_feed 104 ++ [sample_snapshot 104])
          = true) as H1 by (vm_compute; reflexivity).
  assert ((100 ≤ length (sample_feed 104))%nat) as H2.
  { unfold sample_feed. rewrite length_fmap, length_seq. lia. }
  split; [exact H1|]. split; [exact H2|].
  destruct (bounded_history_eviction "R" 0 init _ _ H1 H2)
    as (_ & st & sd & st' & sd' & y & r & Hrun & Hsd & _ & _ & _ & Hstep
        & Hsd' & _ & _ & Hsz & _ & _ & Hkept & Hgone & _).
  exists st', sd'. split.
  { rewrite (process_all_app _ _ _ _ Hrun). simpl. by rewrite Hstep. }
  split; [exact Hsd'|]. split; [exact Hsz|]. split.
  - apply (Hgone (sample_snapshot 4)).
    apply list_elem_of_In. vm_compute. tauto.
  - apply (Hkept (sample_snapshot 5)).
    apply list_elem_of_In. vm_compute. tauto.
Defined.



(** C6, as the code has it.  [total_updates] is the number of snapshots
    the history currently retains, not the number received: after [k ≥ 1]
    successful polls with pairwise distinct timestamps it is [min k 100],
    the length of the history. *)
Theorem total_updates_counts_retained (info : string) (now now' : Q)
    (st0 : Monitor) (l : list LiveData) :
  l ≠ [] →
  NoDup (timestamp <$> l) →
  ∃ st sd s,
    start_monitoring info now (successful <$> l) st0
    = (st, notifications (callbacks st0) l) ∧
    process_all l (started info now st0) = Done st tt ∧
    session_data st = Some sd ∧
    get_session_statistics now' st = Done st (Some s) ∧
    total_updates s = size (timing_data sd) ∧
    total_updates s = Nat.min (length l) 100.
Proof.
  intros Hne Hnd.
  destruct (process_all_distinct info now st0 l Hnd)
    as (st & sd & Hrun & Hsd & Hdom & _ & Hsz).
  destruct (get_session_statistics_spec now' st sd Hsd) as (s & Hs & Htot).
  { intros Hem. rewrite Hem, map_size_empty in Hsz.
    destruct l; [done|]. simpl in Hsz. lia. }
  destruct (start_monitoring_successful info now st0 l) as (st' & Hrun' & Hloop).
  rewrite Hrun in Hrun'. injection Hrun' as <-.
  exists st, sd, s. by rewrite Htot.
Qed.

Lemma total_updates_counts_retained_witness :
  sample_feed 10 ≠ [] ∧
  NoDup (timestamp <$> sample_feed 10) ∧
  ∃ st sd s,
    start_monitoring "R" 0 (successful <$> sample_feed 10) init
    = (st, notifications (callbacks init) (sample_feed 10)) ∧
    process_all (sample_feed 10) (started "R" 0 init) = Done st tt ∧
    session_data st = Some sd ∧
    get_session_statistics 50 st = Done st (Some s) ∧
    total_updates s = size (timing_data sd) ∧
    total_updates s = Nat.min (length (sample_feed 10)) 100.
Proof.
  split; [discriminate|].
  assert (NoDup (timestamp <$> sample_feed 10)) as Hnd.
  { apply StronglySorted_slt_NoDup, increasing_StronglySorted.
    vm_compute. reflexivity. }
  split; [exact Hnd|].
  apply (total_updates_counts_retained "R" 0 50 init (sample_feed 10));
    [discriminate|exact Hnd].
Defined.

(** C6, as stated, fails: after 101 successful polls with increasing
    timestamps [total_updates] is 100, not 101. *)
Lemma total_updates_counterexample :
  ∃ st s,
    (start_monitoring "R" 0 (successful <$> sample_feed 101) init).1 = st ∧
    process_all (sample_feed 101) (started "R" 0 init) = Done st tt ∧
    get_session_statistics 600 st = Done st (Some s) ∧
    total_updates s = 100%nat ∧
    total_updates s ≠ length (sample_feed 101).
Proof.
  assert (StronglySorted slt (timestamp <$> sample_feed 101)) as Hs.
  { apply increasing_StronglySorted. vm_compute. reflexivity. }
  pose proof (retained_size "R" 0 (sample_feed 101) Hs) as Hsz.
  assert (length (sample_feed 101) = 101%nat) as Hlen.
  { unfold sample_feed. by rewrite length_fmap, length_seq. }
  rewrite Hlen in Hsz.
  destruct (get_session_statistics_spec 600
              (with_session (started "R" 0 init)
                 (retained "R" 0 (sample_feed 101))) _ eq_refl)
    as (s & Hq & Htot).
  { intros Hem. rewrite Hem, map_size_empty in Hsz. lia. }
  pose proof (process_all_sorted "R" 0 init _ Hs) as Hrun.
  destruct (start_monitoring_successful "R" 0 init (sample_feed 101))
    as (st' & Hrun' & Hloop).
  rewrite Hrun in Hrun'. injection Hrun' as <-.
  eexists _, s. split; [by rewrite Hloop|]. split; [exact Hrun|].
  split; [exact Hq|]. rewrite Htot, Hsz, Hlen. lia.
Qed.

(** C7, as the code has it.  [start_monitoring] on a monitor that is
    already running raises nothing: it keeps the running flag, the
    callbacks and the update interval, and installs fresh session data
    (empty timing and weather stores, start time [now], track status
    GREEN). *)
Theorem start_while_running_resets (info : string) (now : Q) (st : Monitor) :
  is_monitoring st = true →
  ∃ st',
    start_monitoring_begin info now st = Done st' tt ∧
    is_monitoring st' = is_monitoring st ∧
    callbacks st' = callbacks st ∧
    update_interval st' = update_interval st ∧
    session_data st'
    = Some {| session_info := info; start_time := now; timing_data := ∅;
              weather_data := ∅; sd_track_status := "GREEN" |}.
Proof. intros Hrun. eexists. split; [reflexivity|]. simpl. by rewrite Hrun. Qed.

Lemma start_while_running_resets_witness :
  is_monitoring sample_running = true ∧
  ∃ st',
    start_monitoring_begin "Q" 60 sample_running = Done st' tt ∧
    is_monitoring st' = is_monitoring sample_running ∧
    callbacks st' = callbacks sample_running ∧
    update_interval st' = update_interval sample_running ∧
    session_data st'
    = Some {| session_info := "Q"; start_time := 60; timing_data := ∅;
              weather_data := ∅; sd_track_status := "GREEN" |}.
Proof.
  split; [vm_compute; reflexivity|].
  apply (start_while_running_resets "Q" 60 sample_running).
  vm_compute; reflexivity.
Defined.

(** C7, as stated, fails: the second [start_monitoring] on a running monitor
    that holds three snapshots returns normally and empties the history. *)
Lemma start_while_running_counterexample :
  is_monitoring sample_running = true ∧
  (∃ sd, session_data sample_running = Some sd ∧ size (timing_data sd) = 3%nat) ∧
  (∀ e, start_monitoring_begin "Q" 60 sample_running ≠ Raised e sample_running) ∧
  ∃ st' sd',
    start_monitoring_begin "Q" 60 sample_running = Done st' tt ∧
    session_data st' = Some sd' ∧
    size (timing_data sd') = 0%nat ∧
    start_time sd' = 60%Q ∧
    session_data st' ≠ session_data sample_running.
Proof.
  split; [vm_compute; reflexivity|]. split.
  { eexists. split; [vm_compute; reflexivity|]. vm_compute. reflexivity. }
  split; [intros e; discriminate|].
  eexists _, _. split; [reflexivity|]. split; [reflexivity|].
  split; [reflexivity|]. split; [reflexivity|].
  intros Heq. apply (f_equal (λ o, size <$> (timing_data <$> o))) in Heq.
  vm_compute in Heq. discriminate.
Qed.

End LiveProofs.

(** ** Telemetry segmentation *)

Module TelemetryProofs.
Import Pandas PandasFacts Telemetry.

Lemma lookup_middle_next {A} (pre : list A) (x y : A) (rest : list A) :
  (pre ++ x :: y :: rest) !! S (length pre) = Some y.
Proof.
  rewrite (cons_middle x), (assoc_L (++)).
  replace (S (length pre)) with (length (pre ++ [x]) + 0)%nat
    by (rewrite length_app; simpl; lia).
  by rewrite lookup_app_r, Nat.add_comm, Nat.add_sub by lia.
Qed.

(** The corner loop of the code, started in variables that represent the
    machine state [st], emits the dicts of the intervals the machine
    emits, and ends in variables that represent the machine's final state. *)
Lemma corner_loop_refines (telemetry : list Sample) (rest : list Q) :
  ∀ (pre : list Q) (prev : Q) (v : corner_vars) (st : seg_state),
    Speed <$> telemetry = pre ++ prev :: rest →
    represents v st →
    (∀ s, st = INSIDE s → (s ≤ length pre)%nat) →
    ∃ v' new,
      corner_loop telemetry v (S (length pre)) (diff_from prev rest) = Some v' ∧
      corners v' = corners v ++ new ∧
      Forall2 (corner_event_of telemetry) new
        (machine st (S (length pre)) prev rest).2 ∧
      represents v' (machine st (S (length pre)) prev rest).1.
Proof.
  induction rest as [|cur rest IH]; intros pre prev v st Hsp Hrep Hst.
  { exists v, []. simpl. by rewrite app_nil_r. }
  assert (Speed <$> telemetry = (pre ++ [prev]) ++ cur :: rest) as Hsp'.
  { by rewrite <- (assoc_L (++)). }
  assert (length (pre ++ [prev]) = S (length pre)) as Hlen.
  { rewrite length_app. simpl. lia. }
  simpl. unfold corner_body. simpl.
  destruct st as [|s]; simpl in Hrep.
  - (* OUTSIDE *)
    rewrite Hrep. simpl. rewrite andb_true_r, andb_false_r.
    destruct (Qltb (cur - prev) (-10)) eqn:E; simpl.
    + destruct (IH (pre ++ [prev]) cur
                  {| in_corner := true; corner_start := Some (S (length pre));
                     corners := corners v |} (INSIDE (S (length pre))) Hsp')
        as (v' & new & Hloop & Hnew & Hevs & Hrep'); [done| |].
      { intros s [= <-]. lia. }
      rewrite Hlen in *. by exists v', new.
    + destruct (IH (pre ++ [prev]) cur v OUTSIDE Hsp')
        as (v' & new & Hloop & Hnew & Hevs & Hrep'); [done|done|].
      rewrite Hlen in *. by exists v', new.
  - (* INSIDE s *)
    destruct Hrep as [Hin Hcs]. rewrite Hin, Hcs. simpl.
    rewrite andb_false_r, andb_true_r.
    destruct (Qltb 5 (cur - prev)) eqn:E; simpl.
    + specialize (Hst s eq_refl).
      assert (s < length (Speed <$> telemetry))%nat as Hs.
      { rewrite Hsp, length_app. simpl. lia. }
      destruct (lookup_lt_is_Some_2 (Speed <$> telemetry) s Hs) as [entry He].
      destruct (lookup_lt_is_Some_2 (Distance <$> telemetry) s) as [dist Hd].
      { rewrite length_fmap. by rewrite length_fmap in Hs. }
      assert ((Speed <$> telemetry) !! S (length pre) = Some cur) as Hcur.
      { rewrite Hsp. apply lookup_middle_next. }
      rewrite He, Hcur, Hd. simpl.
      destruct (series_min_spec (slice s (S (length pre)) (Speed <$> telemetry)))
        as (m & Hm & Hmin); [apply slice_nonempty; [lia|done]|].
      rewrite Hm.
      match goal with
      | |- context [corner_loop telemetry ?v1 _ _] =>
        destruct (IH (pre ++ [prev]) cur v1 OUTSIDE Hsp')
          as (v' & new & Hloop & Hnew & Hevs & Hrep'); [done|done|]
      end.
      rewrite Hlen in *. simpl in Hnew.
      destruct (machine OUTSIDE (S (S (length pre))) cur rest) as [final evs].
      exists v'. eexists (_ :: new). split; [exact Hloop|]. split.
      { rewrite Hnew, <- (assoc_L (++)). reflexivity. }
      split; [|done]. simpl. constructor; [|done].
      by exists m, entry, cur, dist.
    + destruct (IH (pre ++ [prev]) cur v (INSIDE s) Hsp')
        as (v' & new & Hloop & Hnew & Hevs & Hrep'); [done| |].
      { intros s' [= <-]. specialize (Hst s eq_refl). lia. }
      rewrite Hlen in *. by exists v', new.
Qed.

(** Intervals emitted by the machine lie inside the lap, and a machine
    that ends [INSIDE s] has emitted nothing that reaches [s]. *)
Lemma machine_bounds (rest : list Q) : ∀ (st : seg_state) (i : nat) (prev : Q),
  (∀ s, st = INSIDE s → (s < i)%nat) →
  Forall (λ seg, (seg.1 < seg.2 < i + length rest)%nat)
    (machine st i prev rest).2 ∧
  ∀ s, (machine st i prev rest).1 = INSIDE s →
       (st = INSIDE s ∨ i ≤ s)%nat ∧
       (s < i + length rest)%nat ∧
       Forall (λ seg, (seg.2 < s)%nat) (machine st i prev rest).2.
Proof.
  induction rest as [|cur rest IH]; intros st i prev Hst; simpl.
  { split; [constructor|]. intros s ->. split; [by left|].
    split; [|constructor]. specialize (Hst s eq_refl). lia. }
  destruct st as [|s0].
  - destruct (Qltb (cur - prev) (-10)).
    + destruct (IH (INSIDE i) (S i) cur) as [Hev Hfin]; [intros s [= <-]; lia|].
      split.
      * eapply Forall_impl; [exact Hev|]. intros [a b]; simpl. lia.
      * intros s Hs. destruct (Hfin s Hs) as ([[= <-]|?] & ? & ?);
          (split; [right; lia|]); (split; [lia|done]).
    + destruct (IH OUTSIDE (S i) cur) as [Hev Hfin]; [done|].
      split.
      * eapply Forall_impl; [exact Hev|]. intros [a b]; simpl. lia.
      * intros s Hs. destruct (Hfin s Hs) as ([?|?] & ? & ?); [done|].
        split; [right; lia|]. split; [lia|done].
  - specialize (Hst s0 eq_refl) as Hs0.
    destruct (Qltb 5 (cur - prev)).
    + destruct (IH OUTSIDE (S i) cur) as [Hev Hfin]; [done|].
      destruct (machine OUTSIDE (S i) cur rest) as [final evs]. simpl in *.
      split.
      * constructor; [simpl; lia|].
        eapply Forall_impl; [exact Hev|]. intros [a b]; simpl. lia.
      * intros s Hs. destruct (Hfin s Hs) as ([?|?] & ? & ?); [done|].
        split; [right; lia|]. split; [lia|].
        constructor; [simpl; lia|done].
    + destruct (IH (INSIDE s0) (S i) cur) as [Hev Hfin]; [intros s [= <-]; lia|].
      split.
      * eapply Forall_impl; [exact Hev|]. intros [a b]; simpl. lia.
      * intros s Hs. destruct (Hfin s Hs) as ([[= <-]|?] & ? & ?).
        -- split; [by left|]. split; [lia|done].
        -- split; [right; lia|]. split; [lia|done].
Qed.


(** The corner list is the machine's output, within the bounds of the lap. *)
Lemma corner_detection_state_machine_aux (telemetry : list Sample) :
  ∃ events,
    analyze_cornering_performance telemetry = Some events ∧
    Forall2 (corner_event_of telemetry) events
      (detect_corners (Speed <$> telemetry)).2 ∧
    Forall (λ seg, (seg.1 < seg.2 < length telemetry)%nat)
      (detect_corners (Speed <$> telemetry)).2.
Proof.
  unfold analyze_cornering_performance, detect_corners.
  destruct (Speed <$> telemetry) as [|x rest] eqn:Hsp.
  { exists []. simpl. split; [done|]. split; constructor. }
  assert (length telemetry = S (length rest)) as Hlen.
  { apply (f_equal length) in Hsp. by rewrite length_fmap in Hsp. }
  simpl.
  destruct (corner_loop_refines telemetry rest [] x
              {| in_corner := false; corner_start := None; corners := [] |}
              OUTSIDE Hsp) as (v' & new & Hloop & Hnew & Hevs & Hrep);
    [done|done|].
  simpl in Hloop, Hnew. rewrite Hloop. simpl. rewrite Hnew.
  destruct (machine_bounds rest OUTSIDE 1 x) as [Hb Hfin]; [done|].
  exists new. split; [done|]. split; [done|].
  eapply Forall_impl; [exact Hb|]. intros [a b]; simpl. lia.
Qed.


(** *** Braking zones *)

Lemma braking_loop_spec (telemetry : list Sample) (brakes : list Q) :
  ∀ (pre : list Q) (v : braking_vars),
    Brake <$> telemetry = pre ++ brakes →
    (in_braking v = true →
     ∃ bs, brake_start v = Some bs ∧ (bs < length pre)%nat) →
    ∃ v' new,
      braking_loop telemetry v (length pre) brakes = Some v' ∧
      braking_zones v' = braking_zones v ++ new ∧
      Forall (λ ev, ∃ s e, (s < e < length telemetry)%nat ∧
                           braking_zone_of telemetry ev (s, e)) new.
Proof.
  induction brakes as [|b brakes IH]; intros pre v Hbr Hv.
  { exists v, []. simpl. by rewrite app_nil_r. }
  assert (Brake <$> telemetry = (pre ++ [b]) ++ brakes) as Hbr'.
  { by rewrite <- (assoc_L (++)). }
  assert (length (pre ++ [b]) = S (length pre)) as Hlen.
  { rewrite length_app. simpl. lia. }
  assert (length telemetry = length pre + S (length brakes))%nat as Htel.
  { apply (f_equal length) in Hbr.
    by rewrite length_fmap, length_app in Hbr. }
  simpl. unfold braking_body.
  destruct (in_braking v) eqn:Hin; simpl;
    rewrite ?andb_true_r, ?andb_false_r.
  - (* inside a braking zone *)
    destruct (Hv eq_refl) as (bs & Hbs & Hlt).
    destruct (Qle_bool b brake_threshold) eqn:E; simpl.
    + rewrite Hbs.
      destruct (lookup_lt_is_Some_2 (Distance <$> telemetry) bs) as [d0 Hd0];
        [rewrite length_fmap; lia|].
      destruct (lookup_lt_is_Some_2 (Distance <$> telemetry) (length pre))
        as [d1 Hd1]; [rewrite length_fmap; lia|].
      destruct (lookup_lt_is_Some_2 (Speed <$> telemetry) bs) as [s0 Hs0];
        [rewrite length_fmap; lia|].
      destruct (lookup_lt_is_Some_2 (Speed <$> telemetry) (length pre))
        as [s1 Hs1]; [rewrite length_fmap; lia|].
      rewrite Hd0, Hd1, Hs0, Hs1. simpl.
      destruct (series_max_spec (slice bs (length pre) (Brake <$> telemetry)))
        as (mx & Hmx & Hmax).
      { apply slice_nonempty; [done|]. rewrite length_fmap. lia. }
      rewrite Hmx.
      match goal with
      | |- context [braking_loop telemetry ?v1 _ _] =>
        destruct (IH (pre ++ [b]) v1 Hbr')
          as (v' & new & Hloop & Hnew & Hall); [done|]
      end.
      rewrite Hlen in Hloop. simpl in Hnew.
      exists v'. eexists (_ :: new). split; [exact Hloop|]. split.
      { rewrite Hnew, <- (assoc_L (++)). reflexivity. }
      constructor; [|done].
      exists bs, (length pre). split; [lia|].
      by exists d0, d1, s0, s1, mx.
    + destruct (IH (pre ++ [b]) v Hbr')
        as (v' & new & Hloop & Hnew & Hall).
      { intros _. exists bs. split; [done|]. rewrite Hlen. lia. }
      rewrite Hlen in Hloop. by exists v', new.
  - (* outside *)
    destruct (Qltb brake_threshold b) eqn:E; simpl.
    + match goal with
      | |- context [braking_loop telemetry ?v1 _ _] =>
        destruct (IH (pre ++ [b]) v1 Hbr')
          as (v' & new & Hloop & Hnew & Hall)
      end.
      { intros _. exists (length pre). split; [done|]. rewrite Hlen. lia. }
      rewrite Hlen in Hloop. by exists v', new.
    + destruct (IH (pre ++ [b]) v Hbr')
        as (v' & new & Hloop & Hnew & Hall); [by rewrite Hin|].
      rewrite Hlen in Hloop. by exists v', new.
Qed.

Lemma nondecreasing_sorted (xs : list Q) :
  nondecreasing xs = true → StronglySorted Qle xs.
Proof.
  intros H. apply Sorted.Sorted_StronglySorted.
  { intros x y z. apply Qle_trans. }
  induction xs as [|x xs IH]; [constructor|].
  destruct xs as [|y xs]; [repeat constructor|].
  change (nondecreasing (x :: y :: xs))
    with (Qle_bool x y && nondecreasing (y :: xs)) in H.
  apply andb_true_iff in H as [Hxy Hl]. apply Qle_bool_iff in Hxy.
  constructor; [auto|by constructor].
Qed.

(** C8, as the code has it.  The two analyzers build different dicts.  A
    corner has exactly the keys start, end, min_speed, entry_speed,
    exit_speed and distance (the distance at the start; it has no end
    distance), with start < end.  A braking zone has exactly the keys
    start_distance, end_distance, start_speed, end_speed,
    max_brake_pressure and braking_distance (it has no indices); when
    the distance column never decreases, start_distance ≤ end_distance, and
    braking_distance is their difference. *)
Theorem segment_event_shapes (telemetry : list Sample) :
  nondecreasing (Distance <$> telemetry) = true →
  (∃ cs, analyze_cornering_performance telemetry = Some cs ∧
     Forall (λ ev,
       dom ev = list_to_set ["start"; "end"; "min_speed"; "entry_speed";
                             "exit_speed"; "distance"] ∧
       ∃ s e : nat, ev !! "start" = Some (Int (Z.of_nat s)) ∧
                    ev !! "end" = Some (Int (Z.of_nat e)) ∧
                    (s < e < length telemetry)%nat ∧
                    (∃ m x y d, ev !! "min_speed" = Some (Float m) ∧
                                ev !! "entry_speed" = Some (Float x) ∧
                                ev !! "exit_speed" = Some (Float y) ∧
                                ev !! "distance" = Some (Float d))) cs) ∧
  (∃ zs, analyze_braking_points telemetry = Some zs ∧
     Forall (λ ev,
       dom ev = list_to_set ["start_distance"; "end_distance"; "start_speed";
                             "end_speed"; "max_brake_pressure";
                             "braking_distance"] ∧
       ∃ d0 d1 s0 s1 mx,
         ev !! "start_distance" = Some (Float d0) ∧
         ev !! "end_distance" = Some (Float d1) ∧
         ev !! "start_speed" = Some (Float s0) ∧
         ev !! "end_speed" = Some (Float s1) ∧
         ev !! "max_brake_pressure" = Some (Float mx) ∧
         ev !! "braking_distance" = Some (Float (d1 - d0)%Q) ∧
         (d0 <= d1)%Q) zs).
Proof.
  intros Hmono%nondecreasing_sorted. split.
  - destruct (corner_detection_state_machine_aux telemetry)
      as (cs & Hcs & Hevs & Hb).
    exists cs. split; [done|].
    apply Forall_forall. intros ev Hev.
    apply list_elem_of_lookup in Hev as [n Hn].
    destruct (Forall2_lookup_l _ _ _ _ _ Hevs Hn) as ([s e] & Hseg & Hof).
    rewrite Forall_forall in Hb.
    specialize (Hb (s, e) (list_elem_of_lookup_2 _ _ _ Hseg)). simpl in Hb.
    destruct Hof as (m & x & y & d & -> & _). split.
    + unfold dict. by rewrite dom_list_to_map_L.
    + exists s, e. split; [done|]. split; [done|]. split; [done|].
      by exists m, x, y, d.
  - unfold analyze_braking_points.
    destruct (braking_loop_spec telemetry (Brake <$> telemetry) []
                {| in_braking := false; brake_start := None;
                   braking_zones := [] |})
      as (v' & new & Hloop & Hnew & Hall); [done|done|].
    simpl in Hloop, Hnew. rewrite Hloop. simpl. rewrite Hnew.
    exists new. split; [done|].
    eapply Forall_impl; [exact Hall|]. intros ev (s & e & Hse & Hof).
    destruct Hof as (d0 & d1 & s0 & s1 & mx & -> & Hd0 & Hd1 & _).
    split.
    + unfold dict. by rewrite dom_list_to_map_L.
    + exists d0, d1, s0, s1, mx. do 6 (split; [done|]).
      apply (sorted_lookup_le _ Hmono s e); [lia|done..].
Qed.

Lemma segment_event_shapes_witness :
  nondecreasing (Distance <$> sample_lap) = true ∧
  (∃ cs, analyze_cornering_performance sample_lap = Some cs ∧
     Forall (λ ev, ∃ s e : nat, ev !! "start" = Some (Int (Z.of_nat s)) ∧
                                ev !! "end" = Some (Int (Z.of_nat e)) ∧
                                (s < e)%nat) cs) ∧
  (∃ zs, analyze_braking_points sample_lap = Some zs ∧
     Forall (λ ev, ∃ d0 d1, ev !! "start_distance" = Some (Float d0) ∧
                            ev !! "end_distance" = Some (Float d1) ∧
                            (d0 <= d1)%Q) zs).
Proof.
  split; [reflexivity|].
  destruct (segment_event_shapes sample_lap eq_refl)
    as [(cs & Hcs & Hc) (zs & Hzs & Hz)].
  split.
  - exists cs. split; [exact Hcs|].
    eapply Forall_impl; [exact Hc|].
    intros ev (_ & s & e & Hs & He & Hse & _). exists s, e. repeat split; tauto || lia.
  - exists zs. split; [exact Hzs|].
    eapply Forall_impl; [exact Hz|].
    intros ev (_ & d0 & d1 & s0 & s1 & mx & H0 & H1 & _ & _ & _ & _ & Hle).
    exists d0, d1. tauto.
Defined.

Ltac refute_carries H :=
  apply Exists_exists in H as (? & Hk & [? Hv]);
  repeat (apply elem_of_cons in Hk as [->|Hk]; [discriminate Hv|]);
  by apply elem_of_nil in Hk.

Lemma sample_lap_events :
  analyze_cornering_performance sample_lap = Some [sample_corner] ∧
  analyze_braking_points sample_lap = Some [sample_zone] ∧
  detect_corners (Speed <$> sample_lap) = (OUTSIDE, [(2, 7)%nat]).
Proof. split; [|split]; reflexivity. Qed.

(** C8, as stated, fails: on the sample lap the corner dict has no end
    distance and the braking-zone dict has neither a start nor an end
    index, so neither has the common shape. *)
Lemma segment_event_shape_counterexample :
  analyze_cornering_performance sample_lap = Some [sample_corner] ∧
  analyze_braking_points sample_lap = Some [sample_zone] ∧
  ¬ carries sample_corner ["end_distance"] ∧
  ¬ carries sample_zone ["start_index"; "start"] ∧
  ¬ carries sample_zone ["end_index"; "end"] ∧
  ¬ segment_event_shape sample_corner ∧
  ¬ segment_event_shape sample_zone.
Proof.
  split; [apply sample_lap_events|]. split; [apply sample_lap_events|].
  split; [intros H; refute_carries H|].
  split; [intros H; refute_carries H|].
  split; [intros H; refute_carries H|].
  split.
  - intros (_ & _ & _ & H & _). refute_carries H.
  - intros (H & _). refute_carries H.
Qed.

End TelemetryProofs.

(** ** Lap statistics *)

Module StatsProofs.
Import Pandas PandasFacts Stats.

Lemma elem_of_valid_laps (driver : string) (laps : list Lap) (l : Lap) :
  l ∈ valid_laps driver laps ↔
  l ∈ laps ∧ Driver l = driver ∧ is_Some (LapTime l).
Proof.
  unfold valid_laps, dropna, of_driver. rewrite !elem_of_filter_bool.
  destruct (String.eqb_spec (Driver l) driver), (LapTime l);
    split; intros; destruct_and?; try done;
    try (by exfalso; eapply is_Some_None); repeat split; eauto.
Qed.

Lemma elem_of_insert_sorted (x y : Q) (xs : list Q) :
  y ∈ insert_sorted x xs ↔ y = x ∨ y ∈ xs.
Proof.
  induction xs as [|z xs IH]; simpl.
  - rewrite list_elem_of_singleton, elem_of_nil. tauto.
  - destruct (Qle_bool x z); rewrite !elem_of_cons, ?IH; tauto.
Qed.


Lemma length_insert_sorted (x : Q) (xs : list Q) :
  length (insert_sorted x xs) = S (length xs).
Proof.
  induction xs as [|z xs IH]; simpl; [done|].
  destruct (Qle_bool x z); simpl; by rewrite ?IH.
Qed.

Lemma length_sort_values (xs : list Q) : length (sort_values xs) = length xs.
Proof.
  induction xs as [|x xs IH]; simpl; [done|].
  by rewrite length_insert_sorted, IH.
Qed.

Lemma insert_sorted_perm (x : Q) (xs : list Q) : insert_sorted x xs ≡ₚ x :: xs.
Proof.
  induction xs as [|y xs IH]; simpl; [done|].
  destruct (Qle_bool x y); [done|]. rewrite IH. apply Permutation_swap.
Qed.

Lemma sort_values_perm (xs : list Q) : sort_values xs ≡ₚ xs.
Proof.
  induction xs as [|x xs IH]; simpl; [done|].
  by rewrite insert_sorted_perm, IH.
Qed.

Lemma insert_sorted_sorted (x : Q) (xs : list Q) :
  StronglySorted Qle xs → StronglySorted Qle (insert_sorted x xs).
Proof.
  induction 1 as [|y xs Hs IH Hall]; simpl; [by repeat constructor|].
  destruct (Qle_bool x y) eqn:E.
  - apply Qle_bool_iff in E. constructor; [by constructor|].
    constructor; [done|]. eapply Forall_impl; [exact Hall|].
    intros z Hz. by eapply Qle_trans.
  - assert (y <= x)%Q as Hyx.
    { apply Qlt_le_weak, Qnot_le_lt. intros Hle.
      apply Qle_bool_iff in Hle. congruence. }
    constructor; [done|]. apply Forall_forall. intros z Hz.
    apply elem_of_insert_sorted in Hz as [->|Hz]; [done|].
    rewrite Forall_forall in Hall. by apply Hall.
Qed.

Lemma sort_values_sorted (xs : list Q) : StronglySorted Qle (sort_values xs).
Proof.
  induction xs as [|x xs IH]; simpl; [constructor|].
  by apply insert_sorted_sorted.
Qed.


Lemma filter_Prop_all {A} (P : A → Prop) `{∀ x, Decision (P x)} (l : list A) :
  (∀ x, x ∈ l → P x) → filter P l = l.
Proof.
  induction l as [|x l IH]; intros Hall; [done|]. rewrite filter_cons.
  rewrite decide_True by (apply Hall; by left).
  f_equal. apply IH. intros y Hy. apply Hall. by right.
Qed.

(** *** The median *)

Lemma half_between (a b : Q) :
  (a <= b)%Q → (a <= (a + b) / 2)%Q ∧ ((a + b) / 2 <= b)%Q.
Proof.
  intros. assert ((a + b) / 2 == (a + b) * (1 # 2))%Q as Hhalf by field.
  rewrite Hhalf. split; lra.
Qed.

Lemma sorted_lookup_le_eq (xs : list Q) (i j : nat) (x y : Q) :
  StronglySorted Qle xs → (i ≤ j)%nat →
  xs !! i = Some x → xs !! j = Some y → (x <= y)%Q.
Proof.
  intros Hs Hij Hi Hj. destruct (decide (i = j)) as [->|Hne].
  - rewrite Hi in Hj. injection Hj as <-. apply Qle_refl.
  - apply (sorted_lookup_le xs Hs i j); [lia|done..].
Qed.

Lemma filter_prefix_all (P : Q → Prop) `{∀ x, Decision (P x)} (s : list Q)
    (j : nat) :
  (∀ i x, (i < j)%nat → s !! i = Some x → P x) →
  (Nat.min j (length s) ≤ length (filter P s))%nat.
Proof.
  intros Hall. rewrite <- (take_drop j s) at 2. rewrite filter_app, length_app.
  rewrite filter_Prop_all, length_take; [lia|].
  intros x [i Hi]%list_elem_of_lookup.
  apply lookup_take_Some in Hi as [Hi Hlt]. by apply (Hall i).
Qed.

Lemma filter_suffix_all (P : Q → Prop) `{∀ x, Decision (P x)} (s : list Q)
    (j : nat) :
  (∀ i x, (j ≤ i)%nat → s !! i = Some x → P x) →
  (length s - j ≤ length (filter P s))%nat.
Proof.
  intros Hall. rewrite <- (take_drop j s) at 2. rewrite filter_app, length_app.
  rewrite (filter_Prop_all P (drop j s)), length_drop; [lia|].
  intros x [i Hi]%list_elem_of_lookup.
  rewrite lookup_drop in Hi. apply (Hall (j + i)%nat); [lia|done].
Qed.

(** The value [median] returns splits the series in halves: at least half of
    the values are at most the median, and at least half are at least it. *)
Lemma median_halves (xs : list Q) (m : Q) :
  median xs = Some m →
  (length xs ≤ 2 * length (filter (λ x, (x <= m)%Q) xs))%nat ∧
  (length xs ≤ 2 * length (filter (λ x, (m <= x)%Q) xs))%nat.
Proof.
  intros Hm. unfold median in Hm. cbv zeta in Hm.
  pose proof (sort_values_sorted xs) as Hs.
  pose proof (length_sort_values xs) as Hlen.
  rewrite <- !(Permutation_length
                 (filter_Permutation _ _ _ (sort_values_perm xs))).
  rewrite <- Hlen. clear Hlen.
  destruct (sort_values xs) as [|x0 s] eqn:E; [done|].
  set (n := length (x0 :: s)) in *.
  assert (0 < n)%nat as Hn by (unfold n; simpl; lia).
  destruct (Nat.even n) eqn:Heven.
  - apply Nat.even_spec in Heven as [k Hk].
    replace (n / 2)%nat with k in Hm by (rewrite Hk, Nat.mul_comm; by rewrite Nat.div_mul).
    destruct (lookup_lt_is_Some_2 (x0 :: s) (k - 1)) as [a Ha]; [fold n; lia|].
    destruct (lookup_lt_is_Some_2 (x0 :: s) k) as [b Hb]; [fold n; lia|].
    rewrite (nth_lookup_Some _ _ _ _ Ha), (nth_lookup_Some _ _ _ _ Hb) in Hm.
    apply (inj Some) in Hm.
    assert (a <= b)%Q as Hab.
    { apply (sorted_lookup_le_eq _ (k - 1) k _ _ Hs); [lia|done..]. }
    destruct (half_between a b Hab) as [Hlo Hhi]. rewrite Hm in Hlo, Hhi.
    split.
    + pose proof (filter_prefix_all (λ x, (x <= m)%Q) (x0 :: s) k) as Hp.
      fold n in Hp. cut (Nat.min k n ≤ length (filter (λ x, (x <= m)%Q) (x0 :: s)))%nat;
        [lia|].
      apply Hp. intros i x Hi Hx. apply (Qle_trans _ a); [|done].
      apply (sorted_lookup_le_eq _ i (k - 1) _ _ Hs); [lia|done..].
    + pose proof (filter_suffix_all (λ x, (m <= x)%Q) (x0 :: s) k) as Hp.
      fold n in Hp. cut (n - k ≤ length (filter (λ x, (m <= x)%Q) (x0 :: s)))%nat;
        [lia|].
      apply Hp. intros i x Hi Hx. apply (Qle_trans _ b); [done|].
      apply (sorted_lookup_le_eq _ k i _ _ Hs); [lia|done..].
  - assert (Nat.odd n = true) as [k Hk]%Nat.odd_spec.
    { by rewrite <- Nat.negb_even, Heven. }
    assert (n / 2 = k)%nat as Hdiv.
    { rewrite Hk. symmetry. apply (Nat.div_unique _ 2 k 1); lia. }
    rewrite Hdiv in Hm.
    destruct (lookup_lt_is_Some_2 (x0 :: s) k) as [b Hb]; [fold n; lia|].
    rewrite (nth_lookup_Some _ _ _ _ Hb) in Hm. apply (inj Some) in Hm. subst b.
    split.
    + pose proof (filter_prefix_all (λ x, (x <= m)%Q) (x0 :: s) (S k)) as Hp.
      fold n in Hp.
      cut (Nat.min (S k) n ≤ length (filter (λ x, (x <= m)%Q) (x0 :: s)))%nat;
        [lia|].
      apply Hp. intros i x Hi Hx.
      apply (sorted_lookup_le_eq _ i k _ _ Hs); [lia|done..].
    + pose proof (filter_suffix_all (λ x, (m <= x)%Q) (x0 :: s) k) as Hp.
      fold n in Hp. cut (n - k ≤ length (filter (λ x, (m <= x)%Q) (x0 :: s)))%nat;
        [lia|].
      apply Hp. intros i x Hi Hx.
      apply (sorted_lookup_le_eq _ k i _ _ Hs); [lia|done..].
Qed.



(** *** The pace summary *)

Lemma length_total_seconds_dropna (laps : list Lap) :
  length (total_seconds (dropna laps)) = length (dropna laps).
Proof.
  unfold total_seconds, dropna. induction laps as [|l laps IH]; simpl; [done|].
  destruct (LapTime l) eqn:E; simpl; [|done]. rewrite E. simpl. f_equal. exact IH.
Qed.










Lemma mean_spec (xs : list Q) :
  xs ≠ [] → ∃ m, mean xs = Float m ∧ (m * count xs == sum xs)%Q.
Proof.
  intros Hne. destruct xs as [|x xs]; [done|].
  eexists. split; [done|]. field. unfold count.
  change 0%Q with (inject_Z 0). rewrite inject_Z_injective. simpl. lia.
Qed.


Lemma pace_loop_lookup (laps : list Lap) (d : string) (drivers : list string) :
  ∀ acc,
    pace_loop laps drivers acc !! d
    = match (if decide (d ∈ drivers) then pace_of_driver laps d else None) with
      | Some r => Some r
      | None => acc !! d
      end.
Proof.
  induction drivers as [|x ds IH]; intros acc; simpl; [done|].
  destruct (decide (d = x)) as [->|Hne].
  - rewrite decide_True by (by left).
    destruct (pace_of_driver laps x) as [r|] eqn:E; rewrite IH.
    + case_decide; rewrite ?E; [done|]. by rewrite lookup_insert_eq.
    + case_decide; by rewrite ?E.
  - destruct (pace_of_driver laps x) as [r|] eqn:E; rewrite IH.
    + case_decide as Hin.
      * rewrite decide_True by (by right).
        destruct (pace_of_driver laps d); [done|]. by rewrite lookup_insert_ne.
      * rewrite decide_False by (intros [?|?]%elem_of_cons; done).
        by rewrite lookup_insert_ne.
    + case_decide as Hin.
      * by rewrite decide_True by (by right).
      * by rewrite decide_False by (intros [?|?]%elem_of_cons; done).
Qed.

Lemma generate_race_pace_analysis_lookup (laps : list Lap) (d : string) :
  generate_race_pace_analysis laps !! d = pace_of_driver laps d.
Proof.
  unfold generate_race_pace_analysis. rewrite pace_loop_lookup, lookup_empty.
  case_decide as Hin; [by destruct (pace_of_driver laps d)|].
  unfold pace_of_driver.
  destruct (dropna (of_driver d laps)) as [|l ls] eqn:E; [done|].
  exfalso. apply Hin. apply elem_of_unique.
  assert (l ∈ valid_laps d laps) as Hl by (unfold valid_laps; rewrite E; by left).
  apply elem_of_valid_laps in Hl as (Hl & <- & _).
  apply list_elem_of_fmap. by exists l.
Qed.



(** *** Tyre degradation *)

Lemma count_cons (x : Q) (xs : list Q) : (count (x :: xs) == count xs + 1)%Q.
Proof.
  unfold count. simpl length. rewrite Nat2Z.inj_succ. unfold Z.succ.
  by rewrite inject_Z_plus.
Qed.

Lemma sum_residuals (a b : Q) (x : list Q) : ∀ y,
  length x = length y →
  (sum (residuals a b x y) == a * sum x + b * count x - sum y)%Q ∧
  (sum (zip_with Qmult (residuals a b x y) x)
   == a * sum (zip_with Qmult x x) + b * sum x - sum (zip_with Qmult x y))%Q.
Proof.
  induction x as [|xi x IH]; intros [|yi y] Hlen; simplify_eq/=.
  - unfold count. simpl. split; ring.
  - destruct (IH y Hlen) as [IH1 IH2].
    change (foldr Qplus 0%Q ?l) with (sum l) in *.
    fold (residuals a b x y). rewrite IH1, IH2, count_cons. split; ring.
Qed.

(** [lstsq_slope] is the slope of the least-squares line: with the matching
    intercept, the residuals sum to zero and are orthogonal to the abscissas
    (the normal equations), whenever the abscissas are not all equal. *)
Lemma lstsq_slope_normal_equations (x y : list Q) :
  length x = length y →
  ¬ (count x * sum (zip_with Qmult x x) - sum x * sum x == 0)%Q →
  ¬ (count x == 0)%Q →
  let a := lstsq_slope x y in
  let b := lstsq_intercept x y in
  (sum (residuals a b x y) == 0)%Q ∧
  (sum (zip_with Qmult (residuals a b x y) x) == 0)%Q.
Proof.
  intros Hlen Hdet Hn a b.
  destruct (sum_residuals a b x y Hlen) as [-> ->].
  unfold a, b, lstsq_intercept, lstsq_slope. split; field; done.
Qed.

(** The fitted slopes of the specification's examples: laps
    [80, 81, 82, 83] get slower by one second per lap, laps
    [83, 82, 81, 80] faster by one second per lap; a compound with fewer
    than three laps reports 0.0. *)
Lemma degradation_examples (nan_raises : bool) :
  (∃ a, analyze_tire_performance nan_raises rising_session !! "HARD"
        = Some (Float a) ∧ (a == 1)%Q) ∧
  (∃ a, analyze_tire_performance nan_raises falling_session !! "HARD"
        = Some (Float a) ∧ (a == -1)%Q) ∧
  _calculate_degradation nan_raises (take 2 rising_session) = Float 0.
Proof.
  destruct nan_raises; (split; [|split]);
    try (eexists; split; [vm_compute; reflexivity|reflexivity]);
    reflexivity.
Qed.

(** C5, on the code.  A driver who runs two separate stints on the same
    compound gets one line fitted through the laps of both stints: on
    SOFT laps 1-3 and 7-9, each stint slowing by exactly one second per
    lap, the reported rate is 2/29, not 1. *)
Theorem degradation_merges_stints (nan_raises : bool) :
  (∃ a, analyze_tire_performance nan_raises two_stint_session !! "SOFT"
        = Some (Float a) ∧ (a == 2 # 29)%Q ∧ ¬ (a == 1)%Q) ∧
  (lstsq_slope [1; 2; 3] [80; 81; 82] == 1)%Q ∧
  (lstsq_slope [7; 8; 9] [80; 81; 82] == 1)%Q.
Proof.
  split; [|split; reflexivity].
  destruct nan_raises; (eexists; split; [vm_compute; reflexivity|]);
    (split; [reflexivity|discriminate]).
Qed.

(** C9, on the code.  [_calculate_degradation] does not drop a lap without
    a lap time: the lap counts towards the three laps a driver needs, and
    its NaN reaches [np.polyfit].  The reported rate of the stint
    [80, NaT, 82, 83] is then NaN (or 0.0, when the solver raises on the
    NaN and the exception is swallowed), while the three laps with a time
    alone give the slope 1. *)
Theorem missing_lap_time_reaches_fit :
  analyze_tire_performance false missing_time_session !! "SOFT" = Some NaN ∧
  analyze_tire_performance true missing_time_session !! "SOFT"
  = Some (Float 0) ∧
  (∀ nan_raises, ∃ a,
     analyze_tire_performance nan_raises (dropna missing_time_session) !! "SOFT"
     = Some (Float a) ∧ (a == 1)%Q).
Proof.
  split; [reflexivity|]. split; [reflexivity|].
  intros []; (eexists; split; [vm_compute; reflexivity|reflexivity]).
Qed.

(** The two analyses of [advanced_analyzer.py] do drop such laps first:
    their results only depend on the laps that have a lap time. *)
Lemma valid_laps_dropna (driver : string) (laps : list Lap) :
  valid_laps driver (dropna laps) = valid_laps driver laps.
Proof.
  unfold valid_laps, dropna, of_driver.
  induction laps as [|l laps IH]; simpl; [done|].
  destruct (LapTime l) eqn:E; simpl;
    destruct (Driver l =? driver)%string; simpl; rewrite ?E, ?IH; done.
Qed.

Lemma pace_analysis_ignores_missing_times (laps : list Lap) :
  generate_race_pace_analysis (dropna laps) = generate_race_pace_analysis laps.
Proof.
  apply map_eq. intros d. rewrite !generate_race_pace_analysis_lookup.
  unfold pace_of_driver. fold (valid_laps d (dropna laps)) (valid_laps d laps).
  by rewrite valid_laps_dropna.
Qed.

End StatsProofs.

(** ** More on the live monitor: the polling loop and the queries *)

Module LiveLoopProofs.
Import Py PyFacts Live LiveProofs.

Lemma stop_monitoring_consistent (st : Monitor) :
  consistent st → consistent (stop_monitoring st).
Proof. intros (sd & ? & ? & ?). by exists sd. Qed.

(** Whatever the ticks bring (failed fetches, stop requests), the loop
    keeps the invariant of a started monitor. *)
Lemma polling_loop_consistent (ticks : list Tick) : ∀ st calls,
  consistent st → consistent (polling_loop ticks st calls).1.
Proof.
  induction ticks as [|t ticks IH]; intros st calls Hst; simpl; [done|].
  destruct (is_monitoring st); [|by apply stop_monitoring_consistent].
  destruct (fetched t) as [d|].
  - destruct (process_consistent d st Hst) as (st1 & -> & Hst1).
    apply IH. destruct (stop_requested t); [|done].
    by apply stop_monitoring_consistent.
  - apply IH. destruct (stop_requested t); [|done].
    by apply stop_monitoring_consistent.
Qed.

Lemma start_monitoring_eq (info : string) (now : Q) (ticks : list Tick)
    (st0 : Monitor) :
  start_monitoring info now ticks st0
  = polling_loop ticks (started info now st0) [].
Proof. reflexivity. Qed.

(** Once [start_monitoring] has run, for any ticks, none of the four
    queries raises; a monitor whose session data were never set up
    ([__init__], whatever callbacks were added or removed since) makes every
    one of them, and [_process_live_data], raise KeyError and stay as it is. *)
Theorem queries_raise_only_before_start :
  (∀ (info : string) (now now' : Q) (ticks : list Tick) (st0 : Monitor)
     (drv : string) (n : Z),
     let st := (start_monitoring info now ticks st0).1 in
     (∃ rows, get_current_standings st = Done st rows) ∧
     (∃ h, get_driver_history drv n st = Done st h) ∧
     (∃ h, get_weather_history n st = Done st h) ∧
     (∃ s, get_session_statistics now' st = Done st s)) ∧
  (∀ (cbs : list nat) (flag : bool) (now' : Q) (drv : string) (n : Z)
     (data : LiveData) (cb : nat),
     let st := {| is_monitoring := flag; session_data := None;
                  callbacks := cbs; update_interval := 5 |} in
     get_current_standings st = Raised (KeyError "timing_data") st ∧
     get_driver_history drv n st = Raised (KeyError "timing_data") st ∧
     get_weather_history n st = Raised (KeyError "weather_data") st ∧
     get_session_statistics now' st = Raised (KeyError "timing_data") st ∧
     _process_live_data data st = Raised (KeyError "timing_data") st ∧
     session_data (add_callback cb st) = None ∧
     session_data (remove_callback cb st) = None ∧
     session_data (stop_monitoring st) = None).
Proof.
  split.
  - intros info now now' ticks st0 drv n st.
    assert (consistent st) as (sd & Hsd & Hdom & Hsz).
    { unfold st. rewrite start_monitoring_eq.
      apply polling_loop_consistent, started_consistent. }
    split; [by apply (get_current_standings_Done st sd)|].
    split.
    { destruct (get_driver_history_spec drv n st sd Hsd) as (h & ? & _). eauto. }
    split.
    { destruct (get_weather_history_spec n st sd Hsd) as (h & ? & _). eauto. }
    unfold get_session_statistics. rewrite Hsd.
    destruct (decide (size (timing_data sd) = 0)%nat); [eauto|].
    destruct (get_current_standings_Done st sd Hsd) as [rows ->]. eauto.
  - intros cbs flag now' drv n data cb st. repeat split; try done.
    unfold remove_callback. by case_decide.
Qed.

(** A tick that never asks to stop. *)
Lemma polling_loop_no_stop (ticks : list Tick) : ∀ st calls,
  consistent st →
  is_monitoring st = true →
  Forall (λ t, stop_requested t = false) ticks →
  ∃ st', process_all (omap fetched ticks) st = Done st' tt ∧
         is_monitoring st' = true ∧
         callbacks st' = callbacks st ∧
         polling_loop ticks st calls
         = (st', calls ++ notifications (callbacks st) (omap fetched ticks)).
Proof.
  induction ticks as [|t ticks IH]; intros st calls Hst Hrun Hall.
  { exists st. simpl. by rewrite app_nil_r. }
  apply Forall_cons in Hall as [Ht Hall]. simpl. rewrite Hrun, Ht.
  destruct (fetched t) as [d|]; simpl.
  - destruct (process_consistent d st Hst) as (st1 & Hp & Hst1).
    destruct (process_keeps_flags d st st1 Hst Hp) as [Hflag Hcbs].
    rewrite Hp.
    destruct (IH st1 (calls ++ _notify_callbacks st1 d) Hst1)
      as (st' & Hall' & Hrun' & Hcbs' & Hloop); [by rewrite Hflag|done|].
    exists st'. split; [done|]. split; [done|]. split; [by rewrite Hcbs'|].
    rewrite Hloop. unfold _notify_callbacks. rewrite Hcbs.
    by rewrite <- (assoc_L (++)).
  - by apply IH.
Qed.

(** A failed fetch neither stops the loop nor touches the history: with
    no stop request, the monitor ends up, still running, exactly where
    processing the fetched snapshots alone leads, and every callback has been
    called once per fetched snapshot, in registration order. *)
Theorem failed_polls_are_skipped (info : string) (now : Q) (st0 : Monitor)
    (ticks : list Tick) :
  Forall (λ t, stop_requested t = false) ticks →
  ∃ st', process_all (omap fetched ticks) (started info now st0) = Done st' tt ∧
         is_monitoring st' = true ∧
         start_monitoring info now ticks st0
         = (st', notifications (callbacks st0) (omap fetched ticks)).
Proof.
  intros Hall. rewrite start_monitoring_eq.
  destruct (polling_loop_no_stop ticks (started info now st0) [])
    as (st' & Hp & Hrun & _ & Hloop); [apply started_consistent|done|done|].
  exists st'. split; [done|]. split; [done|]. exact Hloop.
Qed.

(** A tick of the sample feed whose fetch failed. *)
Lemma failed_polls_are_skipped_witness :
  Forall (λ t, stop_requested t = false)
    [successful (sample_snapshot 0);
     {| fetched := None; stop_requested := false |};
     successful (sample_snapshot 1)] ∧
  ∃ st',
    process_all [sample_snapshot 0; sample_snapshot 1]
      (started "R" 0 (add_callback 7%nat init)) = Done st' tt ∧
    start_monitoring "R" 0
      [successful (sample_snapshot 0);
       {| fetched := None; stop_requested := false |};
       successful (sample_snapshot 1)] (add_callback 7%nat init)
    = (st', [(7%nat, sample_timestamp 0); (7%nat, sample_timestamp 1)]).
Proof.
  assert (Forall (λ t, stop_requested t = false)
            [successful (sample_snapshot 0);
             {| fetched := None; stop_requested := false |};
             successful (sample_snapshot 1)]) as Hall
    by (repeat constructor).
  split; [exact Hall|].
  destruct (failed_polls_are_skipped "R" 0 (add_callback 7%nat init) _ Hall)
    as (st' & Hp & _ & Hloop).
  exists st'. split; [exact Hp|]. exact Hloop.
Defined.

Lemma polling_loop_stopped (ticks : list Tick) (st : Monitor)
    (calls : list (nat * string)) :
  is_monitoring st = false →
  polling_loop ticks st calls = (st, calls).
Proof.
  intros Hoff. destruct ticks as [|t ticks]; simpl; [done|].
  rewrite Hoff. by destruct st; simplify_eq/=.
Qed.

Lemma polling_loop_app_stop (pre : list Tick) : ∀ st calls t post,
  consistent st →
  Forall (λ t, stop_requested t = false) pre →
  stop_requested t = true →
  polling_loop (pre ++ t :: post) st calls = polling_loop (pre ++ [t]) st calls ∧
  is_monitoring (polling_loop (pre ++ [t]) st calls).1 = false.
Proof.
  induction pre as [|p pre IH]; intros st calls t post Hst Hall Ht.
  - simpl. destruct (is_monitoring st) eqn:Hrun; [|done].
    rewrite Ht. destruct (fetched t) as [d|].
    + destruct (_process_live_data d st) as [st1 []|e st1]; [|done].
      by rewrite !polling_loop_stopped.
    + by rewrite !polling_loop_stopped.
  - apply Forall_cons in Hall as [Hp Hall]. simpl.
    destruct (is_monitoring st) eqn:Hrun; [|done]. rewrite Hp.
    destruct (fetched p) as [d|].
    + destruct (process_consistent d st Hst) as (st1 & -> & Hst1).
      by apply IH.
    + by apply IH.
Qed.

(** After the tick during which [stop_monitoring] was called, the loop
    leaves: later ticks change neither the history nor the callback log, and
    the monitor is no longer running. *)
Theorem stop_ends_the_loop (info : string) (now : Q) (st0 : Monitor)
    (pre : list Tick) (t : Tick) (post : list Tick) :
  Forall (λ t, stop_requested t = false) pre →
  stop_requested t = true →
  start_monitoring info now (pre ++ t :: post) st0
  = start_monitoring info now (pre ++ [t]) st0 ∧
  is_monitoring (start_monitoring info now (pre ++ t :: post) st0).1 = false ∧
  ∃ st', process_all (omap fetched (pre ++ [t])) (started info now st0)
         = Done st' tt ∧
         session_data (start_monitoring info now (pre ++ t :: post) st0).1
         = session_data st'.
Proof.
  intros Hall Ht. rewrite !start_monitoring_eq.
  destruct (polling_loop_app_stop pre (started info now st0) [] t post)
    as [Heq Hoff]; [apply started_consistent|done|done|].
  rewrite Heq. split; [done|]. split; [done|].
  destruct (polling_loop_no_stop pre (started info now st0) [])
    as (st1 & Hp & Hrun & _ & Hloop); [apply started_consistent|done|done|].
  rewrite omap_app, (process_all_app _ _ _ _ Hp).
  clear Heq Hoff.
  assert (consistent st1) as Hst1.
  { destruct (process_all_consistent (omap fetched pre) (started info now st0))
      as (st2 & Hp2 & Hst2); [apply started_consistent|].
    rewrite Hp in Hp2. by simplify_eq. }
  revert Hloop. generalize (notifications (callbacks (started info now st0))
                              (omap fetched pre)). intros calls Hloop.
  assert (∀ ticks2 st calls0,
    polling_loop pre (started info now st0) [] = (st, calls0) →
    polling_loop (pre ++ ticks2) (started info now st0) []
    = polling_loop ticks2 st calls0) as Happ.
  { clear. generalize (started info now st0). generalize (@nil (nat * string)).
    induction pre as [|p pre IH]; intros c s ticks2 st calls0; simpl.
    - by intros [= -> ->].
    - destruct (is_monitoring s) eqn:E.
      + destruct (fetched p); [|apply IH].
        destruct (_process_live_data l s) as [? []|]; [apply IH|].
        intros [= <- <-]. by rewrite polling_loop_stopped.
      + intros [= <- <-]. rewrite polling_loop_stopped; [done|].
        by destruct s. }
  rewrite (Happ [t] st1 _ Hloop). simpl. rewrite Hrun, Ht.
  destruct (fetched t) as [d|]; simpl.
  - destruct (process_consistent d st1 Hst1) as (st2 & -> & Hst2).
    by exists st2.
  - by exists st1.
Qed.

Lemma stop_ends_the_loop_witness :
  Forall (λ t, stop_requested t = false) [successful (sample_snapshot 0)] ∧
  stop_requested {| fetched := Some (sample_snapshot 1);
                    stop_requested := true |} = true ∧
  is_monitoring
    (start_monitoring "R" 0
       ([successful (sample_snapshot 0)]
        ++ {| fetched := Some (sample_snapshot 1); stop_requested := true |}
        :: [successful (sample_snapshot 2)]) init).1 = false.
Proof.
  assert (Forall (λ t, stop_requested t = false)
            [successful (sample_snapshot 0)]) as Hall by (repeat constructor).
  split; [exact Hall|]. split; [reflexivity|].
  exact (proj1 (proj2 (stop_ends_the_loop "R" 0 init _
                         {| fetched := Some (sample_snapshot 1);
                            stop_requested := true |}
                         [successful (sample_snapshot 2)] Hall eq_refl))).
Defined.

End LiveLoopProofs.

(** ** More on the live monitor: callbacks and history queries *)

Module LiveQueryProofs.
Import Py PyFacts Live LiveProofs.

Lemma list_remove_first_absent (x : nat) (l : list nat) :
  x ∉ l → list_remove_first x l = l.
Proof.
  induction l as [|y l IH]; simpl; [done|].
  intros Hx. apply not_elem_of_cons in Hx as [Hne Hx].
  case_decide; [done|]. by rewrite IH.
Qed.




Lemma StronglySorted_le_NoDup_slt (l : list string) :
  StronglySorted String.le l → NoDup l → StronglySorted slt l.
Proof.
  induction 1 as [|x l Hs IH Hall]; intros Hnd; constructor.
  - apply IH. by apply NoDup_cons in Hnd as [_ ?].
  - apply NoDup_cons in Hnd as [Hx _].
    apply Forall_forall. intros y Hy. apply ltb_iff. split.
    + by apply (proj1 (Forall_forall _ _) Hall).
    + by intros ->.
Qed.

Lemma sorted_keys_strict {V} (store : gmap string V) :
  StronglySorted slt (sorted (keys store)).
Proof.
  apply StronglySorted_le_NoDup_slt; [apply sorted_StronglySorted|].
  rewrite sorted_perm. apply NoDup_keys.
Qed.

Lemma last_n_suffix {A} (n : Z) (l : list A) : last_n n l `suffix_of` l.
Proof. apply suffix_drop. Qed.

Lemma length_last_n {A} (n : Z) (l : list A) :
  length (last_n n l)
  = if 0 <? n then Nat.min (Z.to_nat n) (length l)
    else (length l - Z.to_nat (- n))%nat.
Proof.
  unfold last_n, slice_from. rewrite length_drop.
  destruct (Z.ltb_spec 0 n), (Z.ltb_spec (- n) 0); lia.
Qed.

(** The window [sorted(keys)[-data_points:]] of the two history queries:
    the timestamps come in strictly increasing order, all of them are stored,
    and every stored timestamp left out is older than every one in the
    window.  A positive [data_points] gives the [min(data_points, size)] most
    recent ones; [data_points = 0] gives the whole history, not an empty one,
    and a negative value drops the oldest [-data_points]. *)
Theorem window_most_recent {V} (store : gmap string V) (n : Z) :
  StronglySorted slt (window store n) ∧
  (∀ ts, ts ∈ window store n → ts ∈ dom store) ∧
  length (window store n)
  = (if 0 <? n then Nat.min (Z.to_nat n) (size store)
     else (size store - Z.to_nat (- n))%nat) ∧
  (∀ old ts, old ∈ dom store → old ∉ window store n → ts ∈ window store n →
             slt old ts).
Proof.
  pose proof (sorted_keys_strict store) as Hs.
  destruct (last_n_suffix n (sorted (keys store))) as [p Hp].
  fold (window store n) in Hp.
  split; [|split; [|split]].
  - rewrite Hp in Hs. by apply StronglySorted_app_1_r in Hs.
  - apply elem_of_window.
  - unfold window. rewrite length_last_n.
    pose proof (Permutation_length (sorted_perm (keys store))) as Hlen.
    rewrite length_keys in Hlen. by rewrite Hlen.
  - intros old ts Hold Hnot Hts.
    assert (old ∈ sorted (keys store)) as Hin.
    { rewrite sorted_perm. by apply elem_of_keys. }
    rewrite Hp in Hs, Hin. apply elem_of_app in Hin as [Hin|Hin]; [|done].
    by apply (StronglySorted_app_1_elem_of _ _ _ _ _ Hs).
Qed.

Lemma weather_history_loop_rows (wd : gmap string Weather)
    (tss : list string) : ∀ h,
  (∀ ts, ts ∈ tss → ts ∈ dom wd) →
  ∃ ws, Forall2 (λ ts w, wd !! ts = Some w) tss ws ∧
        weather_history_loop wd tss h
        = inr {| wh_timestamps := wh_timestamps h ++ tss;
                 wh_air_temp := wh_air_temp h ++ (air_temperature <$> ws);
                 wh_track_temp := wh_track_temp h ++ (track_temperature <$> ws);
                 wh_humidity := wh_humidity h ++ (humidity <$> ws);
                 wh_wind_speed := wh_wind_speed h ++ (wind_speed <$> ws);
                 wh_rainfall := wh_rainfall h ++ (rainfall <$> ws) |}.
Proof.
  induction tss as [|ts tss IH]; intros h Hin; simpl.
  - exists []. split; [constructor|]. simpl. rewrite !app_nil_r. by destruct h.
  - destruct (proj1 (elem_of_dom wd ts)) as [w Hw]; [apply Hin; by left|].
    rewrite Hw.
    edestruct IH as (ws & Hall & ->); [intros; apply Hin; by right|].
    exists (w :: ws). split; [by constructor|]. simpl.
    by rewrite <- !(assoc_L (++)).
Qed.

(** [get_weather_history] on a started monitor never raises and returns
    six lists that line up: entry [i] of each measurement list is that
    measurement of the weather stored at entry [i] of [timestamps], and
    [timestamps] is the window of the most recent keys. *)
Theorem weather_history_rows (n : Z) (st : Monitor) (sd : SessionData) :
  session_data st = Some sd →
  ∃ ws, Forall2 (λ ts w, weather_data sd !! ts = Some w)
          (window (weather_data sd) n) ws ∧
        get_weather_history n st
        = Done st {| wh_timestamps := window (weather_data sd) n;
                     wh_air_temp := air_temperature <$> ws;
                     wh_track_temp := track_temperature <$> ws;
                     wh_humidity := humidity <$> ws;
                     wh_wind_speed := wind_speed <$> ws;
                     wh_rainfall := rainfall <$> ws |}.
Proof.
  intros Hsd. unfold get_weather_history. rewrite Hsd.
  edestruct (weather_history_loop_rows (weather_data sd)
               (window (weather_data sd) n)) as (ws & Hall & ->);
    [intros ts; apply elem_of_window|].
  by exists ws.
Qed.

Lemma weather_history_rows_witness :
  session_data (with_session init (retained "R" 0 (sample_feed 3)))
  = Some (retained "R" 0 (sample_feed 3)) ∧
  ∃ ws h, get_weather_history 2
            (with_session init (retained "R" 0 (sample_feed 3)))
          = Done (with_session init (retained "R" 0 (sample_feed 3))) h ∧
          wh_air_temp h = air_temperature <$> ws ∧
          wh_rainfall h = rainfall <$> ws.
Proof.
  split; [reflexivity|].
  destruct (weather_history_rows 2
              (with_session init (retained "R" 0 (sample_feed 3)))
              (retained "R" 0 (sample_feed 3)) eq_refl) as (ws & Hall & Heq).
  exists ws. eexists. split; [exact Heq|]. split; reflexivity.
Defined.

Lemma driver_history_loop_rows (td : gmap string (list DriverTiming))
    (d : string) (tss : list string) : ∀ h,
  (∀ ts, ts ∈ tss → ts ∈ dom td) →
  ∃ rows,
    Forall2 (λ ts row, ∃ timing,
               td !! ts = Some timing ∧
               List.find (λ dd, bool_decide (driver dd = d)) timing = Some row)
      (List.filter (lists_driver td d) tss) rows ∧
    driver_history_loop td d tss h
    = inr {| dh_timestamps :=
               dh_timestamps h ++ List.filter (lists_driver td d) tss;
             dh_lap_times := dh_lap_times h ++ (last_lap_time <$> rows);
             dh_positions := dh_positions h ++ (position <$> rows);
             dh_gaps := dh_gaps h ++ (gap_to_leader <$> rows);
             dh_tire_ages := dh_tire_ages h ++ (tire_age <$> rows) |}.
Proof.
  induction tss as [|ts tss IH]; intros h Hin; simpl.
  - exists []. split; [constructor|]. simpl. rewrite !app_nil_r. by destruct h.
  - destruct (proj1 (elem_of_dom td ts)) as [timing Ht]; [apply Hin; by left|].
    assert (lists_driver td d ts
            = match List.find (λ dd, bool_decide (driver dd = d)) timing with
              | Some _ => true
              | None => false
              end) as Hld.
    { unfold lists_driver. by rewrite Ht, find_existsb. }
    rewrite Ht, Hld.
    destruct (List.find _ timing) as [dd|] eqn:Hfind.
    + edestruct IH as (rows & Hall & ->); [intros; apply Hin; by right|].
      exists (dd :: rows). split; [constructor; [by exists timing|done]|].
      simpl. by rewrite <- !(assoc_L (++)).
    + edestruct IH as (rows & Hall & ->); [intros; apply Hin; by right|].
      by exists rows.
Qed.

(** [get_driver_history] on a started monitor never raises and returns five
    lists that line up: [timestamps] holds the timestamps of the window whose
    snapshot lists the driver, and entry [i] of the other lists is read from
    the first row for the driver in the snapshot stored at entry [i] of
    [timestamps]; for a driver no snapshot lists, all five are empty. *)
Theorem driver_history_rows (d : string) (n : Z) (st : Monitor)
    (sd : SessionData) :
  session_data st = Some sd →
  ∃ rows,
    Forall2 (λ ts row, ∃ timing,
               timing_data sd !! ts = Some timing ∧
               List.find (λ dd, bool_decide (driver dd = d)) timing = Some row)
      (List.filter (lists_driver (timing_data sd) d)
         (window (timing_data sd) n)) rows ∧
    get_driver_history d n st
    = Done st {| dh_timestamps :=
                   List.filter (lists_driver (timing_data sd) d)
                     (window (timing_data sd) n);
                 dh_lap_times := last_lap_time <$> rows;
                 dh_positions := position <$> rows;
                 dh_gaps := gap_to_leader <$> rows;
                 dh_tire_ages := tire_age <$> rows |} ∧
    ((∀ ts timing dd, timing_data sd !! ts = Some timing → dd ∈ timing →
                      driver dd ≠ d) → rows = []).
Proof.
  intros Hsd. unfold get_driver_history. rewrite Hsd.
  edestruct (driver_history_loop_rows (timing_data sd) d
               (window (timing_data sd) n)) as (rows & Hall & ->);
    [intros ts; apply elem_of_window|].
  exists rows. split; [done|]. split; [done|].
  intros Hnone. destruct Hall as [|ts row tss rows' (timing & Ht & Hf) _];
    [done|].
  apply find_some in Hf as [Hin Hd]. apply bool_decide_eq_true in Hd.
  exfalso. apply (Hnone ts timing row Ht); [by apply list_elem_of_In|done].
Qed.

Lemma driver_history_rows_witness :
  session_data (with_session init (retained "R" 0 (sample_feed 3)))
  = Some (retained "R" 0 (sample_feed 3)) ∧
  ∃ rows h, get_driver_history "VER" 2
              (with_session init (retained "R" 0 (sample_feed 3)))
            = Done (with_session init (retained "R" 0 (sample_feed 3))) h ∧
            dh_positions h = position <$> rows ∧
            dh_tire_ages h = tire_age <$> rows.
Proof.
  split; [reflexivity|].
  destruct (driver_history_rows "VER" 2
              (with_session init (retained "R" 0 (sample_feed 3)))
              (retained "R" 0 (sample_feed 3)) eq_refl)
    as (rows & _ & Heq & _).
  exists rows. eexists. split; [exact Heq|]. split; reflexivity.
Defined.

(** [get_session_statistics] on a started monitor never raises.  While
    the history is empty it returns the empty dict; otherwise every field
    is read from the snapshot stored under the greatest timestamp: the leader
    is the driver of its first row, [total_drivers] the number of its rows,
    and [fastest_lap] the best lap time that is least in string order (none
    when the snapshot has no rows); the duration is the time since the start. *)
Theorem session_statistics_of_latest (now : Q) (st : Monitor)
    (sd : SessionData) :
  session_data st = Some sd →
  (timing_data sd = ∅ ∧ get_session_statistics now st = Done st None) ∨
  (∃ latest rows,
     latest ∈ dom (timing_data sd) ∧
     (∀ x, x ∈ dom (timing_data sd) → String.le x latest) ∧
     timing_data sd !! latest = Some rows ∧
     get_current_standings st = Done st rows ∧
     get_session_statistics now st
     = Done st (Some {| session_duration := (now - start_time sd)%Q;
                        total_updates := size (timing_data sd);
                        current_leader := driver <$> head rows;
                        fastest_lap := Py.min (best_lap_time <$> rows);
                        total_drivers := length rows |}) ∧
     (rows = [] ↔ Py.min (best_lap_time <$> rows) = None) ∧
     (∀ m, Py.min (best_lap_time <$> rows) = Some m →
           (∃ dd, dd ∈ rows ∧ best_lap_time dd = m) ∧
           ∀ dd, dd ∈ rows → String.le m (best_lap_time dd))).
Proof.
  intros Hsd.
  destruct (get_current_standings_spec st sd Hsd)
    as [[Hempty Hcur]|(latest & rows & Hin & Hmax & Hrows & Hcur)].
  - left. split; [done|]. unfold get_session_statistics.
    rewrite Hsd, Hempty, map_size_empty. by rewrite decide_True.
  - right. exists latest, rows. do 4 (split; [done|]). split.
    { unfold get_session_statistics. rewrite Hsd.
      rewrite decide_False; [by rewrite Hcur|].
      intros Hz%map_size_empty_iff. rewrite Hz in Hin. set_solver. }
    split.
    { destruct rows; simpl; split; done. }
    intros m [Hm Hle]%min_spec. split.
    + apply list_elem_of_fmap in Hm as (dd & -> & Hdd). by exists dd.
    + intros dd Hdd. apply Hle, list_elem_of_fmap. by exists dd.
Qed.

Lemma session_statistics_of_latest_witness :
  session_data (with_session init (retained "R" 0 (sample_feed 3)))
  = Some (retained "R" 0 (sample_feed 3)) ∧
  ∃ r, get_session_statistics 60
         (with_session init (retained "R" 0 (sample_feed 3)))
       = Done (with_session init (retained "R" 0 (sample_feed 3))) r.
Proof.
  split; [reflexivity|].
  destruct (session_statistics_of_latest 60
              (with_session init (retained "R" 0 (sample_feed 3)))
              (retained "R" 0 (sample_feed 3)) eq_refl)
    as [[_ Heq]|(latest & rows & _ & _ & _ & _ & Heq & _)];
    eexists; exact Heq.
Defined.

End LiveQueryProofs.

(** ** Simulated track status and the analytics callback *)

Module LiveCallbackProofs.
Import Py PyFacts Pandas PandasFacts Live LiveCallbacks.





Lemma append_to_lookup {V} (k k' : string) (x : V) (d : gmap string (list V)) :
  append_to k x d !! k'
  = if decide (k = k') then Some (default [] (d !! k) ++ [x]) else d !! k'.
Proof.
  unfold append_to. case_decide as Hk.
  - subst k'. rewrite lookup_alter_eq.
    destruct (d !! k) as [l|] eqn:E; simpl; [by rewrite E|].
    by rewrite lookup_insert_eq.
  - rewrite lookup_alter_ne; [|done].
    destruct (d !! k); [done|]. by rewrite lookup_insert_ne.
Qed.

Lemma driver_rows_app {V} (f : DriverTiming → V) (d : string)
    (a b : list DriverTiming) :
  driver_rows f d (a ++ b) = driver_rows f d a ++ driver_rows f d b.
Proof. unfold driver_rows. by rewrite filter_app, fmap_app. Qed.

Lemma grown_grown {V} (old : option (list V)) (a b : list V) :
  grown (grown old a) b = grown old (a ++ b).
Proof.
  destruct old as [h|]; simpl; [by rewrite (assoc_L (++))|].
  destruct a; simpl; [done|]. done.
Qed.

Lemma foldl_track_driver (rows : list DriverTiming) : ∀ cb d,
  update_count (foldl track_driver cb rows) = update_count cb ∧
  position_changes (foldl track_driver cb rows) !! d
  = grown (position_changes cb !! d) (driver_rows position d rows) ∧
  lap_time_trends (foldl track_driver cb rows) !! d
  = grown (lap_time_trends cb !! d) (driver_rows last_lap_time d rows).
Proof.
  induction rows as [|r rows IH]; intros cb d; simpl.
  { split; [done|]. unfold driver_rows. simpl.
    split; [by destruct (position_changes cb !! d); simpl; rewrite ?app_nil_r|
            by destruct (lap_time_trends cb !! d); simpl; rewrite ?app_nil_r]. }
  destruct (IH (track_driver cb r) d) as (Hc & Hp & Hl).
  rewrite Hc, Hp, Hl. simpl. rewrite !append_to_lookup.
  split; [done|].
  change (r :: rows) with ([r] ++ rows). rewrite !driver_rows_app.
  unfold driver_rows at 2 5. rewrite !filter_cons, !filter_nil.
  case_decide as Hk.
  - subst d. simpl. split.
    + by destruct (position_changes cb !! driver r); simpl;
        rewrite <- ?(assoc_L (++)).
    + by destruct (lap_time_trends cb !! driver r); simpl;
        rewrite <- ?(assoc_L (++)).
  - done.
Qed.

Lemma notified_fields (data : LiveData) (cb : AnalyticsCallback) (d : string) :
  update_count (notified data cb) = S (update_count cb) ∧
  position_changes (notified data cb) !! d
  = grown (position_changes cb !! d) (driver_rows position d (drivers data)) ∧
  lap_time_trends (notified data cb) !! d
  = grown (lap_time_trends cb !! d)
      (driver_rows last_lap_time d (drivers data)).
Proof.
  unfold notified, analytics_call.
  edestruct (foldl_track_driver (drivers data)) as (Hc & Hp & Hl).
  destruct (min_by last_lap_time (drivers data)); simpl;
    rewrite Hc, Hp, Hl; done.
Qed.

Lemma notified_all_fields (l : list LiveData) : ∀ cb d,
  update_count (notified_all l cb) = (update_count cb + length l)%nat ∧
  position_changes (notified_all l cb) !! d
  = grown (position_changes cb !! d) (driver_rows position d (l ≫= drivers)) ∧
  lap_time_trends (notified_all l cb) !! d
  = grown (lap_time_trends cb !! d)
      (driver_rows last_lap_time d (l ≫= drivers)).
Proof.
  induction l as [|x l IH]; intros cb d; simpl.
  { split; [lia|]. unfold driver_rows. simpl.
    split; [by destruct (position_changes cb !! d); simpl; rewrite ?app_nil_r|
            by destruct (lap_time_trends cb !! d); simpl; rewrite ?app_nil_r]. }
  destruct (IH (notified x cb) d) as (Hc & Hp & Hl).
  destruct (notified_fields x cb d) as (Hc1 & Hp1 & Hl1).
  unfold notified_all in *. rewrite Hc, Hp, Hl, Hc1, Hp1, Hl1.
  rewrite !grown_grown, !driver_rows_app. split; [lia|done].
Qed.

(** The analytics callback keeps, per driver, the positions and the lap
    times of all the rows it has been shown for that driver, in the order
    of arrival, and it counts every notification; a snapshot on which the
    call raises (an empty driver list) is counted like any other.  The two
    dicts therefore always have the same drivers and lists of equal length. *)
Theorem analytics_callback_history (l : list LiveData) (d : string) :
  update_count (notified_all l new_callback) = length l ∧
  position_changes (notified_all l new_callback) !! d
  = entry (driver_rows position d (l ≫= drivers)) ∧
  lap_time_trends (notified_all l new_callback) !! d
  = entry (driver_rows last_lap_time d (l ≫= drivers)) ∧
  length <$> position_changes (notified_all l new_callback) !! d
  = length <$> lap_time_trends (notified_all l new_callback) !! d.
Proof.
  destruct (notified_all_fields l new_callback d) as (Hc & Hp & Hl).
  rewrite Hc, Hp, Hl. simpl. rewrite !lookup_empty. simpl.
  split; [done|]. split; [done|]. split; [done|].
  unfold driver_rows.
  destruct (filter (λ dd, driver dd = d) (l ≫= drivers)); simpl; [done|].
  by rewrite !length_fmap.
Qed.

Lemma min_by_from_spec {A} (key : A → string) (l : list A) : ∀ cur,
  min_by_from key cur l ∈ cur :: l ∧
  String.le (key (min_by_from key cur l)) (key cur) ∧
  ∀ x, x ∈ l → String.le (key (min_by_from key cur l)) (key x).
Proof.
  induction l as [|y l IH]; intros cur; simpl.
  - split; [by left|]. split; [done|]. intros x Hx. by inversion Hx.
  - destruct (String.ltb (key y) (key cur)) eqn:E.
    + destruct (IH y) as (Hin & Hle & Hall).
      split; [by right|]. split.
      * trans (key y); [done|by apply ltb_le].
      * intros x [->|Hx]%elem_of_cons; auto.
    + destruct (IH cur) as (Hin & Hle & Hall).
      split; [apply elem_of_cons in Hin as [->|?]; [by left|by do 2 right]|].
      split; [done|].
      intros x [->|Hx]%elem_of_cons; [|auto].
      trans (key cur); [done|by apply ltb_false_le].
Qed.

Lemma foldl_track_driver_printed (rows : list DriverTiming) : ∀ cb,
  ∃ moves, printed (foldl track_driver cb rows) = printed cb ++ moves ∧
           ∀ m, m ∈ moves → ∃ drv up n, m = Moved drv up n ∧ 0 < n.
Proof.
  induction rows as [|r rows IH]; intros cb; simpl.
  { exists []. rewrite app_nil_r. split; [done|]. intros m Hm. by inversion Hm. }
  destruct (IH (track_driver cb r)) as (moves & -> & Hmoves). simpl.
  destruct (position_changes cb !! driver r) as [hist|].
  - case_decide as Hne.
    + eexists (_ :: moves). rewrite <- (assoc_L (++)). split; [done|].
      intros m [->|Hm]%elem_of_cons; [|auto].
      do 3 eexists. split; [done|]. lia.
    + exists moves. by rewrite app_nil_r.
  - exists moves. by rewrite app_nil_r.
Qed.

(** One call of the analytics callback.  On a snapshot without drivers it
    raises ValueError ([min] of an empty list), after having counted the
    update; otherwise it returns, and the last line it prints names a driver
    of the snapshot whose last lap time is least in string order; the lines
    before are position moves by at least one place. *)
Theorem analytics_call_outcome (data : LiveData) (cb : AnalyticsCallback) :
  (drivers data = [] ∧
   analytics_call data cb
   = Raised (ValueError "min() arg is an empty sequence")
       {| update_count := S (update_count cb);
          position_changes := position_changes cb;
          lap_time_trends := lap_time_trends cb;
          printed := printed cb |}) ∨
  (drivers data ≠ [] ∧
   ∃ cb' fastest moves,
     analytics_call data cb = Done cb' tt ∧
     update_count cb' = S (update_count cb) ∧
     fastest ∈ drivers data ∧
     (∀ dd, dd ∈ drivers data →
            String.le (last_lap_time fastest) (last_lap_time dd)) ∧
     printed cb'
     = printed cb ++ moves
         ++ [FastestLap (driver fastest) (last_lap_time fastest)] ∧
     ∀ m, m ∈ moves → ∃ drv up n, m = Moved drv up n ∧ 0 < n).
Proof.
  unfold analytics_call. destruct (drivers data) as [|r rows] eqn:Hrows.
  { left. done. }
  right. split; [done|].
  set (cb1 := {| update_count := S (update_count cb);
                 position_changes := position_changes cb;
                 lap_time_trends := lap_time_trends cb;
                 printed := printed cb |}).
  destruct (foldl_track_driver_printed (r :: rows) cb1) as (moves & Hpr & Hmoves).
  destruct (foldl_track_driver (r :: rows) cb1 "") as (Hc & _).
  destruct (min_by_from_spec last_lap_time rows r) as (Hin & Hle & Hall).
  unfold min_by. eexists _, (min_by_from last_lap_time r rows), moves.
  split; [reflexivity|]. simpl in *. split; [by rewrite Hc|].
  split; [done|]. split.
  - intros dd [->|Hdd]%elem_of_cons; auto.
  - split; [|done]. rewrite Hpr. simpl. by rewrite <- (assoc_L (++)).
Qed.

End LiveCallbackProofs.

(** ** More on the telemetry segmentation *)

Module SegmentProofs.
Import Pandas PandasFacts Telemetry TelemetryProofs Segments.

Lemma StronglySorted_lookup_lt {A} (R : A → A → Prop) (l : list A)
    (i j : nat) (a b : A) :
  StronglySorted R l → (i < j)%nat → l !! i = Some a → l !! j = Some b → R a b.
Proof.
  intros Hs. revert i j. induction Hs as [|x l Hs IH Hall]; intros i j Hij.
  { by rewrite lookup_nil. }
  destruct i as [|i], j as [|j]; simpl; try lia.
  - intros [= ->] Hb. apply (proj1 (Forall_forall _ _) Hall).
    by eapply list_elem_of_lookup_2.
  - apply IH. lia.
Qed.

(** Every interval the segmenter emits begins with a fall of the speed by
    more than 10 and ends on a rise by more than 5, and the intervals come
    one strictly after the other. *)
Lemma machine_segments (speed : list Q) (rest : list Q) : ∀ st prev pre,
  speed = pre ++ prev :: rest →
  (∀ s, st = INSIDE s → (s ≤ length pre)%nat) →
  StronglySorted apart (machine st (S (length pre)) prev rest).2 ∧
  Forall (λ seg, (st = INSIDE seg.1 ∨
                  (S (length pre) ≤ seg.1)%nat ∧ drop_at speed seg.1) ∧
                 (S (length pre) ≤ seg.2)%nat ∧ rise_at speed seg.2)
    (machine st (S (length pre)) prev rest).2.
Proof.
  induction rest as [|cur rest IH]; intros st prev pre Hsp Hst; simpl.
  { split; constructor. }
  assert (speed = (pre ++ [prev]) ++ cur :: rest) as Hsp'.
  { by rewrite <- (assoc_L (++)). }
  assert (length (pre ++ [prev]) = S (length pre)) as Hlen.
  { rewrite length_app. simpl. lia. }
  assert (speed !! length pre = Some prev) as Hprev.
  { rewrite Hsp. by apply list_lookup_middle. }
  assert (speed !! S (length pre) = Some cur) as Hcur.
  { rewrite Hsp. apply lookup_middle_next. }
  destruct st as [|s0].
  - destruct (Qltb (cur - prev) (-10)) eqn:E.
    + destruct (IH (INSIDE (S (length pre))) cur (pre ++ [prev]) Hsp')
        as [Hsorted Hall]; [intros s [= <-]; lia|].
      rewrite Hlen in Hsorted, Hall. split; [done|].
      eapply Forall_impl; [exact Hall|]. intros [a b]; simpl.
      intros ([[= <-]|[Ha Hd]] & Hb & Hr).
      * split; [|split; [lia|done]]. right. split; [lia|].
        exists prev, cur. replace (S (length pre) - 1)%nat with (length pre)
          by lia.
        split; [lia|]. split; [done|]. split; [done|]. by apply Qltb_lt.
      * split; [|split; [lia|done]]. right. split; [lia|done].
    + destruct (IH OUTSIDE cur (pre ++ [prev]) Hsp') as [Hsorted Hall]; [done|].
      rewrite Hlen in Hsorted, Hall. split; [done|].
      eapply Forall_impl; [exact Hall|]. intros [a b]; simpl.
      intros ([?|[Ha Hd]] & Hb & Hr); [done|].
      split; [|split; [lia|done]]. right. split; [lia|done].
  - destruct (Qltb 5 (cur - prev)) eqn:E.
    + destruct (IH OUTSIDE cur (pre ++ [prev]) Hsp') as [Hsorted Hall]; [done|].
      rewrite Hlen in Hsorted, Hall.
      destruct (machine OUTSIDE (S (S (length pre))) cur rest) as [final evs].
      simpl in *. split.
      * constructor; [done|]. eapply Forall_impl; [exact Hall|].
        intros [a b]; simpl. intros ([?|[Ha Hd]] & _); [done|].
        unfold apart. simpl. lia.
      * constructor.
        -- simpl. split; [by left|]. split; [lia|].
           exists prev, cur. replace (S (length pre) - 1)%nat with (length pre)
             by lia.
           split; [lia|]. split; [done|]. split; [done|]. by apply Qltb_lt.
        -- eapply Forall_impl; [exact Hall|]. intros [a b]; simpl.
           intros ([?|[Ha Hd]] & Hb & Hr); [done|].
           split; [|split; [lia|done]]. right. split; [lia|done].
    + destruct (IH (INSIDE s0) cur (pre ++ [prev]) Hsp') as [Hsorted Hall].
      { intros s [= <-]. specialize (Hst s0 eq_refl). lia. }
      rewrite Hlen in Hsorted, Hall. split; [done|].
      eapply Forall_impl; [exact Hall|]. intros [a b]; simpl.
      intros ([?|[Ha Hd]] & Hb & Hr).
      * split; [by left|]. split; [lia|done].
      * split; [|split; [lia|done]]. right. split; [lia|done].
Qed.

Lemma detect_corners_segments (speed : list Q) :
  StronglySorted apart (detect_corners speed).2 ∧
  Forall (λ seg, drop_at speed seg.1 ∧ rise_at speed seg.2)
    (detect_corners speed).2.
Proof.
  unfold detect_corners. destruct speed as [|x rest]; [split; constructor|].
  destruct (machine_segments (x :: rest) rest OUTSIDE x []) as [Hs Hall];
    [done|done|].
  split; [done|]. eapply Forall_impl; [exact Hall|].
  intros [a b]; simpl. intros ([?|[_ ?]] & _ & ?); done.
Qed.

Lemma elem_of_slice {A} (a b j : nat) (l : list A) (x : A) :
  (a ≤ j < b)%nat → l !! j = Some x → x ∈ slice a b l.
Proof.
  intros Hj Hx. unfold slice.
  apply (list_elem_of_lookup_2 _ (j - a)).
  rewrite lookup_take, decide_True by lia.
  rewrite lookup_drop. by replace (a + (j - a))%nat with j by lia.
Qed.

Lemma elem_of_slice_inv {A} (a b : nat) (l : list A) (x : A) :
  x ∈ slice a b l → ∃ j, (a ≤ j < b)%nat ∧ l !! j = Some x.
Proof.
  unfold slice. intros [i Hi]%list_elem_of_lookup.
  rewrite lookup_take in Hi. case_decide; [|done].
  rewrite lookup_drop in Hi. exists (a + i)%nat. split; [lia|done].
Qed.

(** The corners found on a lap do not overlap and are listed in the order
    of the lap: each one ends strictly before any later one starts. *)
Theorem corners_do_not_overlap (telemetry : list Sample) :
  ∃ events,
    analyze_cornering_performance telemetry = Some events ∧
    ∀ (i j : nat) (c1 c2 : gmap string cell) (e1 s2 : Z),
      (i < j)%nat → events !! i = Some c1 → events !! j = Some c2 →
      c1 !! "end" = Some (Int e1) → c2 !! "start" = Some (Int s2) →
      e1 < s2.
Proof.
  destruct (corner_detection_state_machine_aux telemetry)
    as (events & Hrun & Hevs & _).
  destruct (detect_corners_segments (Speed <$> telemetry)) as [Hsorted _].
  exists events. split; [done|].
  intros i j c1 c2 e1 s2 Hij Hc1 Hc2 He1 Hs2.
  destruct (Forall2_lookup_l _ _ _ _ _ Hevs Hc1) as ([a1 b1] & Hseg1 & Hof1).
  destruct (Forall2_lookup_l _ _ _ _ _ Hevs Hc2) as ([a2 b2] & Hseg2 & Hof2).
  pose proof (StronglySorted_lookup_lt _ _ _ _ _ _ Hsorted Hij Hseg1 Hseg2)
    as Hapart. unfold apart in Hapart. simpl in Hapart.
  destruct Hof1 as (? & ? & ? & ? & -> & _).
  destruct Hof2 as (? & ? & ? & ? & -> & _).
  change (Some (Int (Z.of_nat b1)) = Some (Int e1)) in He1.
  change (Some (Int (Z.of_nat a2)) = Some (Int s2)) in Hs2.
  simplify_eq. lia.
Qed.

(** Every corner is a dip of the speed: it starts on a row where the speed
    has just fallen by more than 10, its minimum speed is at most its entry
    speed, and its exit speed exceeds the minimum by more than 5. *)
Theorem corner_is_a_dip (telemetry : list Sample) :
  ∃ events,
    analyze_cornering_performance telemetry = Some events ∧
    Forall (λ ev, ∃ (s e : nat) (m x y before : Q),
      ev !! "start" = Some (Int (Z.of_nat s)) ∧
      ev !! "end" = Some (Int (Z.of_nat e)) ∧
      ev !! "min_speed" = Some (Float m) ∧
      ev !! "entry_speed" = Some (Float x) ∧
      ev !! "exit_speed" = Some (Float y) ∧
      (1 ≤ s < e)%nat ∧
      (Speed <$> telemetry) !! (s - 1)%nat = Some before ∧
      (x < before - 10)%Q ∧ (m <= x)%Q ∧ (m + 5 < y)%Q) events.
Proof.
  destruct (corner_detection_state_machine_aux telemetry)
    as (events & Hrun & Hevs & Hb).
  destruct (detect_corners_segments (Speed <$> telemetry)) as [_ Hall].
  exists events. split; [done|].
  apply Forall_forall. intros ev Hev.
  apply list_elem_of_lookup in Hev as [n Hn].
  destruct (Forall2_lookup_l _ _ _ _ _ Hevs Hn) as ([s e] & Hseg & Hof).
  rewrite Forall_forall in Hb, Hall.
  specialize (Hb (s, e) (list_elem_of_lookup_2 _ _ _ Hseg)).
  specialize (Hall (s, e) (list_elem_of_lookup_2 _ _ _ Hseg)).
  simpl in Hb, Hall.
  destruct Hall as [(x0 & y0 & Hs1 & Hx0 & Hy0 & Hdrop)
                    (x1 & y1 & He1 & Hx1 & Hy1 & Hrise)].
  destruct Hof as (m & x & y & d & -> & [_ Hmin] & Hx & Hy & _).
  assert (y0 = x) as -> by congruence.
  assert (y1 = y) as -> by congruence.
  exists s, e, m, x, y, x0. do 5 (split; [reflexivity|]).
  split; [lia|]. split; [done|]. split; [lra|].
  assert (m <= x)%Q as Hmx.
  { apply Hmin, (elem_of_slice _ _ s); [lia|done]. }
  assert (m <= x1)%Q as Hm1.
  { apply Hmin, (elem_of_slice _ _ (e - 1)); [lia|done]. }
  split; [done|lra].
Qed.

(** The braking loop with the rows of each zone: the zones come one
    strictly after the other, and the brake is above the threshold on every
    row of a zone and not above it on the row that ends the zone. *)
Lemma braking_loop_zones (telemetry : list Sample) (brakes : list Q) :
  ∀ (pre : list Q) (v : braking_vars),
    Brake <$> telemetry = pre ++ brakes →
    (in_braking v = true →
     ∃ bs, brake_start v = Some bs ∧ (bs < length pre)%nat ∧
           ∀ j b, (bs ≤ j < length pre)%nat → pre !! j = Some b →
                  (brake_threshold < b)%Q) →
    ∃ v' new segs,
      braking_loop telemetry v (length pre) brakes = Some v' ∧
      braking_zones v' = braking_zones v ++ new ∧
      Forall2 (braking_zone_of telemetry) new segs ∧
      StronglySorted apart segs ∧
      Forall (λ seg, (seg.1 < seg.2 < length telemetry)%nat ∧
                     ((in_braking v = true ∧ brake_start v = Some seg.1) ∨
                      (length pre ≤ seg.1)%nat) ∧
                     (length pre ≤ seg.2)%nat ∧
                     pressed (Brake <$> telemetry) seg) segs.
Proof.
  induction brakes as [|b brakes IH]; intros pre v Hbr Hv.
  { exists v, [], []. simpl. rewrite app_nil_r.
    split; [done|]. split; [done|]. split; constructor; constructor. }
  assert (Brake <$> telemetry = (pre ++ [b]) ++ brakes) as Hbr'.
  { by rewrite <- (assoc_L (++)). }
  assert (length (pre ++ [b]) = S (length pre)) as Hlen.
  { rewrite length_app. simpl. lia. }
  assert (length telemetry = length pre + S (length brakes))%nat as Htel.
  { apply (f_equal length) in Hbr.
    by rewrite length_fmap, length_app in Hbr. }
  assert ((Brake <$> telemetry) !! length pre = Some b) as Hb.
  { rewrite Hbr. by apply list_lookup_middle. }
  simpl. unfold braking_body.
  destruct (in_braking v) eqn:Hin; simpl;
    rewrite ?andb_true_r, ?andb_false_r.
  - (* inside a braking zone *)
    destruct (Hv eq_refl) as (bs & Hbs & Hlt & Hpressed).
    destruct (Qle_bool b brake_threshold) eqn:E; simpl.
    + rewrite Hbs.
      destruct (lookup_lt_is_Some_2 (Distance <$> telemetry) bs) as [d0 Hd0];
        [rewrite length_fmap; lia|].
      destruct (lookup_lt_is_Some_2 (Distance <$> telemetry) (length pre))
        as [d1 Hd1]; [rewrite length_fmap; lia|].
      destruct (lookup_lt_is_Some_2 (Speed <$> telemetry) bs) as [s0 Hs0];
        [rewrite length_fmap; lia|].
      destruct (lookup_lt_is_Some_2 (Speed <$> telemetry) (length pre))
        as [s1 Hs1]; [rewrite length_fmap; lia|].
      rewrite Hd0, Hd1, Hs0, Hs1. simpl.
      destruct (series_max_spec (slice bs (length pre) (Brake <$> telemetry)))
        as (mx & Hmx & Hmax).
      { apply slice_nonempty; [done|]. rewrite length_fmap. lia. }
      rewrite Hmx.
      match goal with
      | |- context [braking_loop telemetry ?v1 _ _] =>
        destruct (IH (pre ++ [b]) v1 Hbr')
          as (v' & new & segs & Hloop & Hnew & Hof & Hsorted & Hall); [done|]
      end.
      rewrite Hlen in Hloop, Hall. simpl in Hnew, Hall.
      exists v'. eexists (_ :: new), ((bs, length pre) :: segs).
      split; [exact Hloop|]. split.
      { rewrite Hnew, <- (assoc_L (++)). reflexivity. }
      split; [constructor; [by exists d0, d1, s0, s1, mx|done]|].
      split.
      { constructor; [done|]. eapply Forall_impl; [exact Hall|].
        intros [a c]; simpl. intros (_ & [[? _]|?] & _); [done|].
        unfold apart. simpl. lia. }
      constructor.
      * simpl. split; [lia|]. split; [by left|]. split; [lia|]. split.
        -- simpl. intros j c Hj Hc. apply (Hpressed j c Hj).
           rewrite Hbr, lookup_app_l in Hc by lia. done.
        -- exists b. split; [done|]. by apply Qle_bool_iff.
      * eapply Forall_impl; [exact Hall|]. intros [a c]; simpl.
        intros (? & [[? _]|?] & ? & ?); [done|].
        split; [done|]. split; [right; lia|]. split; [lia|done].
    + destruct (IH (pre ++ [b]) v Hbr')
        as (v' & new & segs & Hloop & Hnew & Hof & Hsorted & Hall).
      { intros _. exists bs. split; [done|]. rewrite Hlen. split; [lia|].
        intros j c Hj Hc.
        destruct (decide (j = length pre)) as [->|Hne].
        - rewrite list_lookup_middle in Hc by done. simplify_eq.
          apply Qltb_lt. unfold Qltb. by rewrite E.
        - rewrite lookup_app_l in Hc by lia. apply (Hpressed j c); [lia|done]. }
      rewrite Hlen in Hloop, Hall. exists v', new, segs.
      split; [done|]. split; [done|]. split; [done|]. split; [done|].
      eapply Forall_impl; [exact Hall|]. intros [a c]; simpl.
      rewrite Hin. intros (? & [[_ ?]|?] & ? & ?).
      * split; [done|]. split; [by left|]. split; [lia|done].
      * split; [done|]. split; [right; lia|]. split; [lia|done].
  - (* outside *)
    destruct (Qltb brake_threshold b) eqn:E; simpl.
    + match goal with
      | |- context [braking_loop telemetry ?v1 _ _] =>
        destruct (IH (pre ++ [b]) v1 Hbr')
          as (v' & new & segs & Hloop & Hnew & Hof & Hsorted & Hall)
      end.
      { intros _. exists (length pre). split; [done|]. rewrite Hlen.
        split; [lia|]. intros j c Hj Hc.
        assert (j = length pre) as -> by lia.
        rewrite list_lookup_middle in Hc by done. simplify_eq.
        by apply Qltb_lt. }
      rewrite Hlen in Hloop, Hall. simpl in Hall. exists v', new, segs.
      split; [done|]. split; [done|]. split; [done|]. split; [done|].
      eapply Forall_impl; [exact Hall|]. intros [a c]; simpl.
      intros (? & [[_ [= <-]]|?] & ? & ?).
      * split; [done|]. split; [by right|]. split; [lia|done].
      * split; [done|]. split; [right; lia|]. split; [lia|done].
    + destruct (IH (pre ++ [b]) v Hbr')
        as (v' & new & segs & Hloop & Hnew & Hof & Hsorted & Hall);
        [by rewrite Hin|].
      rewrite Hlen in Hloop, Hall. exists v', new, segs.
      split; [done|]. split; [done|]. split; [done|]. split; [done|].
      eapply Forall_impl; [exact Hall|]. intros [a c]; simpl.
      rewrite Hin. intros (? & [[? _]|?] & ? & ?); [done|].
      split; [done|]. split; [right; lia|]. split; [lia|done].
Qed.

Lemma analyze_braking_points_zones (telemetry : list Sample) :
  ∃ zs segs,
    analyze_braking_points telemetry = Some zs ∧
    Forall2 (braking_zone_of telemetry) zs segs ∧
    StronglySorted apart segs ∧
    Forall (λ seg, (seg.1 < seg.2 < length telemetry)%nat ∧
                   pressed (Brake <$> telemetry) seg) segs.
Proof.
  unfold analyze_braking_points.
  destruct (braking_loop_zones telemetry (Brake <$> telemetry) []
              {| in_braking := false; brake_start := None;
                 braking_zones := [] |})
    as (v' & new & segs & Hloop & Hnew & Hof & Hsorted & Hall); [done|done|].
  simpl in Hloop, Hnew. rewrite Hloop. simpl. rewrite Hnew.
  exists new, segs. split; [done|]. split; [done|]. split; [done|].
  eapply Forall_impl; [exact Hall|]. intros [a c]; simpl. tauto.
Qed.

(** In every braking zone the reported maximum brake pressure is above
    the threshold of 50, and a lap on which the brake never exceeds the
    threshold has no braking zone. *)
Theorem braking_zone_pressure (telemetry : list Sample) :
  ∃ zs,
    analyze_braking_points telemetry = Some zs ∧
    Forall (λ ev, ∃ mx, ev !! "max_brake_pressure" = Some (Float mx) ∧
                        (50 < mx)%Q) zs ∧
    ((∀ b, b ∈ Brake <$> telemetry → (b <= 50)%Q) → zs = []).
Proof.
  destruct (analyze_braking_points_zones telemetry)
    as (zs & segs & Hrun & Hof & _ & Hall).
  exists zs. split; [done|].
  assert (Forall (λ ev, ∃ mx b, ev !! "max_brake_pressure" = Some (Float mx) ∧
                                b ∈ Brake <$> telemetry ∧
                                (50 < b)%Q ∧ (b <= mx)%Q) zs) as Hzs.
  { apply Forall_forall. intros ev Hev.
    apply list_elem_of_lookup in Hev as [n Hn].
    destruct (Forall2_lookup_l _ _ _ _ _ Hof Hn) as ([s e] & Hseg & Hzone).
    rewrite Forall_forall in Hall.
    destruct (Hall (s, e) (list_elem_of_lookup_2 _ _ _ Hseg))
      as [Hse [Hpressed _]]. simpl in Hse, Hpressed.
    destruct Hzone as (d0 & d1 & s0 & s1 & mx & -> & _ & _ & _ & _ & Hmx & Hmax).
    destruct (lookup_lt_is_Some_2 (Brake <$> telemetry) s) as [b Hb];
      [rewrite length_fmap; lia|].
    exists mx, b. split; [reflexivity|].
    split; [by eapply list_elem_of_lookup_2|].
    split; [apply (Hpressed s b); [lia|done]|].
    apply Hmax, (elem_of_slice _ _ s); [lia|done]. }
  split.
  - eapply Forall_impl; [exact Hzs|]. intros ev (mx & b & ? & _ & ? & ?).
    exists mx. split; [done|]. lra.
  - intros Hlow. destruct Hzs as [|ev zs' (mx & b & _ & Hb & Hgt & _) _];
      [done|].
    specialize (Hlow b Hb). lra.
Qed.

(** On a lap whose distance never decreases, the braking zones are listed
    in the order of the lap and do not overlap: each one ends no later than
    any later one starts. *)
Theorem braking_zones_in_lap_order (telemetry : list Sample) :
  nondecreasing (Distance <$> telemetry) = true →
  ∃ zs,
    analyze_braking_points telemetry = Some zs ∧
    ∀ (i j : nat) (z1 z2 : gmap string cell) (d1 d2 : Q),
      (i < j)%nat → zs !! i = Some z1 → zs !! j = Some z2 →
      z1 !! "end_distance" = Some (Float d1) →
      z2 !! "start_distance" = Some (Float d2) →
      (d1 <= d2)%Q.
Proof.
  intros Hmono%nondecreasing_sorted.
  destruct (analyze_braking_points_zones telemetry)
    as (zs & segs & Hrun & Hof & Hsorted & Hall).
  exists zs. split; [done|].
  intros i j z1 z2 d1 d2 Hij Hz1 Hz2 Hd1 Hd2.
  destruct (Forall2_lookup_l _ _ _ _ _ Hof Hz1) as ([a1 b1] & Hseg1 & Hof1).
  destruct (Forall2_lookup_l _ _ _ _ _ Hof Hz2) as ([a2 b2] & Hseg2 & Hof2).
  pose proof (StronglySorted_lookup_lt _ _ _ _ _ _ Hsorted Hij Hseg1 Hseg2)
    as Hapart. unfold apart in Hapart. simpl in Hapart.
  destruct Hof1 as (? & e1 & ? & ? & ? & -> & _ & He1 & _).
  destruct Hof2 as (e2 & ? & ? & ? & ? & -> & He2 & _).
  change (Some (Float e1) = Some (Float d1)) in Hd1.
  change (Some (Float e2) = Some (Float d2)) in Hd2.
  assert (e1 = d1) as <- by congruence.
  assert (e2 = d2) as <- by congruence.
  apply (sorted_lookup_le _ Hmono b1 a2); [lia|done..].
Qed.

Lemma braking_zones_in_lap_order_witness :
  nondecreasing (Distance <$> two_corner_lap) = true ∧
  ∃ zs,
    analyze_braking_points two_corner_lap = Some zs ∧
    ∀ (i j : nat) (z1 z2 : gmap string cell) (d1 d2 : Q),
      (i < j)%nat → zs !! i = Some z1 → zs !! j = Some z2 →
      z1 !! "end_distance" = Some (Float d1) →
      z2 !! "start_distance" = Some (Float d2) →
      (d1 <= d2)%Q.
Proof.
  split; [reflexivity|].
  apply (braking_zones_in_lap_order two_corner_lap). reflexivity.
Defined.

End SegmentProofs.

(** ** More on the lap statistics *)

Module StatsBoundsProofs.
Import Pandas PandasFacts Stats StatsProofs Session.

Lemma sum_bounds (lo hi : Q) (xs : list Q) :
  (∀ x, x ∈ xs → (lo <= x)%Q ∧ (x <= hi)%Q) →
  (lo * count xs <= sum xs)%Q ∧ (sum xs <= hi * count xs)%Q.
Proof.
  induction xs as [|x xs IH]; intros Hall.
  { change (count []) with 0%Q. change (sum []) with 0%Q. split; lra. }
  destruct IH as [Hlo Hhi]; [intros y Hy; apply Hall; by right|].
  destruct (Hall x) as [Hx1 Hx2]; [by left|].
  rewrite count_cons. change (sum (x :: xs)) with (x + sum xs)%Q.
  revert Hlo Hhi. generalize (count xs) (sum xs). intros c s Hlo Hhi.
  split; lra.
Qed.

Lemma count_pos (xs : list Q) : xs ≠ [] → (0 < count xs)%Q.
Proof.
  intros Hne. unfold count. change 0%Q with (inject_Z 0).
  rewrite <- Zlt_Qlt. destruct xs; [done|]. simpl. lia.
Qed.

(** The mean of a non-empty series lies between any two bounds of its
    elements. *)
Lemma mean_bounds (lo hi m : Q) (xs : list Q) :
  xs ≠ [] → mean xs = Float m →
  (∀ x, x ∈ xs → (lo <= x)%Q ∧ (x <= hi)%Q) →
  (lo <= m)%Q ∧ (m <= hi)%Q.
Proof.
  intros Hne Hm Hall.
  destruct (mean_spec xs Hne) as (m' & Hm' & Hmean).
  rewrite Hm in Hm'. injection Hm' as <-.
  destruct (sum_bounds lo hi xs Hall) as [Hlo Hhi].
  pose proof (count_pos xs Hne) as Hc.
  revert Hmean Hlo Hhi Hc. generalize (count xs) (sum xs).
  intros c s Hmean Hlo Hhi Hc. rewrite <- Hmean in Hlo, Hhi.
  split; nra.
Qed.




Lemma median_some_elem_le (xs : list Q) (m : Q) :
  median xs = Some m → ∃ x, x ∈ xs ∧ (x <= m)%Q.
Proof.
  intros Hm. destruct (median_halves xs m Hm) as [Hle _].
  assert (xs ≠ []) as Hne.
  { intros ->. unfold median in Hm. simpl in Hm. done. }
  destruct (filter (λ x, (x <= m)%Q) xs) as [|x l] eqn:E.
  { simpl in Hle. destruct xs; [done|]. simpl in Hle. lia. }
  assert (x ∈ filter (λ x, (x <= m)%Q) xs) as Hx by (rewrite E; by left).
  apply list_elem_of_filter in Hx as [? ?]. by exists x.
Qed.

Lemma length_filter_disjoint {A} (P R : A → Prop) `{∀ x, Decision (P x)}
    `{∀ x, Decision (R x)} (l : list A) :
  (∀ x, P x → R x → False) →
  (length (filter P l) + length (filter R l) ≤ length l)%nat.
Proof.
  intros Hdis. induction l as [|x l IH]; simpl; [done|].
  rewrite !filter_cons.
  destruct (decide (P x)), (decide (R x)); simpl; try lia.
  exfalso. eauto.
Qed.

Lemma length_pit_stops_in (driver : string) (med : Q) (all : list Lap) :
  ∀ ls : list Lap,
    length (omap (λ lap,
      lap_time ← LapTime lap;
      if Qltb (med * (3 # 2)) lap_time then
        Some {| ps_driver := driver;
                lap_number := LapNumber lap;
                pit_time := (lap_time - med)%Q;
                compound_before :=
                  Compound <$>
                    head (List.filter
                            (λ p, LapNumber p =? LapNumber lap - 1) all);
                compound_after := Compound lap |}
      else None) ls)
    = length (filter (λ t, (med * (3 # 2) < t)%Q) (total_seconds ls)).
Proof.
  induction ls as [|l ls IH]; [done|].
  unfold total_seconds in *. simpl.
  destruct (LapTime l) as [t|]; simpl; [|exact IH].
  rewrite filter_cons.
  destruct (Qltb (med * (3 # 2)) t) eqn:E.
  - apply Qltb_lt in E. rewrite decide_True by done. simpl. f_equal. exact IH.
  - apply Qltb_ge in E. rewrite decide_False by lra. exact IH.
Qed.

Lemma pit_stops_in_spec (driver : string) (med : Q) (ls : list Lap)
    (e : PitStop) :
  e ∈ pit_stops_in driver med ls →
  ps_driver e = driver ∧
  ∃ t, (med * (3 # 2) < t)%Q ∧ pit_time e = (t - med)%Q.
Proof.
  unfold pit_stops_in. intros (l & Hl & He)%list_elem_of_omap.
  destruct (LapTime l) as [t|]; simpl in He; [|done].
  destruct (Qltb (med * (3 # 2)) t) eqn:E; [|done].
  apply Qltb_lt in E. injection He as <-. simpl. split; [done|]. by exists t.
Qed.

Lemma pit_stops_of_driver_owner (laps : list Lap) (driver : string)
    (e : PitStop) :
  e ∈ pit_stops_of_driver laps driver → ps_driver e = driver.
Proof.
  unfold pit_stops_of_driver. case_decide; [by intros ?%elem_of_nil|].
  destruct (median _) as [med|]; [|by intros ?%elem_of_nil].
  by intros [? _]%pit_stops_in_spec.
Qed.

Lemma filter_none {A} (P : A → Prop) `{∀ x, Decision (P x)} (l : list A) :
  (∀ x, x ∈ l → ¬ P x) → filter P l = [].
Proof.
  induction l as [|x l IH]; intros Hall; [done|].
  rewrite filter_cons, decide_False; [|apply Hall; by left].
  apply IH. intros y Hy. apply Hall. by right.
Qed.

(** The stops of one driver in the result are those of the loop body for
    that driver. *)
Lemma stops_of_driver (laps : list Lap) (driver : string) :
  filter (λ e, ps_driver e = driver) (analyze_pit_stop_performance laps)
  = pit_stops_of_driver laps driver.
Proof.
  unfold analyze_pit_stop_performance.
  assert (∀ ds, NoDup ds →
    filter (λ e, ps_driver e = driver) (mbind (pit_stops_of_driver laps) ds)
    = if decide (driver ∈ ds) then pit_stops_of_driver laps driver else [])
    as Hds.
  { induction ds as [|d ds IH]; intros Hnd; [done|].
    apply NoDup_cons in Hnd as [Hd Hnd].
    change (mbind (pit_stops_of_driver laps) (d :: ds))
      with (pit_stops_of_driver laps d ++ mbind (pit_stops_of_driver laps) ds).
    rewrite filter_app, (IH Hnd).
    destruct (decide (d = driver)) as [->|Hne].
    - destruct (decide (driver ∈ ds)); [done|].
      destruct (decide (driver ∈ driver :: ds)) as [_|Hnot];
        [|exfalso; apply Hnot; by left].
      rewrite app_nil_r. apply filter_Prop_all.
      intros e. apply pit_stops_of_driver_owner.
    - rewrite filter_none.
      + simpl. destruct (decide (driver ∈ ds)) as [Hin|Hnin].
        * rewrite decide_True; [done|by right].
        * rewrite decide_False; [done|].
          intros [->|?]%elem_of_cons; done.
      + intros e He%pit_stops_of_driver_owner. congruence. }
  rewrite (Hds _ (NoDup_unique _)).
  case_decide as Hin; [done|].
  unfold pit_stops_of_driver.
  assert (of_driver driver laps = []) as ->; [|by rewrite decide_True by (simpl; lia)].
  unfold of_driver. destruct (List.filter _ laps) as [|l ls] eqn:E; [done|].
  exfalso. apply Hin. apply elem_of_unique.
  assert (l ∈ List.filter (λ l, String.eqb (Driver l) driver) laps) as Hl
    by (rewrite E; by left).
  apply elem_of_filter_bool in Hl as [Hl Hd]. apply String.eqb_eq in Hd.
  apply list_elem_of_fmap. by exists l.
Qed.

(** When a driver's lap times are positive, at most half of the driver's
    timed laps are reported as pit stops, and the time lost reported for a
    stop is positive, more than half the driver's median lap time. *)
Theorem pit_stops_are_a_minority (laps : list Lap) (driver : string) :
  (∀ l t, l ∈ laps → Driver l = driver → LapTime l = Some t → (0 < t)%Q) →
  (2 * length (filter (λ e, ps_driver e = driver)
                 (analyze_pit_stop_performance laps))
   ≤ length (valid_laps driver laps))%nat ∧
  ∀ e, e ∈ analyze_pit_stop_performance laps → ps_driver e = driver →
       ∃ med, median (total_seconds (valid_laps driver laps)) = Some med ∧
              (0 < med)%Q ∧ (med * (1 # 2) < pit_time e)%Q.
Proof.
  intros Hpos.
  assert (∀ med, median (total_seconds (valid_laps driver laps)) = Some med →
                 (0 < med)%Q) as Hmed.
  { intros med Hm. destruct (median_some_elem_le _ _ Hm) as (x & Hx & Hle).
    unfold total_seconds in Hx. apply list_elem_of_omap in Hx as (l & Hl & Ht).
    apply elem_of_valid_laps in Hl as (Hl & Hd & _).
    pose proof (Hpos l x Hl Hd Ht). lra. }
  split.
  - rewrite stops_of_driver. unfold pit_stops_of_driver.
    fold (valid_laps driver laps).
    case_decide; [simpl; lia|].
    destruct (median _) as [med|] eqn:Hm; [|simpl; lia].
    unfold pit_stops_in. rewrite length_pit_stops_in.
    destruct (median_halves _ _ Hm) as [Hle _].
    pose proof (Hmed med eq_refl) as Hmpos.
    pose proof (length_filter_disjoint
                  (λ t, (med * (3 # 2) < t)%Q) (λ x, (x <= med)%Q)
                  (total_seconds (valid_laps driver laps))) as Hdis.
    pose proof (length_total_seconds_dropna (of_driver driver laps)) as Hlen.
    fold (valid_laps driver laps) in Hlen.
    assert (length (filter (λ t, (med * (3 # 2) < t)%Q)
                      (total_seconds (valid_laps driver laps)))
            + length (filter (λ x, (x <= med)%Q)
                        (total_seconds (valid_laps driver laps)))
            ≤ length (total_seconds (valid_laps driver laps)))%nat as Hsum.
    { apply Hdis. intros x H1 H2. lra. }
    lia.
  - intros e He Hd.
    assert (e ∈ pit_stops_of_driver laps driver) as He'.
    { rewrite <- stops_of_driver. by apply list_elem_of_filter. }
    unfold pit_stops_of_driver in He'. fold (valid_laps driver laps) in He'.
    case_decide; [by apply elem_of_nil in He'|].
    destruct (median _) as [med|] eqn:Hm; [|by apply elem_of_nil in He'].
    apply pit_stops_in_spec in He' as (_ & t & Ht & ->).
    exists med. split; [done|]. pose proof (Hmed med eq_refl). split; lra.
Qed.

Lemma pit_stops_are_a_minority_witness :
  (∀ l t, l ∈ pit_session → Driver l = "HAM" → LapTime l = Some t →
          (0 < t)%Q) ∧
  (2 * length (filter (λ e, ps_driver e = "HAM")
                 (analyze_pit_stop_performance pit_session))
   ≤ length (valid_laps "HAM" pit_session))%nat.
Proof.
  assert (∀ l t, l ∈ pit_session → Driver l = "HAM" → LapTime l = Some t →
                 (0 < t)%Q) as Hpos.
  { intros l t Hl _ Ht. unfold pit_session in Hl.
    repeat (apply elem_of_cons in Hl as [->|Hl];
            [injection Ht as <-; reflexivity|]).
    by apply elem_of_nil in Hl. }
  split; [exact Hpos|].
  exact (proj1 (pit_stops_are_a_minority pit_session "HAM" Hpos)).
Defined.

End StatsBoundsProofs.

(** ** More on the tyre degradation *)

Module DegradationProofs.
Import Pandas PandasFacts Stats StatsProofs Session StatsBoundsProofs.






















End DegradationProofs.

(** ** Weather impact, tyre rows and the replay of a session *)

Module SessionProofs.
Import Pandas PandasFacts Stats StatsProofs Session StatsBoundsProofs.

Lemma weather_point_is_Some (weather : list WeatherSample) (t : option Q) :
  weather ≠ [] →
  ∃ w, weather_point weather t = Some w ∧ w ∈ weather.
Proof.
  intros Hne. unfold weather_point.
  destruct (not_after t weather) as [|x l] eqn:E; simpl.
  - destruct weather as [|w ws]; [done|]. exists w. split; [done|by left].
  - destruct (last (x :: l)) as [w|] eqn:Hlast.
    + exists w. split; [done|].
      apply last_Some in Hlast as [l' Hl'].
      assert (w ∈ not_after t weather) as Hw.
      { rewrite E, Hl'. apply elem_of_app. right. by left. }
      unfold not_after in Hw. by apply elem_of_filter_bool in Hw as [? _].
    + by apply last_None in Hlast.
Qed.

(** [get_weather_impact] gives up (returns [None]) exactly when there is a
    lap but no weather row at all.  Otherwise it returns one row per lap,
    in the order of the laps, carrying the lap's driver, number and time
    (none when missing) and the measurements of one of the weather rows. *)
Theorem weather_impact_rows (weather : list WeatherSample)
    (laps : list TimedLap) :
  (get_weather_impact weather laps = None ↔ weather = [] ∧ laps ≠ []) ∧
  ∀ rows, get_weather_impact weather laps = Some rows →
    Forall2 (λ lap row,
      wi_driver row = Driver (lap_row lap) ∧
      wi_lap_number row = LapNumber (lap_row lap) ∧
      wi_lap_time row = LapTime (lap_row lap) ∧
      ∃ w, w ∈ weather ∧
           weather_point weather (lap_Time lap) = Some w ∧
           wi_air_temp row = AirTemp w ∧ wi_track_temp row = TrackTemp w ∧
           wi_humidity row = Humidity w ∧ wi_wind_speed row = WindSpeed w ∧
           wi_rainfall row = Rainfall w) laps rows.
Proof.
  unfold get_weather_impact. split.
  - rewrite eq_None_not_Some, mapM_is_Some. split.
    + intros Hnot. destruct weather as [|w ws].
      * split; [done|]. intros ->. apply Hnot. constructor.
      * exfalso. apply Hnot. apply Forall_forall. intros lap _.
        destruct (weather_point_is_Some (w :: ws) (lap_Time lap))
          as (x & Hx & _); [done|].
        unfold compose. rewrite Hx. by eexists.
    + intros [-> Hne] Hall. destruct laps as [|lap laps]; [done|].
      apply Forall_cons in Hall as [[r Hr] _].
      unfold weather_point in Hr. simpl in Hr. done.
  - intros rows Hrows. apply mapM_Some in Hrows.
    eapply Forall2_impl; [exact Hrows|]. intros lap row Hrow. simpl in Hrow.
    destruct (weather_point weather (lap_Time lap)) as [w|] eqn:Hw; [|done].
    injection Hrow as <-. simpl. do 3 (split; [done|]).
    exists w. split; [|done].
    destruct weather as [|w0 ws]; [by unfold weather_point in Hw|].
    destruct (weather_point_is_Some (w0 :: ws) (lap_Time lap)) as (x & Hx & Hin);
      [done|]. congruence.
Qed.

Lemma StronglySorted_filter_bool {A} (R : A → A → Prop) (p : A → bool)
    (l : list A) :
  StronglySorted R l → StronglySorted R (List.filter p l).
Proof.
  induction 1 as [|x l Hs IH Hall]; simpl; [constructor|].
  destruct (p x); [|done]. constructor; [done|].
  apply Forall_forall. intros y [Hy _]%elem_of_filter_bool.
  by apply (proj1 (Forall_forall _ _) Hall).
Qed.

Lemma StronglySorted_last {A} (R : A → A → Prop) (l : list A) (w : A) :
  StronglySorted R l → last l = Some w → ∀ x, x ∈ l → x = w ∨ R x w.
Proof.
  intros Hs [l' ->]%last_Some x Hx.
  apply elem_of_app in Hx as [Hx|Hx].
  - right. apply (StronglySorted_app_1_elem_of _ _ _ _ _ Hs); [done|by left].
  - left. by apply list_elem_of_singleton in Hx.
Qed.

(** When the weather rows come in the order of their time, the weather
    point of a lap is the latest reading not after the end of the lap;
    a lap that ended before the first reading gets the first reading. *)
Theorem weather_point_is_latest (weather : list WeatherSample) (t : Q)
    (w : WeatherSample) :
  StronglySorted (λ u v, (Time u <= Time v)%Q) weather →
  weather_point weather (Some t) = Some w →
  ((Time w <= t)%Q ∧
   ∀ w', w' ∈ weather → (Time w' <= t)%Q → (Time w' <= Time w)%Q) ∨
  ((∀ w', w' ∈ weather → (t < Time w')%Q) ∧ head weather = Some w ∧
   ∀ w', w' ∈ weather → (Time w <= Time w')%Q).
Proof.
  intros Hs. unfold weather_point.
  destruct (not_after (Some t) weather) as [|x l] eqn:E; simpl.
  - intros Hhead. right. split; [|split; [done|]].
    + intros w' Hw'. destruct (Qlt_le_dec t (Time w')) as [?|Hle]; [done|].
      assert (w' ∈ not_after (Some t) weather) as Hin.
      { apply elem_of_filter_bool. split; [done|]. by apply Qle_bool_iff. }
      rewrite E in Hin. by apply elem_of_nil in Hin.
    + intros w' Hw'. destruct weather as [|w0 ws]; [done|].
      injection Hhead as ->.
      apply elem_of_cons in Hw' as [->|Hw']; [apply Qle_refl|].
      apply StronglySorted_cons in Hs as [Hall _]. rewrite Forall_forall in Hall.
      by apply Hall.
  - rewrite <- E. intros Hlast. left.
    assert (StronglySorted (λ u v, (Time u <= Time v)%Q)
              (not_after (Some t) weather)) as Hs'.
    { by apply StronglySorted_filter_bool. }
    assert (w ∈ not_after (Some t) weather) as Hw.
    { apply last_Some in Hlast as [l' ->]. apply elem_of_app. right. by left. }
    apply elem_of_filter_bool in Hw as [_ Hle%Qle_bool_iff].
    split; [done|]. intros w' Hw' Hle'.
    destruct (StronglySorted_last _ _ _ Hs' Hlast w') as [->|?];
      [|apply Qle_refl|done].
    apply elem_of_filter_bool. split; [done|]. by apply Qle_bool_iff.
Qed.

Lemma weather_point_is_latest_witness :
  StronglySorted (λ u v, (Time u <= Time v)%Q) sample_weather_frame ∧
  weather_point sample_weather_frame (Some 125%Q) = Some (weather_at 120 21) ∧
  (Time (weather_at 120 21) <= 125)%Q.
Proof.
  assert (StronglySorted (λ u v, (Time u <= Time v)%Q) sample_weather_frame)
    as Hs.
  { unfold sample_weather_frame.
    repeat (constructor; [|repeat constructor; by vm_compute]).
    constructor. }
  split; [exact Hs|]. split; [reflexivity|].
  destruct (weather_point_is_latest sample_weather_frame 125
              (weather_at 120 21) Hs eq_refl) as [[Hle _]|[Hall _]].
  - exact Hle.
  - exfalso. specialize (Hall (weather_at 60 20)).
    assert (weather_at 60 20 ∈ sample_weather_frame) as Hin by (by left).
    specialize (Hall Hin). vm_compute in Hall. discriminate Hall.
Defined.

Lemma tire_analysis_lookup (nan_raises : bool) (laps : list Lap)
    (c : string) :
  tire_analysis nan_raises laps !! c
  = if decide (c ∈ omap Compound laps)
    then Some (tire_row nan_raises laps c) else None.
Proof.
  unfold tire_analysis. case_decide as Hin.
  - apply elem_of_list_to_map_1.
    + rewrite <- list_fmap_compose.
      change (fst ∘ (λ compound, (compound, tire_row nan_raises laps compound)))
        with (@id string).
      rewrite list_fmap_id. apply NoDup_unique.
    + apply list_elem_of_fmap. exists c. split; [done|].
      by apply elem_of_unique.
  - apply not_elem_of_list_to_map. rewrite <- list_fmap_compose.
    change (fst ∘ (λ compound, (compound, tire_row nan_raises laps compound)))
      with (@id string).
    rewrite list_fmap_id. by rewrite elem_of_unique.
Qed.

Lemma elem_of_of_compound (c : string) (laps : list Lap) (l : Lap) :
  l ∈ of_compound c laps ↔ l ∈ laps ∧ Compound l = Some c.
Proof.
  unfold of_compound. rewrite elem_of_filter_bool.
  destruct (Compound l) as [c'|]; [|naive_solver].
  rewrite String.eqb_eq. naive_solver.
Qed.

(** The tyre analysis has a row for exactly the compounds that occur on
    some lap.  In the row of a compound, [total_laps] counts all its laps,
    at least one, whether timed or not; when one of them is timed, the
    fastest and the average lap time are numbers, the fastest being at most
    the average; when none is, both are missing. *)
Theorem tire_analysis_rows (nan_raises : bool) (laps : list Lap)
    (c : string) :
  (is_Some (tire_analysis nan_raises laps !! c)
   ↔ ∃ l, l ∈ laps ∧ Compound l = Some c) ∧
  ∀ row, tire_analysis nan_raises laps !! c = Some row →
    tr_total_laps row = length (of_compound c laps) ∧
    (1 ≤ tr_total_laps row)%nat ∧
    (length (total_seconds (of_compound c laps)) ≤ tr_total_laps row)%nat ∧
    average_degradation row
    = _calculate_degradation nan_raises (of_compound c laps) ∧
    ((∃ f m, fastest_lap_time row = Float f ∧
             average_lap_time row = Float m ∧ (f <= m)%Q ∧
             is_minimum f (total_seconds (of_compound c laps))) ∨
     (fastest_lap_time row = NaN ∧ average_lap_time row = NaN ∧
      ∀ l, l ∈ of_compound c laps → LapTime l = None)).
Proof.
  rewrite tire_analysis_lookup.
  assert (c ∈ omap Compound laps ↔ ∃ l, l ∈ laps ∧ Compound l = Some c)
    as Hin.
  { rewrite list_elem_of_omap. naive_solver. }
  split.
  { case_decide as Hc; [|split; [by intros [? ?]|by intros ?%Hin]].
    split; [by intros _; apply Hin|by eexists]. }
  intros row. case_decide as Hc; [|done]. intros [= <-]. simpl.
  apply Hin in Hc as (l0 & Hl0 & Hc0).
  assert (l0 ∈ of_compound c laps) as Hl0' by (by apply elem_of_of_compound).
  split; [done|]. split.
  { destruct (of_compound c laps); [by apply elem_of_nil in Hl0'|simpl; lia]. }
  split.
  { unfold total_seconds. generalize (of_compound c laps). intros ls.
    induction ls as [|l ls IH]; simpl; [done|].
    destruct (LapTime l); simpl; [apply le_n_S|apply le_S]; exact IH. }
  split; [done|].
  destruct (total_seconds (of_compound c laps)) as [|t ts] eqn:E.
  - right. split; [done|]. split; [done|].
    intros l Hl. destruct (LapTime l) as [t|] eqn:Ht; [|done].
    assert (t ∈ total_seconds (of_compound c laps)) as Hin'.
    { unfold total_seconds. apply list_elem_of_omap. by exists l. }
    rewrite E in Hin'. by apply elem_of_nil in Hin'.
  - left. destruct (series_min_spec (t :: ts)) as (f & Hf & Hfin & Hmin); [done|].
    destruct (mean_spec (t :: ts)) as (m & Hm & _); [done|].
    exists f, m. split; [done|]. split; [done|]. split; [|done].
    destruct (series_max_spec (t :: ts)) as (mx & _ & _ & Hmax); [done|].
    apply (mean_bounds f mx m (t :: ts)); [done|done|].
    intros x Hx. split; [by apply Hmin|by apply Hmax].
Qed.

Lemma replay_loop_done (all_laps : list Lap) (sleeps : list bool)
    (flag : bool) (out : list LiveUpdate) :
  replay_loop all_laps sleeps flag (length all_laps) out
  = (length all_laps, out).
Proof.
  destruct sleeps as [|stop sleeps]; simpl; [done|].
  rewrite Nat.ltb_irrefl. by rewrite andb_false_r.
Qed.

(** The replay loop when nobody stops it, entered with [5 * k] laps
    processed. *)
Lemma replay_loop_batches (all_laps : list Lap) (sleeps : list bool) :
  ∀ (k : nat) (out : list LiveUpdate),
    Forall (λ stop, stop = false) sleeps →
    (5 * k ≤ length all_laps ≤ 5 * (k + length sleeps))%nat →
    ∃ new,
      replay_loop all_laps sleeps true (5 * k) out
      = (length all_laps, out ++ new) ∧
      length new = ((length all_laps - 5 * k + 4) / 5)%nat ∧
      concat (current_laps <$> new) = drop (5 * k) all_laps ∧
      ∀ j u, new !! j = Some u →
        first_lap u = (5 * (k + j) + 1)%nat ∧
        last_lap u = Nat.min (5 * (k + j) + 5) (length all_laps) ∧
        current_laps u = take 5 (drop (5 * (k + j)) all_laps) ∧
        standings_of u
        = if (3 <=? k + j)%nat then Some (take (last_lap u) all_laps)
          else None.
Proof.
  assert (∀ (k : nat) (out : list LiveUpdate),
    length all_laps = (5 * k)%nat →
    ((5 * k)%nat, out) = (length all_laps, out ++ []) ∧
    length (@nil LiveUpdate) = ((length all_laps - 5 * k + 4) / 5)%nat ∧
    concat (current_laps <$> []) = drop (5 * k) all_laps ∧
    ∀ j u, @nil LiveUpdate !! j = Some u →
      first_lap u = (5 * (k + j) + 1)%nat ∧
      last_lap u = Nat.min (5 * (k + j) + 5) (length all_laps) ∧
      current_laps u = take 5 (drop (5 * (k + j)) all_laps) ∧
      standings_of u
      = if (3 <=? k + j)%nat then Some (take (last_lap u) all_laps)
        else None) as Hempty.
  { intros k out Hn. rewrite app_nil_r, Hn, Nat.sub_diag.
    split; [done|]. split; [done|]. split.
    - symmetry. apply drop_ge. lia.
    - intros j u Hj. by rewrite lookup_nil in Hj. }
  induction sleeps as [|stop sleeps IH]; intros k out Hall Hk.
  { change (length (@nil bool)) with 0%nat in Hk.
    exists []. cbn [replay_loop]. apply Hempty. lia. }
  apply Forall_cons in Hall as [-> Hall].
  change (length (false :: sleeps)) with (S (length sleeps)) in Hk.
  cbn [replay_loop]. cbv zeta.
  destruct (5 * k <? length all_laps)%nat eqn:E.
  - apply Nat.ltb_lt in E. rewrite andb_true_l.
    set (u0 := {| first_lap := 5 * k + 1;
                  last_lap := 5 * k + Nat.min 5 (length all_laps - 5 * k);
                  current_laps :=
                    slice (5 * k)
                      (5 * k + Nat.min 5 (length all_laps - 5 * k)) all_laps;
                  standings_of :=
                    if (10 <? 5 * k)%nat
                    then Some (take (5 * k
                                     + Nat.min 5 (length all_laps - 5 * k))
                                 all_laps)
                    else None |}).
    assert (current_laps u0 = take 5 (drop (5 * k) all_laps)) as Hbatch.
    { unfold u0, slice. cbn [current_laps].
      replace (5 * k + Nat.min 5 (length all_laps - 5 * k) - 5 * k)%nat
        with (Nat.min 5 (length all_laps - 5 * k)) by lia.
      destruct (decide (5 ≤ length all_laps - 5 * k)%nat).
      - by rewrite Nat.min_l by lia.
      - rewrite Nat.min_r by lia.
        rewrite !take_ge; [done|rewrite length_drop; lia..]. }
    assert (∀ j : nat, j = 0%nat →
              first_lap u0 = (5 * (k + j) + 1)%nat ∧
              last_lap u0 = Nat.min (5 * (k + j) + 5) (length all_laps) ∧
              current_laps u0 = take 5 (drop (5 * (k + j)) all_laps) ∧
              standings_of u0
              = if (3 <=? k + j)%nat then Some (take (last_lap u0) all_laps)
                else None) as Hu0.
    { intros j ->. rewrite Nat.add_0_r. split; [done|].
      split; [unfold u0; cbn [last_lap]; lia|]. split; [done|].
      unfold u0. cbn [standings_of last_lap].
      destruct (Nat.ltb_spec 10 (5 * k)), (Nat.leb_spec 3 k); (done || lia). }
    clearbody u0.
    destruct (decide (5 ≤ length all_laps - 5 * k)%nat) as [H5|H5].
    + replace (5 * k + Nat.min 5 (length all_laps - 5 * k))%nat
        with (5 * S k)%nat by lia.
      destruct (IH (S k) (out ++ [u0]) Hall) as (new & Hloop & Hlen & Hcat & Hnew);
        [lia|].
      exists (u0 :: new). cbn [negb]. split.
      { rewrite Hloop, <- (assoc_L (++)). done. }
      split.
      { cbn [length]. rewrite Hlen.
        replace (length all_laps - 5 * k + 4)%nat
          with ((length all_laps - 5 * S k + 4) + 1 * 5)%nat by lia.
        rewrite Nat.div_add by lia. lia. }
      split.
      { rewrite fmap_cons. cbn [concat]. rewrite Hcat, Hbatch.
        replace (5 * S k)%nat with (5 * k + 5)%nat by lia.
        rewrite <- drop_drop. apply take_drop. }
      intros [|j] u Hj.
      * injection Hj as <-. by apply Hu0.
      * replace (k + S j)%nat with (S k + j)%nat by lia.
        apply Hnew. exact Hj.
    + replace (5 * k + Nat.min 5 (length all_laps - 5 * k))%nat
        with (length all_laps) by lia.
      rewrite replay_loop_done. exists [u0]. split; [done|]. split.
      { cbn [length].
        apply Nat.div_unique with (r := (length all_laps - 5 * k + 4 - 5)%nat);
          lia. }
      split.
      { rewrite fmap_cons. cbn [concat fmap list_fmap].
        rewrite app_nil_r, Hbatch. apply take_ge.
        rewrite length_drop. lia. }
      intros [|j] u Hj; [|by destruct j].
      injection Hj as <-. by apply Hu0.
  - apply Nat.ltb_ge in E. rewrite andb_false_r.
    exists []. apply Hempty. lia.
Qed.

(** Left alone for long enough, the replay of a session goes through all
    its laps once, in order, five at a time (the last batch may be
    shorter), so in [ceil(n / 5)] updates; the standings are shown only from
    the fourth update on, over all the laps up to the end of the batch. *)
Theorem replay_covers_all_laps (all_laps : list Lap) (sleeps : list bool) :
  Forall (λ stop, stop = false) sleeps →
  (length all_laps ≤ 5 * length sleeps)%nat →
  ∃ updates,
    monitor_live_session all_laps sleeps = (length all_laps, updates) ∧
    length updates = ((length all_laps + 4) / 5)%nat ∧
    concat (current_laps <$> updates) = all_laps ∧
    ∀ k u, updates !! k = Some u →
      first_lap u = (5 * k + 1)%nat ∧
      last_lap u = Nat.min (5 * k + 5) (length all_laps) ∧
      current_laps u = take 5 (drop (5 * k) all_laps) ∧
      standings_of u
      = if (3 <=? k)%nat then Some (take (last_lap u) all_laps) else None.
Proof.
  intros Hall Hlen. unfold monitor_live_session.
  destruct (replay_loop_batches all_laps sleeps 0 [] Hall)
    as (new & Hloop & Hn & Hcat & Hnew); [lia|].
  change (5 * 0)%nat with 0%nat in *. exists new.
  split; [done|]. split; [by rewrite Hn, Nat.sub_0_r|]. split; [done|].
  intros k u Hk. by apply (Hnew k u).
Qed.

Lemma replay_covers_all_laps_witness :
  Forall (λ stop, stop = false) [false; false] ∧
  (length pace_session ≤ 5 * length [false; false])%nat ∧
  ∃ updates,
    monitor_live_session pace_session [false; false]
    = (length pace_session, updates) ∧
    length updates = ((length pace_session + 4) / 5)%nat ∧
    concat (current_laps <$> updates) = pace_session.
Proof.
  assert (Forall (λ stop, stop = false) [false; false]) as Hall
    by (repeat constructor).
  assert (length pace_session ≤ 5 * length [false; false])%nat as Hlen
    by (vm_compute; lia).
  split; [exact Hall|]. split; [exact Hlen|].
  destruct (replay_covers_all_laps pace_session [false; false] Hall Hlen)
    as (updates & H1 & H2 & H3 & _).
  exists updates. split; [exact H1|]. split; [exact H2|exact H3].
Defined.

End SessionProofs.

(** ** Snapshots that arrive twice or late *)

Module LiveOrderProofs.
Import Py PyFacts Live LiveProofs.

(** A snapshot delivered a second time, right after the first, changes
    nothing: the history, both stores and the track status stay as the first
    delivery left them, also when that delivery evicted an entry. *)
Theorem redelivered_snapshot_changes_nothing (d : LiveData) (st : Monitor) :
  consistent st →
  ∃ st1, _process_live_data d st = Done st1 tt ∧
         _process_live_data d st1 = Done st1 tt.
Proof.
  intros (sd & Hsd & Hdom & Hsz).
  pose proof (size_insert_le (timestamp d) (drivers d) (timing_data sd)) as Hins.
  destruct (process_step d st sd Hsd Hdom) as [[Hle ->]|[Hgt (k & Hk & ->)]];
    eexists; (split; [reflexivity|]).
  - match goal with
    | |- _process_live_data d (with_session st ?sd1) = _ =>
      destruct (process_step d (with_session st sd1) sd1 eq_refl)
        as [[_ ->]|[Hgt _]]
    end.
    + simpl. by rewrite !dom_insert_L, Hdom.
    + rewrite with_session_twice. simpl. by rewrite !insert_insert_eq.
    + simpl in Hgt. rewrite insert_insert_eq in Hgt. lia.
  - pose proof (size_delete_least k _ Hk) as Hdel.
    match goal with
    | |- _process_live_data d (with_session st ?sd1) = _ =>
      destruct (process_step d (with_session st sd1) sd1 eq_refl)
        as [[Hle2 ->]|[Hgt2 (k' & Hk' & ->)]]
    end.
    + simpl. by rewrite !dom_delete_L, !dom_insert_L, Hdom.
    + rewrite with_session_twice. simpl in *.
      destruct (decide (k = timestamp d)) as [->|Hne].
      * rewrite delete_insert_eq, insert_delete_eq in Hle2. lia.
      * rewrite !(insert_id (delete k _)); [done|..].
        -- by rewrite lookup_delete_ne, lookup_insert_eq.
        -- by rewrite lookup_delete_ne, lookup_insert_eq.
    + rewrite with_session_twice. simpl in *.
      destruct (decide (k = timestamp d)) as [->|Hne].
      * rewrite !delete_insert_eq, !insert_delete_eq in *.
        by rewrite (least_key_unique _ _ _ Hk' Hk), !delete_insert_eq.
      * rewrite (insert_id (delete k _)) in Hgt2; [lia|].
        by rewrite lookup_delete_ne, lookup_insert_eq.
Qed.

Lemma redelivered_snapshot_changes_nothing_witness :
  consistent (started "R" 0 init) ∧
  ∃ st1, _process_live_data (sample_snapshot 0) (started "R" 0 init)
         = Done st1 tt ∧
         _process_live_data (sample_snapshot 0) st1 = Done st1 tt.
Proof.
  split; [apply started_consistent|].
  apply (redelivered_snapshot_changes_nothing (sample_snapshot 0)
           (started "R" 0 init)).
  apply started_consistent.
Defined.

(** A snapshot older than everything stored, arriving at a full history
    that does not hold its timestamp, is evicted by its own insertion. *)
Lemma late_snapshot_step (d : LiveData) (st : Monitor) (sd : SessionData) :
  session_data st = Some sd →
  dom (timing_data sd) = dom (weather_data sd) →
  size (timing_data sd) = 100%nat →
  (∀ k, k ∈ dom (timing_data sd) → slt (timestamp d) k) →
  _process_live_data d st
  = Done (with_session st
            {| session_info := session_info sd; start_time := start_time sd;
               timing_data := timing_data sd; weather_data := weather_data sd;
               sd_track_status := track_status d |}) tt.
Proof.
  intros Hsd Hdom Hsz Hold.
  assert (timestamp d ∉ dom (timing_data sd)) as Hfresh.
  { intros Hin. specialize (Hold _ Hin). unfold slt in Hold.
    by rewrite ltb_irrefl in Hold. }
  assert (timing_data sd !! timestamp d = None) as Hnone
    by (by apply not_elem_of_dom).
  assert (weather_data sd !! timestamp d = None) as Hnone'.
  { apply not_elem_of_dom. by rewrite <- Hdom. }
  destruct (process_step d st sd Hsd Hdom) as [[Hle _]|[_ (k & Hk & ->)]].
  { rewrite map_size_insert_None in Hle by done. lia. }
  assert (least_key (timestamp d)
            (<[timestamp d := drivers d]> (timing_data sd))) as Hleast.
  { split; [rewrite dom_insert_L; set_solver|].
    intros x. rewrite dom_insert_L.
    intros [->%elem_of_singleton|Hx]%elem_of_union; [done|].
    by apply ltb_le, Hold. }
  rewrite (least_key_unique _ _ _ Hk Hleast).
  by rewrite !delete_insert_id.
Qed.

(** With a full history built from snapshots in increasing order, a
    snapshot that arrives late, older than the hundred stored ones, is not
    kept: both stores stay as they were, only the track status is taken
    from it. *)
Theorem late_snapshot_is_not_kept (info : string) (now : Q) (st0 : Monitor)
    (l : list LiveData) (d : LiveData) :
  StronglySorted slt (timestamp <$> l) →
  (100 ≤ length l)%nat →
  (∀ x, x ∈ most_recent 100 l → slt (timestamp d) (timestamp x)) →
  ∃ st sd st' sd',
    process_all l (started info now st0) = Done st tt ∧
    session_data st = Some sd ∧
    process_all (l ++ [d]) (started info now st0) = Done st' tt ∧
    session_data st' = Some sd' ∧
    timing_data sd' = timing_data sd ∧
    weather_data sd' = weather_data sd ∧
    timing_data sd' !! timestamp d = None ∧
    sd_track_status sd' = track_status d.
Proof.
  intros Hs Hlen Hold.
  pose proof (process_all_sorted info now st0 l Hs) as Hrun.
  set (sd := retained info now l) in *.
  set (st := with_session (started info now st0) sd) in *.
  assert (∀ k, k ∈ dom (timing_data sd) → slt (timestamp d) k) as Hold'.
  { intros k. unfold sd, retained, snapshot_entry; simpl.
    rewrite (store_dom drivers), elem_of_list_to_set.
    intros (x & -> & Hx)%list_elem_of_fmap. by apply Hold. }
  assert (dom (timing_data sd) = dom (weather_data sd)) as Hdom.
  { unfold sd, retained, snapshot_entry, weather_entry; simpl.
    by rewrite (store_dom drivers), (store_dom weather). }
  assert (size (timing_data sd) = 100%nat) as Hsz.
  { unfold sd. rewrite retained_size by done. lia. }
  pose proof (late_snapshot_step d st sd eq_refl Hdom Hsz Hold') as Hstep.
  eexists st, sd, _, _. split; [done|]. split; [done|].
  split; [rewrite (process_all_app _ _ _ _ Hrun); simpl; by rewrite Hstep|].
  split; [reflexivity|]. simpl. split; [done|]. split; [done|].
  split; [|done]. apply not_elem_of_dom. intros Hin.
  specialize (Hold' _ Hin). unfold slt in Hold'.
  by rewrite ltb_irrefl in Hold'.
Qed.

Lemma late_snapshot_is_not_kept_witness :
  StronglySorted slt (timestamp <$> (sample_snapshot <$> seq 1 100)) ∧
  (100 ≤ length (sample_snapshot <$> seq 1 100))%nat ∧
  ∃ st' sd',
    process_all ((sample_snapshot <$> seq 1 100) ++ [sample_snapshot 0])
      (started "R" 0 init) = Done st' tt ∧
    session_data st' = Some sd' ∧
    timing_data sd' !! timestamp (sample_snapshot 0) = None.
Proof.
  assert (StronglySorted slt (timestamp <$> (sample_snapshot <$> seq 1 100)))
    as Hs.
  { apply increasing_StronglySorted. vm_compute. reflexivity. }
  assert (100 ≤ length (sample_snapshot <$> seq 1 100))%nat as Hlen.
  { rewrite length_fmap, length_seq. lia. }
  assert (∀ x, x ∈ most_recent 100 (sample_snapshot <$> seq 1 100) →
               slt (timestamp (sample_snapshot 0)) (timestamp x)) as Hold.
  { intros x Hx. apply list_elem_of_In in Hx. revert x Hx.
    apply forallb_forall. vm_compute. reflexivity. }
  split; [exact Hs|]. split; [exact Hlen|].
  destruct (late_snapshot_is_not_kept "R" 0 init _ (sample_snapshot 0)
              Hs Hlen Hold)
    as (st & sd & st' & sd' & _ & _ & Hrun & Hsd' & _ & _ & Hnone & _).
  exists st', sd'. split; [exact Hrun|]. split; [exact Hsd'|exact Hnone].
Defined.

End LiveOrderProofs.
